(** * logrot: log rotation on a signal

    A shallow embedding of the Go package [logrot] and the properties its
    specification states about it.

    The package keeps a process-wide registry [files] from file names to
    the [*os.File] last opened under that name, redirects the standard
    logger, a list of [Logger] objects and optionally [os.Stdout] and
    [os.Stderr] to the log file, and reopens the file whenever a signal
    arrives on a listener goroutine.

    The Go process is modelled by a record [World] that holds the heap of
    [os.File] objects, the heap of [LogRot] objects (they are shared
    between the caller and the listener goroutine, so they live in a
    store and are addressed by pointer), the package globals, the
    listener goroutines with their signal channel, and a chronological
    trace of the effects performed.  Go code becomes a function
    [World -> result A]; the result records normal return, [os.Exit],
    a nil dereference, or a goroutine that blocks for ever. *)

From stdpp Require Import gmap strings list fin_maps.
From Stdlib Require Import ZArith.

Local Open Scope string_scope.
Local Open Scope list_scope.

(** ** Data *)

(** A non-nil [*os.File]: the address of an [os.File] object in [fobjs].
    A possibly nil [*os.File] is an [option handle]. *)
Abbreviation handle := nat.

(** Identity of an object that implements the [Logger] interface. *)
Abbreviation logger := nat.

(** A non-nil [*LogRot]: an address in [ctrls]. *)
Abbreviation ptr := nat.

(** A [chan struct{}] made by [rotateOn]; it is named by the index, in
    [tasks], of the goroutine that receives from it. *)
Abbreviation chan := nat.

(** [os.Signal] values, as signal numbers. *)
Abbreviation Signal := Z.

Module syscall.
(** Linux values of the constants the package uses. *)
Definition SIGHUP : Signal := 1%Z.
Definition SIGUSR1 : Signal := 10%Z.
Definition O_WRONLY : Z := 1%Z.
Definition O_RDWR : Z := 2%Z.
Definition O_CREAT : Z := 64%Z.
Definition O_EXCL : Z := 128%Z.
Definition O_TRUNC : Z := 512%Z.
Definition O_APPEND : Z := 1024%Z.
End syscall.

Module os.
Definition O_WRONLY : Z := syscall.O_WRONLY.
Definition O_CREATE : Z := syscall.O_CREAT.
Definition O_APPEND : Z := syscall.O_APPEND.
End os.

(** An [os.File] object. *)
Record File := mkFile {
  f_name : string;
  f_flag : Z;
  f_perm : Z;
  f_closed : bool
}.

(** type LogRot struct *)
Record LogRot := mkLogRot {
  name : string;
  logFile : option handle;
  signal : Signal;
  quit : option chan;
  loggers : list logger;
  captureStdout : bool;
  captureStderr : bool
}.

(** Where the listener goroutine of [rotateOn] stands: at its [select],
    inside [rotate] after the reopen, inside [rotate] after [setOutput],
    or returned. *)
Inductive pc :=
| Waiting
| Opened (oldLog : option handle)
| Redirected (oldLog : option handle)
| Returned.

(** The goroutine started by [rotateOn] together with its channel
    [sigs := make(chan os.Signal, 1)] and the signal [signal.Notify]
    relays to it. *)
Record Task := mkTask {
  t_rl : ptr;
  t_notify : Signal;
  t_sigs : list Signal;
  t_pc : pc
}.

(** Capacity of [sigs]. *)
Definition sigs_cap : nat := 1.

(** The things whose output [setOutput] redirects. *)
Inductive target :=
| TLog
| TLogger (l : logger)
| TStdout
| TStderr.

(** What is handed to the standard logger. *)
Inductive message :=
| MFatalf (format : string) (err : string)
| MFatal (prefix : string) (err : string)
| MPrintln (text : string) (arg : string)
| MRotating (s : Signal) (file : string).

Inductive event :=
| EvOpenFile (file : string) (flag perm : Z) (res : option handle)
| EvRegister (file : string) (h : handle)
| EvSetOutput (t : target) (d : option handle)
| EvClose (d : option handle)
| EvLog (d : option handle) (m : message)
| EvSignal (s : Signal)
| EvRotate (p : ptr)
| EvRotated (p : ptr).

Record World := mkWorld {
  files : gmap string handle;           (* var files = map[string]*os.File{} *)
  fobjs : list File;                    (* heap of os.File objects *)
  ctrls : list LogRot;                  (* heap of LogRot objects *)
  tasks : list Task;                    (* listener goroutines *)
  log_out : option handle;              (* output of the standard logger *)
  logger_out : gmap logger (option handle);  (* output of each Logger *)
  os_Stdout : option handle;
  os_Stderr : option handle;
  openErr : string -> option string;    (* the error os.OpenFile meets, per path *)
  trace : list event
}.

(** A fresh process: the three standard streams are open, the standard
    logger writes to [os.Stderr], nothing is registered. *)
Definition std_streams : list File :=
  [ mkFile "/dev/stdin" 0 0 false;
    mkFile "/dev/stdout" syscall.O_WRONLY 0 false;
    mkFile "/dev/stderr" syscall.O_WRONLY 0 false ].

Definition init (oe : string -> option string) : World :=
  mkWorld ∅ std_streams [] [] (Some 2) ∅ (Some 1) (Some 2) oe [].

(** ** Field updates *)

Definition set_files (m : gmap string handle) (w : World) : World :=
  mkWorld m (fobjs w) (ctrls w) (tasks w) (log_out w) (logger_out w)
          (os_Stdout w) (os_Stderr w) (openErr w) (trace w).

Definition set_fobjs (fs : list File) (w : World) : World :=
  mkWorld (files w) fs (ctrls w) (tasks w) (log_out w) (logger_out w)
          (os_Stdout w) (os_Stderr w) (openErr w) (trace w).

Definition set_ctrls (cs : list LogRot) (w : World) : World :=
  mkWorld (files w) (fobjs w) cs (tasks w) (log_out w) (logger_out w)
          (os_Stdout w) (os_Stderr w) (openErr w) (trace w).

Definition set_tasks (ts : list Task) (w : World) : World :=
  mkWorld (files w) (fobjs w) (ctrls w) ts (log_out w) (logger_out w)
          (os_Stdout w) (os_Stderr w) (openErr w) (trace w).

Definition set_log_out (d : option handle) (w : World) : World :=
  mkWorld (files w) (fobjs w) (ctrls w) (tasks w) d (logger_out w)
          (os_Stdout w) (os_Stderr w) (openErr w) (trace w).

Definition set_logger_out (m : gmap logger (option handle)) (w : World) : World :=
  mkWorld (files w) (fobjs w) (ctrls w) (tasks w) (log_out w) m
          (os_Stdout w) (os_Stderr w) (openErr w) (trace w).

Definition set_Stdout (d : option handle) (w : World) : World :=
  mkWorld (files w) (fobjs w) (ctrls w) (tasks w) (log_out w) (logger_out w)
          d (os_Stderr w) (openErr w) (trace w).

Definition set_Stderr (d : option handle) (w : World) : World :=
  mkWorld (files w) (fobjs w) (ctrls w) (tasks w) (log_out w) (logger_out w)
          (os_Stdout w) d (openErr w) (trace w).

Definition set_openErr (oe : string -> option string) (w : World) : World :=
  mkWorld (files w) (fobjs w) (ctrls w) (tasks w) (log_out w) (logger_out w)
          (os_Stdout w) (os_Stderr w) oe (trace w).

Definition set_trace (tr : list event) (w : World) : World :=
  mkWorld (files w) (fobjs w) (ctrls w) (tasks w) (log_out w) (logger_out w)
          (os_Stdout w) (os_Stderr w) (openErr w) tr.

Definition emit (e : event) (w : World) : World :=
  set_trace (trace w ++ [e]) w.

(** ** Outcomes of Go code *)

Inductive result (A : Type) :=
| Ok (a : A) (w : World)          (* returned *)
| Exit (code : Z) (w : World)     (* os.Exit(code) *)
| Panic (w : World)               (* nil pointer dereference *)
| Blocked (w : World).            (* the calling goroutine never proceeds *)
Arguments Ok {A} a w.
Arguments Exit {A} code w.
Arguments Panic {A} w.
Arguments Blocked {A} w.

Definition M (A : Type) : Type := World -> result A.

Definition ret {A} (a : A) : M A := fun w => Ok a w.

Definition bind {A B} (m : M A) (k : A -> M B) : M B :=
  fun w => match m w with
           | Ok a w' => k a w'
           | Exit c w' => Exit c w'
           | Panic w' => Panic w'
           | Blocked w' => Blocked w'
           end.

Notation "x <~ m ;; k" := (bind m (fun x => k))
  (at level 20, m at level 99, k at level 200, only parsing).
Notation "m ;;; k" := (bind m (fun _ => k))
  (at level 100, k at level 200, right associativity, only parsing).

(** A state change that always returns. *)
Definition modify (f : World -> World) : M unit := fun w => Ok tt (f w).

(** Whether the computation returned. *)
Definition returned {A} (r : result A) : bool :=
  match r with Ok _ _ => true | _ => false end.

(** The world an outcome leaves behind. *)
Definition world_of {A} (r : result A) : World :=
  match r with Ok _ w | Exit _ w | Panic w | Blocked w => w end.

(** ** The runtime and the standard library, as far as the package uses them *)

(** [os.OpenFile(name, flag, perm)]: a new [os.File] object, or the
    error. *)
Definition os_OpenFile (file : string) (flag perm : Z) (w : World)
  : (handle + string) * World :=
  match openErr w file with
  | Some e => (inr e, emit (EvOpenFile file flag perm None) w)
  | None =>
      let h := length (fobjs w) in
      (inl h, emit (EvOpenFile file flag perm (Some h))
                (set_fobjs (fobjs w ++ [mkFile file flag perm false]) w))
  end.

Definition mark_closed (f : File) : File :=
  mkFile (f_name f) (f_flag f) (f_perm f) true.

(** [f.Close()] with the error it returns dropped, as every caller in the
    package does.  On a nil or an already closed file only an error comes
    back. *)
Definition file_Close (d : option handle) : M unit :=
  modify (fun w =>
    emit (EvClose d)
      (set_fobjs match d with
                 | Some h => alter mark_closed h (fobjs w)
                 | None => fobjs w
                 end w)).

(** [log.SetOutput(d)] *)
Definition log_SetOutput (d : option handle) : M unit :=
  modify (fun w => emit (EvSetOutput TLog d) (set_log_out d w)).

(** [l.SetOutput(d)] for a [Logger] [l]: the logger's destination is
    [d] from now on. *)
Definition Logger_SetOutput (l : logger) (d : option handle) : M unit :=
  modify (fun w => emit (EvSetOutput (TLogger l) d)
                     (set_logger_out (<[l := d]> (logger_out w)) w)).

(** The standard logger writes [m] to its current output. *)
Definition log_Output (m : message) : M unit :=
  modify (fun w => emit (EvLog (log_out w) m) w).

(** [log.Fatalf(format, err)]: print, then [os.Exit(1)]. *)
Definition log_Fatalf {A} (format err : string) : M A :=
  fun w => Exit 1 (emit (EvLog (log_out w) (MFatalf format err)) w).

(** [log.Fatal(prefix, err)]: print, then [os.Exit(1)]. *)
Definition log_Fatal {A} (prefix err : string) : M A :=
  fun w => Exit 1 (emit (EvLog (log_out w) (MFatal prefix err)) w).

(** ** The package *)

(** The flag and permission words of every open:
    [os.O_CREATE|os.O_WRONLY|os.O_APPEND] and the octal literal 0644. *)
Definition open_flag : Z := Z.lor (Z.lor os.O_CREATE os.O_WRONLY) os.O_APPEND.
Definition open_perm : Z := (6 * 64 + 4 * 8 + 4)%Z.

(** func mustOpenFileForAppend(name string) *os.File *)
Definition mustOpenFileForAppend (file : string) : M handle :=
  fun w =>
    match os_OpenFile file open_flag open_perm w with
    | (inr err, w1) => log_Fatalf "error: " err w1
    | (inl f, w1) =>
        (* Remember the latest *os.File for the given name *)
        Ok f (emit (EvRegister file f) (set_files (<[file := f]> (files w1)) w1))
    end.

(** func Open(name string) *os.File.  The registry only ever holds files
    that were opened, so [f == nil] is the absence of an entry. *)
Definition Open (file : string) : M handle :=
  fun w =>
    match files w !! file with
    | None => mustOpenFileForAppend file w
    | Some f => Ok f w
    end.

(** Reading and writing a [LogRot] through its pointer. *)
Definition deref (p : ptr) : M LogRot :=
  fun w => match ctrls w !! p with
           | Some rl => Ok rl w
           | None => Panic w
           end.

Definition with_logFile (f : option handle) (rl : LogRot) : LogRot :=
  mkLogRot (name rl) f (signal rl) (quit rl) (loggers rl)
           (captureStdout rl) (captureStderr rl).

Definition with_captureStdout (b : bool) (rl : LogRot) : LogRot :=
  mkLogRot (name rl) (logFile rl) (signal rl) (quit rl) (loggers rl)
           b (captureStderr rl).

Definition with_captureStderr (b : bool) (rl : LogRot) : LogRot :=
  mkLogRot (name rl) (logFile rl) (signal rl) (quit rl) (loggers rl)
           (captureStdout rl) b.

Definition update (p : ptr) (f : LogRot -> LogRot) : M unit :=
  rl <~ deref p ;;
  modify (fun w => set_ctrls (<[p := f rl]> (ctrls w)) w).

(** [&LogRot{...}] *)
Definition new_LogRot (rl : LogRot) : M ptr :=
  fun w => Ok (length (ctrls w)) (set_ctrls (ctrls w ++ [rl]) w).

(** [for _, l := range ls { body }] *)
Fixpoint for_range {A} (ls : list A) (body : A -> M unit) : M unit :=
  match ls with
  | [] => ret tt
  | l :: ls' => body l ;;; for_range ls' body
  end.

(** [os.Stdout = d] and [os.Stderr = d] *)
Definition assign_Stdout (d : option handle) : M unit :=
  modify (fun w => emit (EvSetOutput TStdout d) (set_Stdout d w)).

Definition assign_Stderr (d : option handle) : M unit :=
  modify (fun w => emit (EvSetOutput TStderr d) (set_Stderr d w)).

(** func (rl *LogRot) setOutput() *)
Definition setOutput (p : ptr) : M unit :=
  rl <~ deref p ;;
  log_SetOutput (logFile rl) ;;;
  for_range (loggers rl) (fun l => Logger_SetOutput l (logFile rl)) ;;;
  (if captureStdout rl then assign_Stdout (logFile rl) else ret tt) ;;;
  (if captureStderr rl then assign_Stderr (logFile rl) else ret tt).

(** func (rl *LogRot) rotate().  Entry and return are recorded in the
    trace. *)
Definition rotate (p : ptr) : M unit :=
  modify (emit (EvRotate p)) ;;;
  rl <~ deref p ;;
  let oldLog := logFile rl in
  f <~ mustOpenFileForAppend (name rl) ;;
  update p (with_logFile (Some f)) ;;;
  setOutput p ;;;
  file_Close oldLog ;;;
  modify (emit (EvRotated p)).

(** func (rl *LogRot) CaptureStdout() *)
Definition CaptureStdout (p : ptr) : M unit :=
  update p (with_captureStdout true) ;;;
  rl <~ deref p ;;
  assign_Stdout (logFile rl).

(** func (rl *LogRot) CaptureStderr() *)
Definition CaptureStderr (p : ptr) : M unit :=
  update p (with_captureStderr true) ;;;
  rl <~ deref p ;;
  assign_Stderr (logFile rl).

(** *** The listener goroutine *)

Definition with_pc (s : pc) (t : Task) : Task :=
  mkTask (t_rl t) (t_notify t) (t_sigs t) s.

Definition with_sigs (q : list Signal) (t : Task) : Task :=
  mkTask (t_rl t) (t_notify t) q (t_pc t).

Definition set_pc (c : chan) (s : pc) : M unit :=
  modify (fun w => set_tasks (alter (with_pc s) c (tasks w)) w).

Definition set_sigs (c : chan) (q : list Signal) : M unit :=
  modify (fun w => set_tasks (alter (with_sigs q) c (tasks w)) w).

(** [sigs := make(chan os.Signal, 1); signal.Notify(sigs, sig); go func() {...}()] *)
Definition go_listener (p : ptr) (sig : Signal) : M unit :=
  modify (fun w => set_tasks (tasks w ++ [mkTask p sig [] Waiting]) w).

(** [make(chan struct{})]: the channel of the goroutine started next. *)
Definition make_quit : M chan := fun w => Ok (length (tasks w)) w.

(** One scheduling slice of the goroutine [c].  At the [select] it takes
    a pending signal and runs [rotate] up to and including the reopen;
    the next slice runs [setOutput], the one after closes the old file
    and comes back to the [select].  With nothing pending, or once
    returned, the goroutine does not move. *)
Definition listener_step (c : chan) : M unit :=
  fun w =>
    match tasks w !! c with
    | None => Ok tt w
    | Some t =>
        match t_pc t with
        | Waiting =>
            match t_sigs t with
            | [] => Ok tt w
            | s :: q =>
                (set_sigs c q ;;;
                 rl <~ deref (t_rl t) ;;
                 if (s =? signal rl)%Z then
                   log_Output (MRotating s (name rl)) ;;;
                   modify (emit (EvRotate (t_rl t))) ;;;
                   f <~ mustOpenFileForAppend (name rl) ;;
                   update (t_rl t) (with_logFile (Some f)) ;;;
                   set_pc c (Opened (logFile rl))
                 else ret tt) w
            end
        | Opened oldLog =>
            (setOutput (t_rl t) ;;; set_pc c (Redirected oldLog)) w
        | Redirected oldLog =>
            (file_Close oldLog ;;;
             modify (emit (EvRotated (t_rl t))) ;;;
             set_pc c Waiting) w
        | Returned => Ok tt w
        end
    end.

(** The runtime relays a signal to every channel registered for it with
    a send that never blocks: a full channel loses the signal. *)
Definition relay (s : Signal) (t : Task) : Task :=
  if bool_decide (t_notify t = s) && Nat.ltb (length (t_sigs t)) sigs_cap
  then with_sigs (t_sigs t ++ [s]) t
  else t.

(** The arrival of a signal that the process survives: it is recorded
    and relayed to the channels registered for it.  A signal that ends
    the process (one no channel is registered for and whose default
    action is to terminate, SIGKILL always) ends the run with it and is
    no [deliver]; what is shown of every run below holds of the runs of
    the process, which are among them. *)
Definition deliver (s : Signal) : M unit :=
  modify (fun w => emit (EvSignal s) (set_tasks (relay s <$> tasks w) w)).

(** [q <- struct{}{}] on the unbuffered [quit] channel, from the moment
    the goroutine accepts it: the send completes when the goroutine
    stands at its [select] and takes the [<-rl.quit] case, after which
    it returns.  A goroutine inside [rotate] first finishes it.  A nil
    channel, or one whose goroutine has returned, has no receiver: the
    sender blocks for ever.

    With a signal waiting in [sigs] both cases of the [select] are
    ready, and the goroutine may take the signal and rotate before it
    takes [quit]; a goroutine that was handed the signal while parked at
    the [select] does.  Those rotations are slices of the listener
    ([listener_step]) that a run has before the call: [send_quit] is the
    choice of [<-rl.quit], and a signal that waits at that moment stays
    in the channel.  What is stated of one [Close] from a given world
    that would differ had the goroutine rotated first assumes that no
    signal waits. *)
Definition send_quit (q : option chan) : M unit :=
  fun w =>
    match q with
    | None => Blocked w
    | Some c =>
        match tasks w !! c with
        | None => Blocked w
        | Some t =>
            match t_pc t with
            | Returned => Blocked w
            | Waiting => set_pc c Returned w
            | Opened _ =>
                (listener_step c ;;; listener_step c ;;; set_pc c Returned) w
            | Redirected _ =>
                (listener_step c ;;; set_pc c Returned) w
            end
        end
    end.

(** func rotateOn(name string, sig os.Signal, loggers ...Logger) *LogRot *)
Definition rotateOn (file : string) (sig : Signal) (ls : list logger) : M ptr :=
  f <~ mustOpenFileForAppend file ;;
  q <~ make_quit ;;
  rl <~ new_LogRot (mkLogRot file (Some f) sig (Some q) ls false false) ;;
  setOutput rl ;;;
  go_listener rl sig ;;;
  ret rl.

(** func WriteTo(name string, loggers ...Logger) *LogRot *)
Definition WriteTo (file : string) (ls : list logger) : M ptr :=
  rotateOn file syscall.SIGHUP ls.

(** func WriteAllTo(name string, loggers ...Logger) *LogRot *)
Definition WriteAllTo (file : string) (ls : list logger) : M ptr :=
  lr <~ WriteTo file ls ;;
  CaptureStdout lr ;;;
  CaptureStderr lr ;;;
  ret lr.

(** func (rl *LogRot) Close().  The argument is the possibly nil
    receiver. *)
Definition Close (rl : option ptr) : M unit :=
  match rl with
  | None => ret tt
  | Some p =>
      r <~ deref p ;;
      match logFile r with
      | None => ret tt
      | Some _ =>
          send_quit (quit r) ;;;
          r' <~ deref p ;;
          file_Close (logFile r')
      end
  end.

(** ** Runs of a process

    What can happen to a process that uses the package: calls of the
    exported functions from the program, a signal arriving, a listener
    goroutine being scheduled, the file system changing under the
    process (an external rotator renaming or removing files), and the
    program allocating a zero [LogRot]. *)
Inductive op :=
| CallOpen (file : string)
| CallWriteTo (file : string) (ls : list logger)
| CallWriteAllTo (file : string) (ls : list logger)
| CallClose (rl : option ptr)
| CallCaptureStdout (p : ptr)
| CallCaptureStderr (p : ptr)
| NewZero
| Deliver (s : Signal)
| Sched (c : chan)
| FsChange (oe : string -> option string).

Definition forget {A} (m : M A) : M unit := _ <~ m ;; ret tt.

Definition step (o : op) : M unit :=
  match o with
  | CallOpen file => forget (Open file)
  | CallWriteTo file ls => forget (WriteTo file ls)
  | CallWriteAllTo file ls => forget (WriteAllTo file ls)
  | CallClose rl => Close rl
  | CallCaptureStdout p => CaptureStdout p
  | CallCaptureStderr p => CaptureStderr p
  | NewZero => forget (new_LogRot (mkLogRot "" None 0%Z None [] false false))
  | Deliver s => deliver s
  | Sched c => listener_step c
  | FsChange oe => modify (set_openErr oe)
  end.

Fixpoint run (ops : list op) : M unit :=
  match ops with
  | [] => ret tt
  | o :: ops' => step o ;;; run ops'
  end.

(** ** The earlier variants of the package (src/logrot.go)

    They have no registry, no loggers and no shutdown channel: the
    controller is a name, a file and a signal, and the goroutine ranges
    over [sigs] for ever.  The controller is passed and returned by
    value here; [on_signal] is the body of the goroutine's loop for one
    received signal. *)
Module Legacy.

Record LogRot := mkLogRot {
  name : string;
  logFile : option handle;
  signal : Signal
}.

(** func mustOpenFileForAppend(name string) *os.File *)
Definition mustOpenFileForAppend (file : string) : M handle :=
  fun w =>
    match os_OpenFile file open_flag open_perm w with
    | (inr err, w1) => log_Fatal "Error: " err w1
    | (inl f, w1) => Ok f w1
    end.

(** The body of [for s := range sigs { switch s { case rl.signal: ... } }] *)
Definition on_signal (s : Signal) (rl : LogRot) : M LogRot :=
  if (s =? signal rl)%Z then
    log_Output (MRotating s (name rl)) ;;;
    let oldLog := logFile rl in
    f <~ mustOpenFileForAppend (name rl) ;;
    let rl' := mkLogRot (name rl) (Some f) (signal rl) in
    log_SetOutput (logFile rl') ;;;
    file_Close oldLog ;;;
    ret rl'
  else ret rl.

(** func rotateOn(name string, sig os.Signal) *LogRot, first variant *)
Definition rotateOn (file : string) (sig : Signal) : M LogRot :=
  f <~ mustOpenFileForAppend file ;;
  let rl := mkLogRot file (Some f) sig in
  log_Output (MPrintln "Logging to" file) ;;;
  log_SetOutput (logFile rl) ;;;
  ret rl.

(** func WriteTo(name string) *LogRot, first variant *)
Definition WriteTo (file : string) : M LogRot :=
  rotateOn file syscall.SIGUSR1.

(** The second variant: no announcement, and SIGHUP. *)
Definition rotateOn_hup (file : string) (sig : Signal) : M LogRot :=
  f <~ mustOpenFileForAppend file ;;
  let rl := mkLogRot file (Some f) sig in
  log_SetOutput (logFile rl) ;;;
  ret rl.

Definition WriteTo_hup (file : string) : M LogRot :=
  rotateOn_hup file syscall.SIGHUP.

(** func (rl *LogRot) Close(), the same in both variants *)
Definition Close (rl : option LogRot) : M unit :=
  match rl with
  | None => ret tt
  | Some r =>
      match logFile r with
      | None => ret tt
      | Some f => file_Close (Some f)
      end
  end.

End Legacy.

(** ** Observations on worlds and traces *)

(** [d] is an [os.File] that exists and has not been closed. *)
Definition is_open (w : World) (d : option handle) : bool :=
  match d with
  | Some h => match fobjs w !! h with
              | Some f => negb (f_closed f)
              | None => false
              end
  | None => false
  end.

Definition is_closed (w : World) (h : handle) : bool :=
  match fobjs w !! h with
  | Some f => f_closed f
  | None => false
  end.

(** Where a target writes at the moment.  A logger whose output was
    never set has no known destination. *)
Definition dest (w : World) (t : target) : option handle :=
  match t with
  | TLog => log_out w
  | TLogger l => default None (logger_out w !! l)
  | TStdout => os_Stdout w
  | TStderr => os_Stderr w
  end.

(** The targets a controller redirects, in the order of [setOutput]. *)
Definition targets (rl : LogRot) : list target :=
  TLog :: map TLogger (loggers rl)
       ++ (if captureStdout rl then [TStdout] else [])
       ++ (if captureStderr rl then [TStderr] else []).

Definition targets_open (rl : LogRot) (w : World) : bool :=
  forallb (fun t => is_open w (dest w t)) (targets rl).

Definition targets_at (d : option handle) (rl : LogRot) (w : World) : Prop :=
  Forall (fun t => dest w t = d) (targets rl).

Definition setOutput_events (rl : LogRot) : list event :=
  map (fun t => EvSetOutput t (logFile rl)) (targets rl).

Definition redirect_loggers (ls : list logger) (d : option handle)
    (m : gmap logger (option handle)) : gmap logger (option handle) :=
  foldl (fun m l => <[l := d]> m) m ls.

(** The world [setOutput] leaves for a controller whose fields are [rl]. *)
Definition redirected (rl : LogRot) (w : World) : World :=
  mkWorld (files w) (fobjs w) (ctrls w) (tasks w)
          (logFile rl)
          (redirect_loggers (loggers rl) (logFile rl) (logger_out w))
          (if captureStdout rl then logFile rl else os_Stdout w)
          (if captureStderr rl then logFile rl else os_Stderr w)
          (openErr w)
          (trace w ++ setOutput_events rl).

(** The world a successful [mustOpenFileForAppend] leaves. *)
Definition reopened (file : string) (w : World) : World :=
  let f := length (fobjs w) in
  mkWorld (<[file := f]> (files w))
          (fobjs w ++ [mkFile file open_flag open_perm false])
          (ctrls w) (tasks w) (log_out w) (logger_out w)
          (os_Stdout w) (os_Stderr w) (openErr w)
          (trace w ++ [EvOpenFile file open_flag open_perm (Some f);
                       EvRegister file f]).

(** The world [file_Close d] leaves. *)
Definition closed (d : option handle) (w : World) : World :=
  emit (EvClose d)
    (set_fobjs match d with
               | Some h => alter mark_closed h (fobjs w)
               | None => fobjs w
               end w).

(** The world after the first two statements of [rotate] on a controller
    whose fields are [rl]: the reopened file is stored in the controller. *)
Definition rotate_reopened (p : ptr) (rl : LogRot) (w : World) : World :=
  let w1 := reopened (name rl) (emit (EvRotate p) w) in
  set_ctrls (<[p := with_logFile (Some (length (fobjs w))) rl]> (ctrls w1)) w1.

(** Everything of a world but its trace. *)
Definition state_of (w : World) : World := set_trace [] w.

(** The handle most recently registered under a name, from the trace. *)
Definition registers (file : string) (acc : option handle) (e : event)
  : option handle :=
  match e with
  | EvRegister n h => if bool_decide (n = file) then Some h else acc
  | _ => acc
  end.

Definition last_registered (file : string) (tr : list event) : option handle :=
  foldl (registers file) None tr.

(** Reading of the flag and permission words of an open. *)
Definition has_bits (word mask : Z) : bool := (Z.land word mask =? mask)%Z.

Definition create_append_wronly (flag : Z) : bool :=
  has_bits flag syscall.O_CREAT
  && has_bits flag syscall.O_APPEND
  && (Z.land flag 3 =? syscall.O_WRONLY)%Z
  && negb (has_bits flag syscall.O_TRUNC)
  && negb (has_bits flag syscall.O_EXCL).

Definition perm_bit (perm : Z) (i : Z) (c : string) : string :=
  if Z.testbit perm i then c else "-".

(** The nine permission bits the way [ls -l] prints them. *)
Definition perm_string (perm : Z) : string :=
  (perm_bit perm 8 "r" ++ perm_bit perm 7 "w" ++ perm_bit perm 6 "x" ++
   perm_bit perm 5 "r" ++ perm_bit perm 4 "w" ++ perm_bit perm 3 "x" ++
   perm_bit perm 2 "r" ++ perm_bit perm 1 "w" ++ perm_bit perm 0 "x")%string.

(** An open with exactly the flag and permission words the package
    writes. *)
Definition open_as_written (e : event) : bool :=
  match e with
  | EvOpenFile _ flag perm _ => (flag =? open_flag)%Z && (perm =? open_perm)%Z
  | _ => true
  end.

(** Every successful open is at once followed by the registration of its
    handle under the same name: [Some None] between opens, [Some (Some
    _)] when a registration is due, [None] once one was missed. *)
Definition reg_step (st : option (option (string * handle))) (e : event)
  : option (option (string * handle)) :=
  match st with
  | None => None
  | Some None =>
      match e with
      | EvOpenFile f _ _ (Some h) => Some (Some (f, h))
      | _ => Some None
      end
  | Some (Some (f, h)) =>
      match e with
      | EvRegister f' h' =>
          if bool_decide (f' = f) && bool_decide (h' = h) then Some None else None
      | _ => None
      end
  end.

Definition opens_registered (tr : list event) : Prop :=
  foldl reg_step (Some None) tr = Some None.

(** Rotations of one controller in a trace: [scan] follows the entries
    and returns of [rotate] for [p]; it is [Some true] while a rotation
    is in flight, [Some false] between rotations, and [None] as soon as
    a rotation begins while another is in flight or returns without
    having begun. *)
Definition scan_step (p : ptr) (st : option bool) (e : event) : option bool :=
  match st with
  | None => None
  | Some b =>
      match e with
      | EvRotate q =>
          if bool_decide (q = p) then (if b then None else Some true) else Some b
      | EvRotated q =>
          if bool_decide (q = p) then (if b then Some false else None) else Some b
      | _ => Some b
      end
  end.

Definition scan (p : ptr) (tr : list event) : option bool :=
  foldl (scan_step p) (Some false) tr.

Definition sequential (p : ptr) (tr : list event) : Prop :=
  is_Some (scan p tr).

Definition is_rotate (p : ptr) (e : event) : bool :=
  match e with EvRotate q => bool_decide (q = p) | _ => false end.

Definition is_signal (s : Signal) (e : event) : bool :=
  match e with EvSignal s' => bool_decide (s' = s) | _ => false end.

Definition count (f : event -> bool) (tr : list event) : nat :=
  length (List.filter f tr).

(** How often [rotate] was entered for [p], and how often the signal [s]
    reached the process. *)
Definition rotations (p : ptr) (tr : list event) : nat := count (is_rotate p) tr.
Definition received (s : Signal) (tr : list event) : nat := count (is_signal s) tr.

Definition in_rotate (s : pc) : bool :=
  match s with Opened _ | Redirected _ => true | _ => false end.

(** The world a successful [rotateOn file sig ls] leaves: the file is
    reopened, a controller is allocated and redirected to, and its
    listener waits at the [select]. *)
Definition started (file : string) (sig : Signal) (ls : list logger)
    (w : World) : World :=
  let rl := mkLogRot file (Some (length (fobjs w))) sig
                     (Some (length (tasks w))) ls false false in
  let w1 := reopened file w in
  let w2 := redirected rl (set_ctrls (ctrls w1 ++ [rl]) w1) in
  set_tasks (tasks w2 ++ [mkTask (length (ctrls w)) sig [] Waiting]) w2.

(** The trace grew by events that satisfy [P]. *)
Definition appends (P : event -> bool) (w w' : World) : Prop :=
  exists evs : list event,
    trace w' = (trace w ++ evs)%list /\ forallb P evs = true.

(** The registry agrees with the registrations recorded in the trace. *)
Definition registry_sound (w : World) : Prop :=
  forall file, files w !! file = last_registered file (trace w).

Definition registry_inv (w : World) : Prop :=
  registry_sound w /\ opens_registered (trace w).

Definition registry_kept (w w' : World) : Prop :=
  registry_inv w -> registry_inv w'.

(** Controllers stay where they are; only their file changes, and their
    capture flags are never cleared. *)
Definition ctrl_evolves (w w' : World) : Prop :=
  forall p rl, ctrls w !! p = Some rl ->
    exists rl', ctrls w' !! p = Some rl'
      /\ name rl' = name rl
      /\ signal rl' = signal rl
      /\ quit rl' = quit rl
      /\ loggers rl' = loggers rl
      /\ (captureStdout rl = true -> captureStdout rl' = true)
      /\ (captureStderr rl = true -> captureStderr rl' = true).

(** Events that are neither the entry nor the return of a rotation nor
    the arrival of a signal. *)
Definition quiet (e : event) : bool :=
  match e with
  | EvRotate _ | EvRotated _ | EvSignal _ => false
  | _ => true
  end.

(** Events that concern no rotation but those of [p], and no signal. *)
Definition only_for (p : ptr) (e : event) : bool :=
  match e with
  | EvRotate q | EvRotated q => bool_decide (q = p)
  | EvSignal _ => false
  | _ => true
  end.

(** No file object disappears, and every controller has the file it had
    (a new controller has none). *)
Definition files_kept (w w' : World) : Prop :=
  length (fobjs w) <= length (fobjs w')
  /\ forall p rl, ctrls w' !! p = Some rl ->
       logFile rl = None
       \/ exists rl0, ctrls w !! p = Some rl0 /\ logFile rl0 = logFile rl.

(** Every controller's file is an allocated [os.File]. *)
Definition handles_valid (w : World) : Prop :=
  forall p rl h, ctrls w !! p = Some rl -> logFile rl = Some h ->
    h < length (fobjs w).

(** A step of the program that moves no listener and gives no
    controller a file. *)
Definition quiet_step (w w' : World) : Prop :=
  tasks w' = tasks w /\ appends quiet w w' /\ ctrl_evolves w w'
  /\ files_kept w w'.

(** How the listeners, the controllers and the trace hang together:
    the trace shows a rotation of a controller in flight exactly when
    its listener is inside [rotate]; no two listeners serve one
    controller; a listener is notified of its controller's signal; a
    controller without listener never rotates; and a listener has begun
    no more rotations than signals were relayed to it, less those still
    waiting in its channel; a channel holds no more signals than its
    capacity; and the file of a controller is an allocated [os.File]. *)
Record tasks_inv (w : World) : Prop := mk_tasks_inv {
  inv_scan : forall c t, tasks w !! c = Some t ->
    scan (t_rl t) (trace w) = Some (in_rotate (t_pc t));
  inv_owner : forall c c' t t', tasks w !! c = Some t ->
    tasks w !! c' = Some t' -> t_rl t = t_rl t' -> c = c';
  inv_ctrl : forall c t, tasks w !! c = Some t ->
    exists rl, ctrls w !! t_rl t = Some rl /\ signal rl = t_notify t;
  inv_idle : forall p, (forall c t, tasks w !! c = Some t -> t_rl t <> p) ->
    scan p (trace w) = Some false /\ rotations p (trace w) = 0;
  inv_count : forall c t, tasks w !! c = Some t ->
    rotations (t_rl t) (trace w) + length (t_sigs t)
    <= received (t_notify t) (trace w);
  inv_cap : forall c t, tasks w !! c = Some t ->
    length (t_sigs t) <= sigs_cap;
  inv_file : handles_valid w
}.

(** ** Example processes *)

Definition no_errors : string -> option string := fun _ => None.

Definition denied : string -> option string :=
  fun _ => Some "permission denied".

(** A process that has called [WriteTo("app.log", l7)]. *)
Definition app_started : World :=
  started "app.log" syscall.SIGHUP [7] (init no_errors).

Definition app_rl : LogRot :=
  mkLogRot "app.log" (Some 3) syscall.SIGHUP (Some 0) [7] false false.

(** One signal, and the listener scheduled until the rotation is done. *)
Definition one_rotation : list op :=
  [CallWriteTo "app.log" [7]; Deliver syscall.SIGHUP;
   Sched 0; Sched 0; Sched 0].

(** Three signals before the listener is scheduled; then the listener
    runs until it has nothing left to do. *)
Definition burst : list op :=
  [CallWriteTo "app.log" [7];
   Deliver syscall.SIGHUP; Deliver syscall.SIGHUP; Deliver syscall.SIGHUP;
   Sched 0; Sched 0; Sched 0; Sched 0; Sched 0; Sched 0; Sched 0; Sched 0;
   Sched 0].

(** ** Further observations *)

(** How many [os.File] objects are open. *)
Definition open_count (w : World) : nat :=
  length (List.filter (fun f => negb (f_closed f)) (fobjs w)).

(** Every signal waiting in a listener's channel is the signal the
    channel was registered for. *)
Definition signals_match (w : World) : Prop :=
  forall c t, tasks w !! c = Some t ->
    Forall (fun s => s = t_notify t) (t_sigs t).

(** Whether the runtime's send of [o] puts a signal in the channel of
    the listener [c]: it does when [o] is the arrival of the signal the
    channel is registered for and the channel has room (the test of
    [relay]); a signal that finds the channel full is dropped, and every
    other event of a run puts nothing in it. *)
Definition queued (c : chan) (o : op) (w : World) : nat :=
  match o with
  | Deliver s =>
      match tasks w !! c with
      | Some t =>
          if bool_decide (t_notify t = s)
             && Nat.ltb (length (t_sigs t)) sigs_cap
          then 1 else 0
      | None => 0
      end
  | _ => 0
  end.

(** How many signals were put in the channel of the listener [c] in the
    course of the run [ops] from [w]. *)
Fixpoint accepted (c : chan) (ops : list op) (w : World) : nat :=
  match ops with
  | [] => 0
  | o :: ops' => queued c o w + accepted c ops' (world_of (step o w))
  end.

(** The rotations the listener [c] has begun and the signals that wait
    in its channel. *)
Definition backlog (c : chan) (w : World) : nat :=
  match tasks w !! c with
  | Some t => rotations (t_rl t) (trace w) + length (t_sigs t)
  | None => 0
  end.

(** The listener [c] has begun a rotation for each of the [n] signals
    put in its channel, but for those that still wait there. *)
Definition accounted (c : chan) (n : nat) (w : World) : Prop :=
  tasks_inv w /\ signals_match w /\ backlog c w = n.

(** Three signals, each after the listener has served the one before. *)
Definition spaced : list op :=
  [CallWriteTo "app.log" [7];
   Deliver syscall.SIGHUP; Sched 0; Sched 0; Sched 0;
   Deliver syscall.SIGHUP; Sched 0; Sched 0; Sched 0;
   Deliver syscall.SIGHUP; Sched 0; Sched 0; Sched 0].

(** Every listener of the controller [p] has returned. *)
Definition dead (p : ptr) (w : World) : Prop :=
  forall c t, tasks w !! c = Some t -> t_rl t = p -> t_pc t = Returned.

(** The controller [p] holds the file [f], its listeners have returned,
    and it has rotated [n] times. *)
Definition stopped (n : nat) (f : handle) (p : ptr) (w : World) : Prop :=
  (logFile <$> ctrls w !! p) = Some (Some f)
  /\ dead p w
  /\ rotations p (trace w) = n.

(** The [quit] channel of a controller is the one its own listener
    receives from. *)
Definition links (w : World) : Prop :=
  forall p rl c, ctrls w !! p = Some rl -> quit rl = Some c ->
    exists t, tasks w !! c = Some t /\ t_rl t = p.

Definition links_kept (w w' : World) : Prop := links w -> links w'.

(** No controller is allocated. *)
Definition same_ctrl_count (w w' : World) : Prop :=
  length (ctrls w') = length (ctrls w).

(** Every controller keeps its file. *)
Definition logs_kept (w w' : World) : Prop :=
  forall p rl, ctrls w !! p = Some rl ->
    exists rl', ctrls w' !! p = Some rl' /\ logFile rl' = logFile rl.

(** A file that is closed stays closed. *)
Definition closed_kept (w w' : World) : Prop :=
  forall h, is_closed w h = true -> is_closed w' h = true.

(** Every listener is notified of SIGHUP. *)
Definition hup_only (w : World) : Prop :=
  forall c t, tasks w !! c = Some t -> t_notify t = syscall.SIGHUP.

(** No listener but [c] moves. *)
Definition others_rest (c : chan) (w w' : World) : Prop :=
  forall c', c' <> c -> tasks w' !! c' = tasks w !! c'.

(** The current file of the controller [p] is [h]. *)
Definition cur (w : World) (p : ptr) (h : handle) : Prop :=
  exists rl, ctrls w !! p = Some rl /\ logFile rl = Some h.

(** [t] is among the targets the controller [p] redirects. *)
Definition tgt (w : World) (p : ptr) (t : target) : Prop :=
  exists rl, ctrls w !! p = Some rl /\ t ∈ targets rl.

(** A listener of the controller [p] stands at [s]. *)
Definition rotating (w : World) (p : ptr) (s : pc) : Prop :=
  exists c tk, tasks w !! c = Some tk /\ t_rl tk = p /\ t_pc tk = s.

(** What keeps every output on an open file while rotations of several
    controllers interleave: the current file of every controller is
    open and is its own; the old file of a rotation in flight is no
    controller's current file; a listener has a controller with a file;
    every destination is an open file and the standard logger has one;
    whatever writes to the current file of a controller, or to the old
    file of a rotation that has not redirected yet, is a target of that
    controller; and nothing writes to the old file of a rotation that
    has redirected. *)
Record safe (w : World) : Prop := mk_safe {
  s_cur_open : forall p h, cur w p h -> is_open w (Some h) = true;
  s_cur_inj : forall p q h, cur w p h -> cur w q h -> p = q;
  s_old : forall p o,
    rotating w p (Opened (Some o)) \/ rotating w p (Redirected (Some o)) ->
    o < length (fobjs w) /\ forall q, ~ cur w q o;
  s_task_cur : forall p s, rotating w p s -> exists h, cur w p h;
  s_dest_open : forall t d, dest w t = Some d -> is_open w (Some d) = true;
  s_log : log_out w <> None;
  s_dest_cur : forall p h t, cur w p h -> dest w t = Some h -> tgt w p t;
  s_dest_old : forall p o t,
    rotating w p (Opened (Some o)) -> dest w t = Some o -> tgt w p t;
  s_dest_red : forall p o t,
    rotating w p (Redirected (Some o)) -> dest w t <> Some o
}.

(** Anything but a call of [Close]. *)
Definition no_close (o : op) : bool :=
  match o with CallClose _ => false | _ => true end.

(** A call that neither closes a controller nor captures a stream. *)
Definition plain_op (o : op) : bool :=
  match o with
  | CallClose _ | CallWriteAllTo _ _ | CallCaptureStdout _
  | CallCaptureStderr _ => false
  | _ => true
  end.

(** Two controllers on two files that share a logger, their signal, and
    the slices of their listeners interleaved. *)
Definition two_controllers : list op :=
  [CallWriteTo "a.log" [7]; CallWriteTo "b.log" [7; 8];
   Deliver syscall.SIGHUP;
   Sched 0; Sched 1; CallOpen "a.log"; Sched 0; Sched 1; Sched 0; Sched 1].

(** A process in which "app.log" was opened through [Open] before any
    controller was started on it. *)
Definition app_opened : World := reopened "app.log" (init no_errors).

(** A controller is started and its signal arrives. *)
Definition signalled : list op :=
  [CallWriteTo "app.log" [7]; Deliver syscall.SIGHUP].

(** The listener has taken the signal and reopened the file; the
    rotation is in flight. *)
Definition in_flight : list op :=
  [CallWriteTo "app.log" [7]; Deliver syscall.SIGHUP; Sched 0].

(** What a process may go through after a [Close]: the signal arrives
    and the listener is scheduled. *)
Definition after_close : list op :=
  [Deliver syscall.SIGHUP; Sched 0; Sched 0].

(** A process that has called [WriteTo("app.log")] of the first earlier
    variant. *)
Definition legacy_started : World :=
  world_of (Legacy.WriteTo "app.log" (init no_errors)).

(** ** Relational reasoning on the monad *)

(** Every outcome of [m] leaves a world related to the one it began in. *)
Definition rel (R : World -> World -> Prop) {A} (m : M A) : Prop :=
  forall w, R w (world_of (m w)).

(** [m] keeps [I] whenever it returns. *)
Definition keeps (I : World -> Prop) {A} (m : M A) : Prop :=
  forall w a w', I w -> m w = Ok a w' -> I w'.

(** ** Basic facts *)

(** Two worlds with the same fields are the same world. *)
Lemma world_ext (a b : World) :
  files a = files b -> fobjs a = fobjs b -> ctrls a = ctrls b ->
  tasks a = tasks b -> log_out a = log_out b ->
  logger_out a = logger_out b -> os_Stdout a = os_Stdout b ->
  os_Stderr a = os_Stderr b -> openErr a = openErr b ->
  trace a = trace b -> a = b.
Proof. destruct a, b. cbn. intros. congruence. Qed.

(** Reduce the field reads of updated worlds. *)
Ltac wsimpl :=
  cbn
    [started rotate_reopened closed reopened redirected state_of emit
     set_files set_fobjs set_ctrls set_tasks set_log_out set_logger_out
     set_Stdout set_Stderr set_openErr set_trace
     files fobjs ctrls tasks log_out logger_out os_Stdout os_Stderr
     openErr trace world_of] in *.

Lemma mustOpenFileForAppend_ok file w :
  openErr w file = None ->
  mustOpenFileForAppend file w = Ok (length (fobjs w)) (reopened file w).
Proof.
  intros H. unfold mustOpenFileForAppend, os_OpenFile. rewrite H.
  f_equal. apply world_ext; wsimpl; try reflexivity.
  rewrite <- app_assoc. reflexivity.
Qed.

Lemma mustOpenFileForAppend_err file w e :
  openErr w file = Some e ->
  mustOpenFileForAppend file w =
  Exit 1 (emit (EvLog (log_out w) (MFatalf "error: " e))
            (emit (EvOpenFile file open_flag open_perm None) w)).
Proof.
  intros H. unfold mustOpenFileForAppend, os_OpenFile. rewrite H. reflexivity.
Qed.

Lemma for_range_SetOutput ls d w :
  for_range ls (fun l => Logger_SetOutput l d) w =
  Ok tt (set_trace (trace w ++ map (fun l => EvSetOutput (TLogger l) d) ls)
           (set_logger_out (redirect_loggers ls d (logger_out w)) w)).
Proof.
  revert w. induction ls as [|l ls IH]; intros w.
  - cbn. f_equal. apply world_ext; wsimpl; try reflexivity.
    rewrite app_nil_r. reflexivity.
  - cbn [for_range]. unfold bind at 1. unfold Logger_SetOutput at 1, modify.
    rewrite IH. f_equal. apply world_ext; wsimpl; try reflexivity.
    rewrite <- app_assoc. reflexivity.
Qed.

Lemma setOutput_eq p rl w :
  ctrls w !! p = Some rl ->
  setOutput p w = Ok tt (redirected rl w).
Proof.
  intros H. unfold setOutput, bind, deref. rewrite H.
  unfold log_SetOutput, modify. rewrite for_range_SetOutput.
  unfold setOutput_events, targets, assign_Stdout, assign_Stderr, modify, ret.
  destruct (captureStdout rl) eqn:Eo, (captureStderr rl) eqn:Ee;
    f_equal; apply world_ext; wsimpl; unfold setOutput_events, targets;
    rewrite ?Eo, ?Ee; try reflexivity;
    cbn [map]; rewrite ?List.map_app, ?List.map_map; cbn [map app];
    rewrite <- ?app_assoc; cbn [map app]; rewrite ?app_nil_r; reflexivity.
Qed.

Lemma update_eq p f rl w :
  ctrls w !! p = Some rl ->
  update p f w = Ok tt (set_ctrls (<[p := f rl]> (ctrls w)) w).
Proof. intros H. unfold update, bind, deref. rewrite H. reflexivity. Qed.

Lemma file_Close_eq d w : file_Close d w = Ok tt (closed d w).
Proof. reflexivity. Qed.

Lemma lookup_ctrl_insert p (rl rl' : LogRot) (cs : list LogRot) :
  cs !! p = Some rl -> <[p := rl']> cs !! p = Some rl'.
Proof.
  intros H. apply list_lookup_insert_eq. eapply lookup_lt_Some, H.
Qed.

Lemma rotate_eq p rl w :
  ctrls w !! p = Some rl ->
  openErr w (name rl) = None ->
  rotate p w =
  Ok tt (emit (EvRotated p)
           (closed (logFile rl)
              (redirected (with_logFile (Some (length (fobjs w))) rl)
                 (rotate_reopened p rl w)))).
Proof.
  intros Hp Ho. unfold rotate.
  unfold bind at 1. unfold modify at 1.
  unfold bind at 1. unfold deref at 1. cbn [ctrls emit set_trace]. rewrite Hp.
  unfold bind at 1. rewrite mustOpenFileForAppend_ok by exact Ho.
  unfold bind at 1. erewrite update_eq by (cbn; exact Hp).
  unfold bind at 1. erewrite setOutput_eq
    by (cbn [ctrls set_ctrls reopened]; eapply lookup_ctrl_insert, Hp).
  unfold bind at 1. rewrite file_Close_eq.
  unfold modify. reflexivity.
Qed.

(** *** Loggers after a redirection *)

Lemma redirect_loggers_in ls d (m : gmap logger (option handle)) l :
  l ∈ ls -> redirect_loggers ls d m !! l = Some d.
Proof.
  unfold redirect_loggers. revert m.
  induction ls as [|x ls IH] using rev_ind; intros m Hin.
  - inversion Hin.
  - rewrite foldl_snoc. apply elem_of_app in Hin as [Hin|Hin].
    + destruct (decide (x = l)) as [->|Hne].
      * apply lookup_insert_eq.
      * rewrite lookup_insert_ne by exact Hne. apply IH, Hin.
    + apply list_elem_of_singleton in Hin as ->. apply lookup_insert_eq.
Qed.

Lemma redirect_loggers_notin ls d (m : gmap logger (option handle)) l :
  l ∉ ls -> redirect_loggers ls d m !! l = m !! l.
Proof.
  unfold redirect_loggers. revert m.
  induction ls as [|x ls IH]; intros m Hnin; [reflexivity|].
  cbn [foldl]. rewrite IH by (intros H; apply Hnin; right; exact H).
  apply lookup_insert_ne. intros ->. apply Hnin. left.
Qed.

Lemma redirected_targets_at rl w :
  targets_at (logFile rl) rl (redirected rl w).
Proof.
  unfold targets_at, targets. apply Forall_cons. split; [reflexivity|].
  apply Forall_app. split.
  - apply Forall_forall. intros t Ht.
    apply list_elem_of_fmap in Ht as (l & -> & Hl).
    cbn. rewrite redirect_loggers_in by exact Hl. reflexivity.
  - apply Forall_app. split.
    + destruct (captureStdout rl) eqn:E; [|constructor].
      repeat constructor. cbn. rewrite E. reflexivity.
    + destruct (captureStderr rl) eqn:E; [|constructor].
      repeat constructor. cbn. rewrite E. reflexivity.
Qed.

(** *** What stays open *)

Lemma is_open_fobjs w w' d :
  fobjs w' = fobjs w -> is_open w' d = is_open w d.
Proof. intros H. unfold is_open. rewrite H. reflexivity. Qed.

Lemma is_open_grow w w' d (x : File) :
  fobjs w' = (fobjs w ++ [x])%list -> is_open w d = true -> is_open w' d = true.
Proof.
  intros H. unfold is_open. rewrite H. destruct d as [h|]; [|done].
  destruct (fobjs w !! h) as [f|] eqn:E; [|done].
  rewrite (lookup_app_l_Some _ _ _ _ E). done.
Qed.

Lemma is_open_fresh w w' file :
  fobjs w' = (fobjs w ++ [mkFile file open_flag open_perm false])%list ->
  is_open w' (Some (length (fobjs w))) = true.
Proof.
  intros H. unfold is_open. rewrite H, list_lookup_middle by reflexivity.
  reflexivity.
Qed.

Lemma is_open_closed_other d h w :
  d <> Some h -> is_open (closed d w) (Some h) = is_open w (Some h).
Proof.
  intros Hne. destruct d as [o|]; [|reflexivity].
  unfold is_open, closed. wsimpl.
  rewrite list_lookup_alter_ne by congruence. reflexivity.
Qed.

Lemma is_open_closed_self d w : is_open (closed d w) d = false.
Proof.
  destruct d as [o|]; [|reflexivity].
  unfold is_open, closed. wsimpl. rewrite list_lookup_alter_eq.
  destruct (fobjs w !! o); reflexivity.
Qed.

Lemma dest_closed d w t : dest (closed d w) t = dest w t.
Proof. destruct d, t; reflexivity. Qed.

Lemma targets_at_closed d d' rl w :
  targets_at d' rl w -> targets_at d' rl (closed d w).
Proof.
  unfold targets_at. intros H. eapply Forall_impl; [exact H|].
  intros t Ht. cbn beta. rewrite dest_closed. exact Ht.
Qed.

Lemma targets_open_at d rl w :
  targets_at d rl w -> is_open w d = true -> targets_open rl w = true.
Proof.
  intros Hat Hd. unfold targets_open. apply forallb_forall.
  intros t Ht. unfold targets_at in Hat. rewrite Forall_forall in Hat.
  rewrite (Hat t) by (apply list_elem_of_In; exact Ht). exact Hd.
Qed.

Lemma targets_open_same rl w w' :
  (forall t, dest w' t = dest w t) ->
  (forall d, is_open w d = true -> is_open w' d = true) ->
  targets_open rl w = true -> targets_open rl w' = true.
Proof.
  intros Hd Ho. unfold targets_open. rewrite !forallb_forall.
  intros H t Ht. rewrite Hd. apply Ho, H, Ht.
Qed.

(** ** The order of a rotation *)

Lemma targets_with_logFile f rl : targets (with_logFile f rl) = targets rl.
Proof. reflexivity. Qed.

(** C1.  A rotation whose reopen succeeds runs three steps in this
    order: it opens a brand-new handle for the controller's name and
    stores it, it redirects every target of the controller to the new
    handle, and only then it closes the previous handle.  After the
    first step nothing has been redirected or closed; after the second
    every target writes to the new, open handle and nothing has been
    closed yet; the third closes the previous handle and nothing else.
    So targets that wrote to open files when the rotation began write to
    open files after each step.  (That the controller's file is an
    allocated [os.File] holds in every run, see [run_handles_valid].) *)
Theorem rotate_switches_before_closing (p : ptr) (rl : LogRot) (w : World) :
  ctrls w !! p = Some rl ->
  openErr w (name rl) = None ->
  (forall old, logFile rl = Some old -> old < length (fobjs w)) ->
  let f := length (fobjs w) in
  let w1 := rotate_reopened p rl w in
  let w2 := redirected (with_logFile (Some f) rl) w1 in
  let w3 := closed (logFile rl) w2 in
  (* the three steps, in this order *)
  (modify (emit (EvRotate p)) ;;;
   r <~ deref p ;;
   h <~ mustOpenFileForAppend (name r) ;;
   update p (with_logFile (Some h))) w = Ok tt w1
  /\ setOutput p w1 = Ok tt w2
  /\ file_Close (logFile rl) w2 = Ok tt w3
  /\ rotate p w = Ok tt (emit (EvRotated p) w3)
  /\ trace (emit (EvRotated p) w3) =
       trace w
       ++ [EvRotate p;
           EvOpenFile (name rl) open_flag open_perm (Some f);
           EvRegister (name rl) f]
       ++ map (fun t => EvSetOutput t (Some f)) (targets rl)
       ++ [EvClose (logFile rl); EvRotated p]
  (* after the reopen *)
  /\ fobjs w !! f = None
  /\ is_open w1 (Some f) = true
  /\ (forall t, dest w1 t = dest w t)
  /\ (forall d, is_open w d = true -> is_open w1 d = true)
  (* after the redirection *)
  /\ targets_at (Some f) rl w2
  /\ is_open w2 (Some f) = true
  /\ (forall d, is_open w d = true -> is_open w2 d = true)
  (* after the close *)
  /\ targets_at (Some f) rl w3
  /\ is_open w3 (Some f) = true
  /\ is_open w3 (logFile rl) = false
  /\ (forall h, logFile rl <> Some h -> is_open w3 (Some h) = is_open w2 (Some h))
  (* hence *)
  /\ (targets_open rl w = true ->
      targets_open rl w1 = true /\ targets_open rl w2 = true
      /\ targets_open rl w3 = true).
Proof.
  intros Hp Ho Hold f w1 w2 w3.
  assert (Hne : logFile rl <> Some f).
  { intros E. apply Hold in E. unfold f in E. lia. }
  assert (Hgrow : fobjs w1 = fobjs w ++ [mkFile (name rl) open_flag open_perm false])
    by reflexivity.
  assert (H1f : is_open w1 (Some f) = true) by (eapply is_open_fresh, Hgrow).
  assert (H1o : forall d, is_open w d = true -> is_open w1 d = true)
    by (intros d; eapply is_open_grow, Hgrow).
  assert (H2o : forall d, is_open w2 d = is_open w1 d)
    by (intros d; apply is_open_fobjs; reflexivity).
  assert (H2at : targets_at (Some f) rl w2).
  { pose proof (redirected_targets_at (with_logFile (Some f) rl) w1) as H.
    exact H. }
  assert (H3f : is_open w3 (Some f) = true).
  { unfold w3. rewrite is_open_closed_other by exact Hne.
    rewrite H2o. exact H1f. }
  assert (H3at : targets_at (Some f) rl w3)
    by (apply targets_at_closed, H2at).
  assert (Hp1 : ctrls w1 !! p = Some (with_logFile (Some f) rl))
    by (eapply lookup_ctrl_insert, Hp).
  repeat split.
  - unfold bind at 1. unfold modify at 1.
    unfold bind at 1. unfold deref at 1. cbn [ctrls emit set_trace]. rewrite Hp.
    unfold bind at 1. rewrite mustOpenFileForAppend_ok by exact Ho.
    erewrite update_eq by (cbn; exact Hp). reflexivity.
  - apply setOutput_eq, Hp1.
  - apply rotate_eq; assumption.
  - unfold w3, w2, w1, setOutput_events. wsimpl. cbn [logFile with_logFile].
    rewrite ?targets_with_logFile. rewrite <- !app_assoc. reflexivity.
  - apply lookup_ge_None. unfold f. lia.
  - exact H1f.
  - exact H1o.
  - exact H2at.
  - rewrite H2o. exact H1f.
  - intros d Hd. rewrite H2o. apply H1o, Hd.
  - exact H3at.
  - exact H3f.
  - apply is_open_closed_self.
  - intros h Hh. apply is_open_closed_other, Hh.
  - eapply targets_open_same; [| exact H1o | eassumption]. reflexivity.
  - eapply targets_open_at; [exact H2at|]. rewrite H2o. exact H1f.
  - eapply targets_open_at; [exact H3at | exact H3f].
Qed.

(** ** Redirection twice *)

Lemma redirect_loggers_twice ls d (m : gmap logger (option handle)) :
  redirect_loggers ls d (redirect_loggers ls d m) = redirect_loggers ls d m.
Proof.
  apply map_eq. intros l. destruct (decide (l ∈ ls)) as [Hin|Hnin].
  - rewrite !redirect_loggers_in by exact Hin. reflexivity.
  - rewrite redirect_loggers_notin by exact Hnin. reflexivity.
Qed.

Lemma redirected_twice rl w :
  state_of (redirected rl (redirected rl w)) = state_of (redirected rl w).
Proof.
  unfold state_of, redirected, set_trace.
  cbn [files fobjs ctrls tasks log_out logger_out os_Stdout os_Stderr openErr].
  rewrite redirect_loggers_twice.
  destruct (captureStdout rl), (captureStderr rl); reflexivity.
Qed.

(** C6.  Applying [setOutput] twice in a row to a controller leaves the
    standard logger, every logger, [os.Stdout] and [os.Stderr], and the
    rest of the process state, exactly as applying it once does; only
    the record of effects grows. *)
Theorem setOutput_idempotent (p : ptr) (rl : LogRot) (w : World) :
  ctrls w !! p = Some rl ->
  exists w1 w2,
    setOutput p w = Ok tt w1
    /\ setOutput p w1 = Ok tt w2
    /\ state_of w2 = state_of w1
    /\ (forall t, dest w2 t = dest w1 t)
    /\ targets_at (logFile rl) rl w1
    /\ targets_at (logFile rl) rl w2.
Proof.
  intros Hp. exists (redirected rl w), (redirected rl (redirected rl w)).
  assert (E := redirected_twice rl w).
  split; [apply setOutput_eq, Hp|].
  split; [apply setOutput_eq, Hp|].
  split; [exact E|].
  split; [|split; apply redirected_targets_at].
  intros t.
  assert (Hd : forall a b, state_of a = state_of b -> dest a t = dest b t).
  { intros a b Hab. unfold state_of, set_trace in Hab.
    destruct t; cbn; congruence. }
  apply Hd, E.
Qed.

(** ** What a rotation leaves alone *)

Lemma rotate_err p rl e w :
  ctrls w !! p = Some rl ->
  openErr w (name rl) = Some e ->
  rotate p w =
  Exit 1 (emit (EvLog (log_out w) (MFatalf "error: " e))
            (emit (EvOpenFile (name rl) open_flag open_perm None)
               (emit (EvRotate p) w))).
Proof.
  intros Hp Ho. unfold rotate.
  unfold bind at 1. unfold modify at 1.
  unfold bind at 1. unfold deref at 1. cbn [ctrls emit set_trace]. rewrite Hp.
  unfold bind at 1.
  erewrite mustOpenFileForAppend_err by (cbn; exact Ho). reflexivity.
Qed.

(** C9.  A rotation that returns has replaced the [logFile] field of its
    controller by the handle it opened and has left the controller's
    name, signal, shutdown channel, loggers and capture flags, every
    other controller, and the listener goroutines as they were. *)
Theorem rotate_replaces_only_logFile (p : ptr) (rl : LogRot) (w w' : World) :
  ctrls w !! p = Some rl ->
  rotate p w = Ok tt w' ->
  exists rl',
    ctrls w' !! p = Some rl'
    /\ logFile rl' = Some (length (fobjs w))
    /\ name rl' = name rl
    /\ signal rl' = signal rl
    /\ quit rl' = quit rl
    /\ loggers rl' = loggers rl
    /\ captureStdout rl' = captureStdout rl
    /\ captureStderr rl' = captureStderr rl
    /\ ctrls w' = <[p := with_logFile (Some (length (fobjs w))) rl]> (ctrls w)
    /\ (forall q, q <> p -> ctrls w' !! q = ctrls w !! q)
    /\ tasks w' = tasks w.
Proof.
  intros Hp Hr. destruct (openErr w (name rl)) as [e|] eqn:Ho.
  - rewrite (rotate_err p rl e) in Hr by assumption. discriminate.
  - rewrite (rotate_eq p rl) in Hr by assumption.
    injection Hr as <-.
    exists (with_logFile (Some (length (fobjs w))) rl).
    split; [eapply lookup_ctrl_insert, Hp|].
    repeat split.
    intros q Hq. apply list_lookup_insert_ne. congruence.
Qed.

(** ** Failure to open *)

Lemma rotateOn_err file sig ls e w :
  openErr w file = Some e ->
  rotateOn file sig ls w =
  Exit 1 (emit (EvLog (log_out w) (MFatalf "error: " e))
            (emit (EvOpenFile file open_flag open_perm None) w)).
Proof.
  intros Ho. unfold rotateOn. unfold bind at 1.
  rewrite (mustOpenFileForAppend_err _ _ _ Ho). reflexivity.
Qed.

Lemma Legacy_mustOpenFileForAppend_err file e w :
  openErr w file = Some e ->
  Legacy.mustOpenFileForAppend file w =
  Exit 1 (emit (EvLog (log_out w) (MFatal "Error: " e))
            (emit (EvOpenFile file open_flag open_perm None) w)).
Proof.
  intros H. unfold Legacy.mustOpenFileForAppend, os_OpenFile. rewrite H.
  reflexivity.
Qed.

Lemma Legacy_mustOpenFileForAppend_ok file w :
  openErr w file = None ->
  Legacy.mustOpenFileForAppend file w =
  Ok (length (fobjs w))
     (emit (EvOpenFile file open_flag open_perm (Some (length (fobjs w))))
        (set_fobjs (fobjs w ++ [mkFile file open_flag open_perm false]) w)).
Proof.
  intros H. unfold Legacy.mustOpenFileForAppend, os_OpenFile. rewrite H.
  reflexivity.
Qed.

Lemma listener_step_err c t rl q e w :
  tasks w !! c = Some t ->
  t_pc t = Waiting ->
  t_sigs t = signal rl :: q ->
  ctrls w !! t_rl t = Some rl ->
  openErr w (name rl) = Some e ->
  exists w', listener_step c w = Exit 1 w'
             /\ last (trace w') = Some (EvLog (log_out w) (MFatalf "error: " e)).
Proof.
  intros Ht Hpc Hs Hrl Ho. unfold listener_step. rewrite Ht, Hpc, Hs.
  unfold bind at 1. unfold set_sigs at 1, modify at 1.
  unfold bind at 1. unfold deref at 1. cbn [ctrls set_tasks]. rewrite Hrl.
  rewrite Z.eqb_refl.
  unfold bind at 1. unfold log_Output at 1, modify at 1.
  unfold bind at 1. unfold modify at 1.
  unfold bind at 1.
  erewrite mustOpenFileForAppend_err by (cbn; exact Ho).
  eexists. split; [reflexivity|].
  wsimpl. rewrite last_snoc. reflexivity.
Qed.

(** C4.  When [os.OpenFile] fails on the log file, the open helper of
    every variant prints a diagnostic that carries the error to the
    standard logger and stops the process with exit status 1; so do
    [Open] on an unregistered name, [rotateOn], [WriteTo], [WriteAllTo],
    [rotate] and the listener goroutine.  When it does not fail, the
    helper returns a handle of a file that exists and is open.  The
    helper has no other outcome: it never hands a nil or a closed file
    to its caller. *)
Theorem open_failure_is_fatal (file : string) (w : World) :
  match openErr w file with
  | Some e =>
      let w' := emit (EvLog (log_out w) (MFatalf "error: " e))
                  (emit (EvOpenFile file open_flag open_perm None) w) in
      mustOpenFileForAppend file w = Exit 1 w'
      /\ (files w !! file = None -> Open file w = Exit 1 w')
      /\ (forall sig ls, rotateOn file sig ls w = Exit 1 w')
      /\ (forall ls, WriteTo file ls w = Exit 1 w')
      /\ (forall ls, WriteAllTo file ls w = Exit 1 w')
      /\ (forall p rl, ctrls w !! p = Some rl -> name rl = file ->
            exists w'', rotate p w = Exit 1 w''
              /\ last (trace w'') = Some (EvLog (log_out w) (MFatalf "error: " e)))
      /\ (forall c t rl q, tasks w !! c = Some t -> t_pc t = Waiting ->
            t_sigs t = signal rl :: q -> ctrls w !! t_rl t = Some rl ->
            name rl = file ->
            exists w'', listener_step c w = Exit 1 w''
              /\ last (trace w'') = Some (EvLog (log_out w) (MFatalf "error: " e)))
      /\ Legacy.mustOpenFileForAppend file w =
           Exit 1 (emit (EvLog (log_out w) (MFatal "Error: " e))
                     (emit (EvOpenFile file open_flag open_perm None) w))
  | None =>
      mustOpenFileForAppend file w = Ok (length (fobjs w)) (reopened file w)
      /\ fobjs (reopened file w) !! length (fobjs w)
         = Some (mkFile file open_flag open_perm false)
      /\ (exists w', Legacy.mustOpenFileForAppend file w = Ok (length (fobjs w)) w'
                     /\ is_open w' (Some (length (fobjs w))) = true)
  end
  /\ (forall h w', mustOpenFileForAppend file w = Ok h w' ->
        is_open w' (Some h) = true)
  /\ (forall h w', Legacy.mustOpenFileForAppend file w = Ok h w' ->
        is_open w' (Some h) = true).
Proof.
  destruct (openErr w file) as [e|] eqn:Ho.
  - split; [|split].
    + cbv zeta. split; [apply mustOpenFileForAppend_err, Ho|].
      split.
      { intros Hf. unfold Open. rewrite Hf.
        apply mustOpenFileForAppend_err, Ho. }
      split; [intros; apply rotateOn_err, Ho|].
      split; [intros; apply rotateOn_err, Ho|].
      split.
      { intros ls. unfold WriteAllTo, WriteTo. unfold bind at 1.
        rewrite (rotateOn_err _ _ _ _ _ Ho). reflexivity. }
      split.
      { intros p rl Hp <-. rewrite (rotate_err p rl e) by assumption.
        eexists. split; [reflexivity|]. wsimpl. rewrite last_snoc.
        reflexivity. }
      split.
      { intros c t rl q Ht Hpc Hs Hrl <-.
        eapply listener_step_err; eassumption. }
      apply Legacy_mustOpenFileForAppend_err, Ho.
    + intros h w' H. rewrite (mustOpenFileForAppend_err _ _ _ Ho) in H.
      discriminate.
    + intros h w' H. rewrite (Legacy_mustOpenFileForAppend_err _ _ _ Ho) in H.
      discriminate.
  - assert (Hnew : forall w', fobjs w' = fobjs w ++ [mkFile file open_flag open_perm false] ->
                    is_open w' (Some (length (fobjs w))) = true)
      by (intros w'; apply is_open_fresh).
    split; [|split].
    + split; [apply mustOpenFileForAppend_ok, Ho|].
      split; [cbn; apply list_lookup_middle; reflexivity|].
      eexists. split; [apply Legacy_mustOpenFileForAppend_ok, Ho|].
      apply Hnew. reflexivity.
    + intros h w' H. rewrite (mustOpenFileForAppend_ok _ _ Ho) in H.
      injection H as <- <-. apply Hnew. reflexivity.
    + intros h w' H. rewrite (Legacy_mustOpenFileForAppend_ok _ _ Ho) in H.
      injection H as <- <-. apply Hnew. reflexivity.
Qed.

(** ** Close *)

Lemma Close_nil w : Close None w = Ok tt w.
Proof. reflexivity. Qed.

Lemma Close_never_started p rl w :
  ctrls w !! p = Some rl -> logFile rl = None -> Close (Some p) w = Ok tt w.
Proof.
  intros Hp Hf. unfold Close, bind, deref. rewrite Hp, Hf. reflexivity.
Qed.

Lemma Close_started p rl h c t w :
  ctrls w !! p = Some rl ->
  logFile rl = Some h ->
  quit rl = Some c ->
  tasks w !! c = Some t ->
  t_pc t = Waiting ->
  Close (Some p) w =
  Ok tt (closed (Some h) (set_tasks (alter (with_pc Returned) c (tasks w)) w)).
Proof.
  intros Hp Hf Hq Ht Hpc. unfold Close.
  unfold bind at 1. unfold deref at 1. rewrite Hp, Hf.
  unfold bind at 1. unfold send_quit. rewrite Hq, Ht, Hpc.
  unfold set_pc, modify.
  unfold bind, deref. cbn [ctrls set_tasks]. rewrite Hp, Hf. reflexivity.
Qed.

Lemma Close_after_return p rl h c t w :
  ctrls w !! p = Some rl ->
  logFile rl = Some h ->
  quit rl = Some c ->
  tasks w !! c = Some t ->
  t_pc t = Returned ->
  Close (Some p) w = Blocked w.
Proof.
  intros Hp Hf Hq Ht Hpc. unfold Close.
  unfold bind at 1. unfold deref at 1. rewrite Hp, Hf.
  unfold bind at 1. unfold send_quit. rewrite Hq, Ht, Hpc. reflexivity.
Qed.

(** Closing twice: the first call returns, the second never does. *)
Lemma Close_twice p rl h c t w :
  ctrls w !! p = Some rl ->
  logFile rl = Some h ->
  quit rl = Some c ->
  tasks w !! c = Some t ->
  t_pc t = Waiting ->
  exists w1, Close (Some p) w = Ok tt w1 /\ Close (Some p) w1 = Blocked w1.
Proof.
  intros Hp Hf Hq Ht Hpc. eexists. split.
  - eapply Close_started; eassumption.
  - eapply Close_after_return with (t := with_pc Returned t); try eassumption.
    + cbn. rewrite list_lookup_alter_eq, Ht. reflexivity.
    + reflexivity.
Qed.

(** The earlier variants close the file and nothing else, any number of
    times. *)
Lemma Legacy_Close_twice rl w :
  exists w1 w2,
    Legacy.Close (Some rl) w = Ok tt w1 /\ Legacy.Close (Some rl) w1 = Ok tt w2
    /\ Legacy.Close None w = Ok tt w.
Proof.
  unfold Legacy.Close. destruct (Legacy.logFile rl); eauto.
Qed.

(** C10.  [Close] on a started controller whose listener waits at its
    [select] with no signal pending stops the listener and closes the
    current file and changes nothing else: the registry, the controller,
    and the outputs of the
    standard logger, of the loggers and of the process streams are as
    before.  So a registry entry for the controller's name that held the
    file still holds it, [Open] returns that closed file without opening
    anything, and a standard logger that wrote to it now writes to a
    closed file. *)
Theorem Close_leaves_stale_handle (p : ptr) (rl : LogRot) (h : handle)
    (c : chan) (t : Task) (w : World) :
  ctrls w !! p = Some rl ->
  logFile rl = Some h ->
  quit rl = Some c ->
  tasks w !! c = Some t ->
  t_pc t = Waiting ->
  t_sigs t = [] ->
  exists w',
    Close (Some p) w = Ok tt w'
    /\ t_pc <$> tasks w' !! c = Some Returned
    /\ is_open w' (Some h) = false
    /\ trace w' = trace w ++ [EvClose (Some h)]
    /\ files w' = files w
    /\ ctrls w' = ctrls w
    /\ log_out w' = log_out w
    /\ logger_out w' = logger_out w
    /\ os_Stdout w' = os_Stdout w
    /\ os_Stderr w' = os_Stderr w
    /\ (forall h', h' <> h -> fobjs w' !! h' = fobjs w !! h')
    /\ (files w !! name rl = Some h ->
        Open (name rl) w' = Ok h w' /\ is_open w' (files w' !! name rl) = false)
    /\ (log_out w = Some h -> is_open w' (log_out w') = false).
Proof.
  intros Hp Hf Hq Ht Hpc Hs. eexists.
  split; [eapply Close_started; eassumption|].
  assert (Hc : forall x, is_open (closed (Some h) x) (Some h) = false)
    by (intros x; apply is_open_closed_self).
  split; [cbn; rewrite list_lookup_alter_eq, Ht; reflexivity|].
  split; [apply Hc|].
  repeat (split; [reflexivity|]).
  split.
  { intros h' Hne. cbn. apply list_lookup_alter_ne. congruence. }
  split.
  - intros Hreg. split.
    + unfold Open. cbn [files closed emit set_trace set_fobjs set_tasks].
      rewrite Hreg. reflexivity.
    + cbn [files closed emit set_trace set_fobjs set_tasks]. rewrite Hreg.
      apply Hc.
  - intros Hlog. cbn [log_out closed emit set_trace set_fobjs set_tasks].
    rewrite Hlog. apply Hc.
Qed.

(** ** Starting a controller *)

Lemma rotateOn_eq file sig ls w :
  openErr w file = None ->
  rotateOn file sig ls w = Ok (length (ctrls w)) (started file sig ls w).
Proof.
  intros Ho. unfold rotateOn.
  unfold bind at 1. rewrite (mustOpenFileForAppend_ok _ _ Ho).
  unfold bind at 1. unfold make_quit at 1.
  unfold bind at 1. unfold new_LogRot at 1.
  unfold bind at 1. erewrite setOutput_eq
    by (cbn [ctrls set_ctrls reopened]; apply list_lookup_middle; reflexivity).
  unfold bind, go_listener, modify, ret. reflexivity.
Qed.

(** C5, at the failing input.  A controller is started on "app.log" and
    closed twice: the first [Close] returns; the second finds [logFile]
    still set, sends on [quit], and never returns, because the listener
    that would receive has returned. *)
Theorem Close_twice_blocks :
  exists lr w1 w2,
    WriteTo "app.log" [] (init (fun _ => None)) = Ok lr w1
    /\ Close (Some lr) w1 = Ok tt w2
    /\ Close (Some lr) w2 = Blocked w2.
Proof.
  eexists _, _, _. split; [apply rotateOn_eq; reflexivity|].
  split.
  - eapply Close_started; reflexivity.
  - eapply Close_after_return; reflexivity.
Qed.

(** ** Relations kept by every outcome *)

Section Rel.
Context (R : World -> World -> Prop) (HR : PreOrder R).

Lemma rel_ret {A} (a : A) : rel R (ret a).
Proof. intros w. cbn. reflexivity. Qed.

Lemma rel_bind {A B} (m : M A) (k : A -> M B) :
  rel R m -> (forall a, rel R (k a)) -> rel R (bind m k).
Proof.
  intros Hm Hk w. unfold bind. specialize (Hm w).
  destruct (m w) as [a w'| | |]; cbn in *; try exact Hm.
  etransitivity; [exact Hm | apply Hk].
Qed.

Lemma rel_modify f : (forall w, R w (f w)) -> rel R (modify f).
Proof. intros H w. apply H. Qed.

Lemma rel_deref p : rel R (deref p).
Proof. intros w. unfold deref. destruct (ctrls w !! p); cbn; reflexivity. Qed.

Lemma rel_make_quit : rel R make_quit.
Proof. intros w. cbn. reflexivity. Qed.

Lemma rel_for_range {A} (ls : list A) body :
  (forall a, rel R (body a)) -> rel R (for_range ls body).
Proof.
  intros H. induction ls as [|a ls IH]; cbn [for_range].
  - apply rel_ret.
  - apply rel_bind; [apply H | intros _; exact IH].
Qed.

Lemma rel_forget {A} (m : M A) : rel R m -> rel R (forget m).
Proof. intros H. apply rel_bind; [exact H | intros; apply rel_ret]. Qed.

Lemma rel_blocked w : R w (world_of (Blocked (A := unit) w)).
Proof. cbn. reflexivity. Qed.

Lemma rel_ok {A} (a : A) w : R w (world_of (Ok a w)).
Proof. cbn. reflexivity. Qed.
End Rel.

(** The code of the package, unfolded down to the primitives of the
    monad. *)
Ltac unfold_pkg :=
  unfold WriteAllTo, WriteTo, rotateOn, Close, CaptureStdout, CaptureStderr,
    rotate, setOutput, assign_Stdout, assign_Stderr, log_SetOutput,
    Logger_SetOutput, log_Output, file_Close, set_pc, set_sigs, go_listener,
    deliver.

(** Structural steps; [leaf] closes what is specific to the relation. *)
Ltac rel_go pre leaf :=
  repeat first
    [ leaf
    | apply (rel_ret _ pre)
    | apply (rel_deref _ pre)
    | apply (rel_make_quit _ pre)
    | apply (rel_forget _ pre)
    | apply (rel_bind _ pre); [| intros ?]
    | apply (rel_for_range _ pre); intros ?
    | apply (rel_blocked _ pre)
    | apply (rel_ok _ pre)
    | match goal with
      | |- rel _ (if ?b then _ else _) => destruct b
      | |- rel _ (match ?x with _ => _ end) => destruct x
      | |- ?R ?w (world_of (?m ?w)) =>
          let H := fresh in assert (H : rel R m); [| exact (H w)]
      end
    | apply rel_modify; intros ?; leaf
    | leaf ].

(** ** Every open is an append-create open with mode 0644 *)

#[local] Instance appends_preorder P : PreOrder (appends P).
Proof.
  split.
  - intros w. exists []. rewrite app_nil_r. split; reflexivity.
  - intros a b c (e1 & H1 & P1) (e2 & H2 & P2). exists (e1 ++ e2).
    rewrite H2, H1, <- app_assoc, forallb_app, P1, P2. split; reflexivity.
Qed.

Ltac appends_leaf :=
  unfold appends; wsimpl;
  first [ exists []; rewrite app_nil_r; split; reflexivity
        | eexists [_]; split; [reflexivity | vm_compute; reflexivity]
        | eexists [_; _]; split;
          [rewrite <- ?app_assoc; reflexivity | vm_compute; reflexivity] ].

Lemma mustOpenFileForAppend_appends P file :
  (forall res, P (EvOpenFile file open_flag open_perm res) = true) ->
  (forall d m, P (EvLog d m) = true) ->
  (forall h, P (EvRegister file h) = true) ->
  rel (appends P) (mustOpenFileForAppend file).
Proof.
  intros Po Pl Pr w. destruct (openErr w file) as [e|] eqn:Ho.
  - rewrite (mustOpenFileForAppend_err _ _ _ Ho). unfold appends. wsimpl.
    eexists [_; _]. rewrite <- app_assoc. split; [reflexivity|].
    cbn. rewrite Po, Pl. reflexivity.
  - rewrite (mustOpenFileForAppend_ok _ _ Ho). unfold appends. wsimpl.
    eexists [_; _]. split; [reflexivity|].
    cbn. rewrite Po, Pr. reflexivity.
Qed.

Lemma Legacy_mustOpenFileForAppend_appends P file :
  (forall res, P (EvOpenFile file open_flag open_perm res) = true) ->
  (forall d m, P (EvLog d m) = true) ->
  rel (appends P) (Legacy.mustOpenFileForAppend file).
Proof.
  intros Po Pl w. destruct (openErr w file) as [e|] eqn:Ho.
  - rewrite (Legacy_mustOpenFileForAppend_err _ _ _ Ho). unfold appends. wsimpl.
    eexists [_; _]. rewrite <- app_assoc. split; [reflexivity|].
    cbn. rewrite Po, Pl. reflexivity.
  - rewrite (Legacy_mustOpenFileForAppend_ok _ _ Ho). unfold appends. wsimpl.
    eexists [_]. split; [reflexivity|].
    cbn. rewrite Po. reflexivity.
Qed.

Lemma new_LogRot_appends P rl : rel (appends P) (new_LogRot rl).
Proof. intros w. cbn. appends_leaf. Qed.

Lemma update_appends P p f : rel (appends P) (update p f).
Proof.
  intros w. unfold update, bind, deref, modify.
  destruct (ctrls w !! p); cbn; appends_leaf.
Qed.

Ltac opens_leaf :=
  first [ apply mustOpenFileForAppend_appends; intros; reflexivity
        | apply Legacy_mustOpenFileForAppend_appends; intros; reflexivity
        | apply new_LogRot_appends
        | apply update_appends
        | appends_leaf ].

Lemma Open_opens file : rel (appends open_as_written) (Open file).
Proof.
  intros w. unfold Open. destruct (files w !! file); rel_go (appends_preorder open_as_written) opens_leaf.
Qed.

Lemma listener_step_opens c : rel (appends open_as_written) (listener_step c).
Proof.
  intros w. unfold listener_step.
  destruct (tasks w !! c) as [t|]; [|rel_go (appends_preorder open_as_written) opens_leaf].
  destruct (t_pc t); [destruct (t_sigs t)|..]; unfold_pkg; rel_go (appends_preorder open_as_written) opens_leaf.
Qed.

Lemma send_quit_opens q : rel (appends open_as_written) (send_quit q).
Proof.
  intros w. unfold send_quit. destruct q as [c|]; [|rel_go (appends_preorder open_as_written) opens_leaf].
  destruct (tasks w !! c) as [t|]; [|rel_go (appends_preorder open_as_written) opens_leaf].
  pose proof (listener_step_opens c).
  destruct (t_pc t); unfold_pkg; rel_go (appends_preorder open_as_written) ltac:(first [assumption | opens_leaf]).
Qed.

Lemma step_opens o : rel (appends open_as_written) (step o).
Proof.
  pose proof Open_opens. pose proof listener_step_opens.
  pose proof send_quit_opens.
  destruct o; cbn [step]; unfold_pkg;
    rel_go (appends_preorder open_as_written) ltac:(first [ match goal with H : _ |- _ => apply H end | opens_leaf ]).
Qed.

Lemma run_opens ops : rel (appends open_as_written) (run ops).
Proof.
  induction ops as [|o ops IH]; cbn [run].
  - apply rel_ret, appends_preorder.
  - apply rel_bind; [apply appends_preorder | apply step_opens | intros _; exact IH].
Qed.

Lemma open_words_reading :
  open_flag = Z.lor (Z.lor syscall.O_CREAT syscall.O_WRONLY) syscall.O_APPEND
  /\ create_append_wronly open_flag = true
  /\ perm_string open_perm = "rw-r--r--".
Proof. repeat split. Qed.

Lemma appends_from_empty P w w' :
  trace w = [] -> appends P w w' -> Forall (fun e => P e = true) (trace w').
Proof.
  intros Hnil (evs & -> & HP). rewrite Hnil. cbn.
  apply Forall_forall. intros e He.
  rewrite forallb_forall in HP. apply HP, list_elem_of_In, He.
Qed.

Lemma Legacy_opens file sig s rl :
  rel (appends open_as_written) (Legacy.rotateOn file sig)
  /\ rel (appends open_as_written) (Legacy.rotateOn_hup file sig)
  /\ rel (appends open_as_written) (Legacy.WriteTo file)
  /\ rel (appends open_as_written) (Legacy.WriteTo_hup file)
  /\ rel (appends open_as_written) (Legacy.on_signal s rl).
Proof.
  unfold Legacy.WriteTo, Legacy.WriteTo_hup, Legacy.rotateOn,
    Legacy.rotateOn_hup, Legacy.on_signal.
  repeat split; unfold_pkg; rel_go (appends_preorder open_as_written) opens_leaf.
Qed.

(** C8.  In every run of a process that uses the package, whatever it
    calls and however signals and the listeners interleave, every call
    of [os.OpenFile] (from [Open], from [WriteTo] and [WriteAllTo], and
    from a rotation) is made with the flag word
    [O_CREATE|O_WRONLY|O_APPEND] and the permission word 0644: create if
    missing, write only, append, neither truncate nor exclusive, and
    rw-r--r--.  The same holds for the earlier variants. *)
Theorem every_open_is_append_create (ops : list op) (oe : string -> option string)
    (file : string) (flag perm : Z) (res : option handle) :
  EvOpenFile file flag perm res ∈ trace (world_of (run ops (init oe))) ->
  flag = Z.lor (Z.lor os.O_CREATE os.O_WRONLY) os.O_APPEND
  /\ perm = (6 * 64 + 4 * 8 + 4)%Z
  /\ create_append_wronly flag = true
  /\ perm_string perm = "rw-r--r--"
  /\ (forall f sig s rl w,
        appends open_as_written w (world_of (Legacy.rotateOn f sig w))
        /\ appends open_as_written w (world_of (Legacy.rotateOn_hup f sig w))
        /\ appends open_as_written w (world_of (Legacy.on_signal s rl w))).
Proof.
  intros Hin.
  pose proof (appends_from_empty _ (init oe) _ eq_refl (run_opens ops (init oe)))
    as Hall.
  rewrite Forall_forall in Hall. apply Hall in Hin. cbn in Hin.
  apply andb_prop in Hin as [Hf Hp].
  apply Z.eqb_eq in Hf, Hp. subst flag perm.
  repeat split; eapply (Legacy_opens f sig s rl).
Qed.

(** ** The registry holds the latest registration *)

#[local] Instance registry_kept_preorder : PreOrder registry_kept.
Proof.
  split.
  - intros w H. exact H.
  - intros a b c Hab Hbc H. apply Hbc, Hab, H.
Qed.

Lemma last_registered_snoc file tr e :
  last_registered file (tr ++ [e]) = registers file (last_registered file tr) e.
Proof. unfold last_registered. apply foldl_snoc. Qed.

Ltac registry_leaf :=
  unfold registry_kept, registry_inv, registry_sound, opens_registered;
  wsimpl;
  let Hs := fresh "Hs" in let Ho := fresh "Ho" in
  intros [Hs Ho];
  first [ split; [exact Hs | exact Ho]
        | split;
          [ let file := fresh "file" in
            intros file; rewrite last_registered_snoc; cbn [registers]; apply Hs
          | rewrite foldl_snoc, Ho; reflexivity ] ].

Lemma mustOpenFileForAppend_registry file :
  rel registry_kept (mustOpenFileForAppend file).
Proof.
  intros w. destruct (openErr w file) as [e|] eqn:Ho.
  - rewrite (mustOpenFileForAppend_err _ _ _ Ho). cbn [world_of].
    unfold registry_kept, registry_inv, registry_sound, opens_registered.
    wsimpl. intros [Hs Hr]. split.
    + intros f. rewrite !last_registered_snoc. cbn [registers]. apply Hs.
    + rewrite !foldl_snoc, Hr. reflexivity.
  - rewrite (mustOpenFileForAppend_ok _ _ Ho). cbn [world_of].
    unfold registry_kept, registry_inv, registry_sound, opens_registered.
    wsimpl. intros [Hs Hr]. split.
    + intros f. unfold last_registered. rewrite foldl_app. cbn [foldl registers].
      destruct (decide (file = f)) as [->|Hne].
      * rewrite bool_decide_eq_true_2 by reflexivity. apply lookup_insert_eq.
      * rewrite bool_decide_eq_false_2 by exact Hne.
        rewrite lookup_insert_ne by exact Hne. apply Hs.
    + rewrite foldl_app, Hr. cbn.
      rewrite !bool_decide_eq_true_2 by reflexivity. reflexivity.
Qed.

Lemma new_LogRot_registry rl : rel registry_kept (new_LogRot rl).
Proof. intros w. cbn. registry_leaf. Qed.

Lemma update_registry p f : rel registry_kept (update p f).
Proof.
  intros w. unfold update, bind, deref, modify.
  destruct (ctrls w !! p); cbn; registry_leaf.
Qed.

Ltac reg_leaf :=
  first [ apply mustOpenFileForAppend_registry
        | apply new_LogRot_registry
        | apply update_registry
        | registry_leaf ].

Lemma Open_registry file : rel registry_kept (Open file).
Proof.
  intros w. unfold Open. destruct (files w !! file); rel_go registry_kept_preorder reg_leaf.
Qed.

Lemma listener_step_registry c : rel registry_kept (listener_step c).
Proof.
  intros w. unfold listener_step.
  destruct (tasks w !! c) as [t|]; [|rel_go registry_kept_preorder reg_leaf].
  destruct (t_pc t); [destruct (t_sigs t)|..]; unfold_pkg; rel_go registry_kept_preorder reg_leaf.
Qed.

Lemma send_quit_registry q : rel registry_kept (send_quit q).
Proof.
  intros w. unfold send_quit. destruct q as [c|]; [|rel_go registry_kept_preorder reg_leaf].
  destruct (tasks w !! c) as [t|]; [|rel_go registry_kept_preorder reg_leaf].
  pose proof (listener_step_registry c).
  destruct (t_pc t); unfold_pkg; rel_go registry_kept_preorder ltac:(first [assumption | reg_leaf]).
Qed.

Lemma step_registry o : rel registry_kept (step o).
Proof.
  pose proof Open_registry. pose proof listener_step_registry.
  pose proof send_quit_registry.
  destruct o; cbn [step]; unfold_pkg;
    rel_go registry_kept_preorder ltac:(first [ match goal with H : _ |- _ => apply H end | reg_leaf ]).
Qed.

Lemma run_registry ops : rel registry_kept (run ops).
Proof.
  induction ops as [|o ops IH]; cbn [run].
  - apply rel_ret, registry_kept_preorder.
  - apply rel_bind; [apply registry_kept_preorder | apply step_registry | intros _; exact IH].
Qed.

Lemma registry_inv_init oe : registry_inv (init oe).
Proof. split; [intros file; apply lookup_empty | reflexivity]. Qed.

(** C3.  After any run of the process that is still going, the registry
    holds for every name the handle most recently registered under it,
    and every successful open was at once followed by the registration
    of its handle.  [Open] of a name that was registered returns that
    very handle and opens nothing; [Open] of a name never registered
    opens a fresh file, registers it and returns it (or, when the open
    fails, stops the process). *)
Theorem Open_returns_latest_registered (ops : list op)
    (oe : string -> option string) (w : World) (file : string) :
  run ops (init oe) = Ok tt w ->
  registry_sound w
  /\ opens_registered (trace w)
  /\ match last_registered file (trace w) with
     | Some h => Open file w = Ok h w
     | None =>
         match openErr w file with
         | None =>
             let h := length (fobjs w) in
             exists w',
               Open file w = Ok h w'
               /\ fobjs w !! h = None
               /\ is_open w' (Some h) = true
               /\ files w' !! file = Some h
               /\ last_registered file (trace w') = Some h
               /\ Open file w' = Ok h w'
         | Some e => exists w', Open file w = Exit 1 w'
         end
     end.
Proof.
  intros Hrun.
  pose proof (run_registry ops (init oe) (registry_inv_init oe)) as [Hs Hr].
  rewrite Hrun in Hs, Hr. cbn [world_of] in Hs, Hr.
  split; [exact Hs|]. split; [exact Hr|].
  pose proof (Hs file) as Hf. unfold Open.
  destruct (last_registered file (trace w)) as [h|] eqn:Hl; rewrite Hf.
  - reflexivity.
  - destruct (openErr w file) as [e|] eqn:Ho.
    + eexists. apply mustOpenFileForAppend_err, Ho.
    + cbv zeta. eexists. split; [apply mustOpenFileForAppend_ok, Ho|].
      assert (Hreg : files (reopened file w) !! file = Some (length (fobjs w)))
        by (cbn; apply lookup_insert_eq).
      split; [apply lookup_ge_None; lia|].
      split; [eapply is_open_fresh; reflexivity|].
      split; [exact Hreg|].
      split.
      * cbn. unfold last_registered in *. rewrite foldl_app, Hl. cbn.
        rewrite bool_decide_eq_true_2 by reflexivity. reflexivity.
      * rewrite Hreg. reflexivity.
Qed.

(** ** Controllers keep their identity and their capture flags *)

#[local] Instance ctrl_evolves_preorder : PreOrder ctrl_evolves.
Proof.
  split.
  - intros w p rl H. exists rl. repeat split; auto.
  - intros a b c Hab Hbc p rl H.
    destruct (Hab p rl H) as (rl1 & H1 & E1 & E2 & E3 & E4 & E5 & E6).
    destruct (Hbc p rl1 H1) as (rl2 & H2 & F1 & F2 & F3 & F4 & F5 & F6).
    exists rl2. repeat split; try congruence; auto.
Qed.

Lemma ctrl_evolves_same w w' : ctrls w' = ctrls w -> ctrl_evolves w w'.
Proof.
  intros E p rl H. exists rl. rewrite E. repeat split; auto.
Qed.

Ltac ctrl_leaf := apply ctrl_evolves_same; reflexivity.

Lemma mustOpenFileForAppend_ctrl file :
  rel ctrl_evolves (mustOpenFileForAppend file).
Proof.
  intros w. destruct (openErr w file) as [e|] eqn:Ho.
  - rewrite (mustOpenFileForAppend_err _ _ _ Ho). ctrl_leaf.
  - rewrite (mustOpenFileForAppend_ok _ _ Ho). ctrl_leaf.
Qed.

Lemma new_LogRot_ctrl rl : rel ctrl_evolves (new_LogRot rl).
Proof.
  intros w p r H. exists r. cbn.
  rewrite (lookup_app_l_Some _ _ _ _ H). repeat split; auto.
Qed.

Lemma update_ctrl p f :
  (forall rl, name (f rl) = name rl /\ signal (f rl) = signal rl
              /\ quit (f rl) = quit rl /\ loggers (f rl) = loggers rl
              /\ (captureStdout rl = true -> captureStdout (f rl) = true)
              /\ (captureStderr rl = true -> captureStderr (f rl) = true)) ->
  rel ctrl_evolves (update p f).
Proof.
  intros Hf w. unfold update, bind, deref, modify.
  destruct (ctrls w !! p) as [r0|] eqn:Hp; cbn; [|reflexivity].
  intros q r Hq. destruct (decide (q = p)) as [->|Hne].
  - exists (f r0). wsimpl. rewrite (lookup_ctrl_insert _ _ _ _ Hp).
    assert (r = r0) as -> by congruence. split; [reflexivity | apply Hf].
  - exists r. wsimpl. rewrite list_lookup_insert_ne by congruence.
    repeat split; auto.
Qed.

Ltac evolve_leaf :=
  first [ apply mustOpenFileForAppend_ctrl
        | apply new_LogRot_ctrl
        | apply update_ctrl; intros ?; cbn; tauto
        | ctrl_leaf ].

Lemma Open_ctrl file : rel ctrl_evolves (Open file).
Proof.
  intros w. unfold Open. destruct (files w !! file); rel_go ctrl_evolves_preorder evolve_leaf.
Qed.

Lemma listener_step_ctrl c : rel ctrl_evolves (listener_step c).
Proof.
  intros w. unfold listener_step.
  destruct (tasks w !! c) as [t|]; [|rel_go ctrl_evolves_preorder evolve_leaf].
  destruct (t_pc t); [destruct (t_sigs t)|..]; unfold_pkg; rel_go ctrl_evolves_preorder evolve_leaf.
Qed.

Lemma send_quit_ctrl q : rel ctrl_evolves (send_quit q).
Proof.
  intros w. unfold send_quit. destruct q as [c|]; [|rel_go ctrl_evolves_preorder evolve_leaf].
  destruct (tasks w !! c) as [t|]; [|rel_go ctrl_evolves_preorder evolve_leaf].
  pose proof (listener_step_ctrl c).
  destruct (t_pc t); unfold_pkg; rel_go ctrl_evolves_preorder ltac:(first [assumption | evolve_leaf]).
Qed.

Lemma step_ctrl o : rel ctrl_evolves (step o).
Proof.
  pose proof Open_ctrl. pose proof listener_step_ctrl.
  pose proof send_quit_ctrl.
  destruct o; cbn [step]; unfold_pkg;
    rel_go ctrl_evolves_preorder ltac:(first [ match goal with H : _ |- _ => apply H end | evolve_leaf ]).
Qed.

Lemma run_ctrl ops : rel ctrl_evolves (run ops).
Proof.
  induction ops as [|o ops IH]; cbn [run].
  - apply rel_ret, ctrl_evolves_preorder.
  - apply rel_bind; [apply ctrl_evolves_preorder | apply step_ctrl | intros _; exact IH].
Qed.

Lemma CaptureStdout_eq p rl w :
  ctrls w !! p = Some rl ->
  CaptureStdout p w =
  Ok tt (emit (EvSetOutput TStdout (logFile rl))
           (set_Stdout (logFile rl)
              (set_ctrls (<[p := with_captureStdout true rl]> (ctrls w)) w))).
Proof.
  intros Hp. unfold CaptureStdout. unfold bind at 1.
  rewrite (update_eq _ _ _ _ Hp).
  unfold bind, deref. cbn [ctrls set_ctrls].
  rewrite (lookup_ctrl_insert _ _ _ _ Hp). reflexivity.
Qed.

Lemma CaptureStderr_eq p rl w :
  ctrls w !! p = Some rl ->
  CaptureStderr p w =
  Ok tt (emit (EvSetOutput TStderr (logFile rl))
           (set_Stderr (logFile rl)
              (set_ctrls (<[p := with_captureStderr true rl]> (ctrls w)) w))).
Proof.
  intros Hp. unfold CaptureStderr. unfold bind at 1.
  rewrite (update_eq _ _ _ _ Hp).
  unfold bind, deref. cbn [ctrls set_ctrls].
  rewrite (lookup_ctrl_insert _ _ _ _ Hp). reflexivity.
Qed.

(** What a rotation does to a captured stream. *)
Lemma rotate_redirects_captured p rl w w' :
  ctrls w !! p = Some rl ->
  rotate p w = Ok tt w' ->
  let f := Some (length (fobjs w)) in
  (logFile <$> ctrls w' !! p) = Some f
  /\ (captureStdout rl = true -> os_Stdout w' = f)
  /\ (captureStderr rl = true -> os_Stderr w' = f).
Proof.
  intros Hp Hr. destruct (openErr w (name rl)) as [e|] eqn:Ho.
  - rewrite (rotate_err p rl e) in Hr by assumption. discriminate.
  - rewrite (rotate_eq p rl) in Hr by assumption. injection Hr as <-.
    cbv zeta. split; [|split].
    + cbn. rewrite (lookup_ctrl_insert _ _ _ _ Hp). reflexivity.
    + intros E. cbn. rewrite E. reflexivity.
    + intros E. cbn. rewrite E. reflexivity.
Qed.

(** The slice of the listener that runs [setOutput]. *)
Lemma listener_step_Opened c t old rl w :
  tasks w !! c = Some t ->
  t_pc t = Opened old ->
  ctrls w !! t_rl t = Some rl ->
  listener_step c w =
  Ok tt (set_tasks (alter (with_pc (Redirected old)) c (tasks w))
           (redirected rl w)).
Proof.
  intros Ht Hpc Hrl. unfold listener_step. rewrite Ht, Hpc.
  unfold bind. rewrite (setOutput_eq _ _ _ Hrl). reflexivity.
Qed.

(** C7.  [CaptureStdout] points [os.Stdout] at the controller's current
    file at once and sets the controller's flag; the flag is never
    cleared, so whatever the process does afterwards, every later
    rotation of the controller points [os.Stdout] at the file it has
    just opened, be it run in one go or as slices of the listener.
    [CaptureStderr] does the same for [os.Stderr]. *)
Theorem capture_redirects_now_and_later (p : ptr) (rl : LogRot) (w : World) :
  ctrls w !! p = Some rl ->
  exists w1 w1',
    CaptureStdout p w = Ok tt w1
    /\ os_Stdout w1 = logFile rl
    /\ ctrls w1 !! p = Some (with_captureStdout true rl)
    /\ CaptureStderr p w = Ok tt w1'
    /\ os_Stderr w1' = logFile rl
    /\ ctrls w1' !! p = Some (with_captureStderr true rl)
    /\ (forall ops w2 w3,
          run ops w1 = Ok tt w2 -> rotate p w2 = Ok tt w3 ->
          os_Stdout w3 = Some (length (fobjs w2))
          /\ (logFile <$> ctrls w3 !! p) = Some (Some (length (fobjs w2))))
    /\ (forall ops w2 w3,
          run ops w1' = Ok tt w2 -> rotate p w2 = Ok tt w3 ->
          os_Stderr w3 = Some (length (fobjs w2))
          /\ (logFile <$> ctrls w3 !! p) = Some (Some (length (fobjs w2))))
    /\ (forall ops w2 c t old w3,
          run ops w1 = Ok tt w2 ->
          tasks w2 !! c = Some t -> t_rl t = p -> t_pc t = Opened old ->
          listener_step c w2 = Ok tt w3 ->
          Some (os_Stdout w3) = (logFile <$> ctrls w3 !! p))
    /\ (forall ops w2 c t old w3,
          run ops w1' = Ok tt w2 ->
          tasks w2 !! c = Some t -> t_rl t = p -> t_pc t = Opened old ->
          listener_step c w2 = Ok tt w3 ->
          Some (os_Stderr w3) = (logFile <$> ctrls w3 !! p)).
Proof.
  intros Hp.
  set (w1 := emit (EvSetOutput TStdout (logFile rl))
               (set_Stdout (logFile rl)
                  (set_ctrls (<[p := with_captureStdout true rl]> (ctrls w)) w))).
  set (w1' := emit (EvSetOutput TStderr (logFile rl))
                (set_Stderr (logFile rl)
                   (set_ctrls (<[p := with_captureStderr true rl]> (ctrls w)) w))).
  assert (H1 : ctrls w1 !! p = Some (with_captureStdout true rl))
    by (eapply lookup_ctrl_insert, Hp).
  assert (H1' : ctrls w1' !! p = Some (with_captureStderr true rl))
    by (eapply lookup_ctrl_insert, Hp).
  assert (Hlater : forall w0 r1 ops w2,
            ctrls w0 !! p = Some r1 -> run ops w0 = Ok tt w2 ->
            exists r2, ctrls w2 !! p = Some r2
              /\ (captureStdout r1 = true -> captureStdout r2 = true)
              /\ (captureStderr r1 = true -> captureStderr r2 = true)).
  { intros w0 r1 ops w2 H0 Hrun.
    pose proof (run_ctrl ops w0 p r1 H0) as (r2 & H2 & _ & _ & _ & _ & Ho & He).
    rewrite Hrun in H2. exists r2. auto. }
  exists w1, w1'.
  split; [apply CaptureStdout_eq, Hp|].
  split; [reflexivity|].
  split; [exact H1|].
  split; [apply CaptureStderr_eq, Hp|].
  split; [reflexivity|].
  split; [exact H1'|].
  split; [|split; [|split]].
  - intros ops w2 w3 Hrun Hrot.
    destruct (Hlater w1 _ ops w2 H1 Hrun) as (r2 & H2 & Ho & _).
    destruct (rotate_redirects_captured _ _ _ _ H2 Hrot) as (Hl & Hs & _).
    split; [apply Hs, Ho; reflexivity | exact Hl].
  - intros ops w2 w3 Hrun Hrot.
    destruct (Hlater w1' _ ops w2 H1' Hrun) as (r2 & H2 & _ & He).
    destruct (rotate_redirects_captured _ _ _ _ H2 Hrot) as (Hl & _ & Hs).
    split; [apply Hs, He; reflexivity | exact Hl].
  - intros ops w2 c t old w3 Hrun Ht Hrl Hpc Hstep.
    destruct (Hlater w1 _ ops w2 H1 Hrun) as (r2 & H2 & Ho & _).
    subst p.
    rewrite (listener_step_Opened _ _ _ _ _ Ht Hpc H2) in Hstep.
    injection Hstep as <-. wsimpl. rewrite H2, Ho by reflexivity. reflexivity.
  - intros ops w2 c t old w3 Hrun Ht Hrl Hpc Hstep.
    destruct (Hlater w1' _ ops w2 H1' Hrun) as (r2 & H2 & _ & He).
    subst p.
    rewrite (listener_step_Opened _ _ _ _ _ Ht Hpc H2) in Hstep.
    injection Hstep as <-. wsimpl. rewrite H2, He by reflexivity. reflexivity.
Qed.

(** ** Rotations of one controller never overlap *)

Lemma scan_app p tr evs :
  scan p (tr ++ evs) = foldl (scan_step p) (scan p tr) evs.
Proof. unfold scan. apply foldl_app. Qed.

Lemma count_app f tr evs : count f (tr ++ evs) = count f tr + count f evs.
Proof. unfold count. rewrite List.filter_app, length_app. reflexivity. Qed.

Lemma scan_only_for p q st evs :
  forallb (only_for p) evs = true -> q <> p ->
  foldl (scan_step q) st evs = st.
Proof.
  intros H Hne. revert st. induction evs as [|e evs IH]; intros st; [reflexivity|].
  cbn in H. apply andb_prop in H as [He H]. cbn [foldl]. rewrite IH by exact H.
  destruct st as [b|]; [|reflexivity].
  destruct e; cbn in *; try reflexivity; try discriminate;
    apply bool_decide_eq_true_1 in He; subst;
    rewrite bool_decide_eq_false_2 by congruence; reflexivity.
Qed.

Lemma rotations_only_for p q evs :
  forallb (only_for p) evs = true -> q <> p -> count (is_rotate q) evs = 0.
Proof.
  intros H Hne. induction evs as [|e evs IH]; [reflexivity|].
  cbn in H. apply andb_prop in H as [He H]. unfold count in *. cbn.
  destruct e; cbn in *; try (apply IH, H); try discriminate.
  apply bool_decide_eq_true_1 in He; subst.
  rewrite bool_decide_eq_false_2 by congruence. apply IH, H.
Qed.

Lemma received_only_for p s evs :
  forallb (only_for p) evs = true -> count (is_signal s) evs = 0.
Proof.
  intros H. induction evs as [|e evs IH]; [reflexivity|].
  cbn in H. apply andb_prop in H as [He H]. unfold count in *. cbn.
  destruct e; cbn in *; try (apply IH, H); discriminate.
Qed.

Lemma quiet_only_for p evs :
  forallb quiet evs = true -> forallb (only_for p) evs = true.
Proof.
  intros H. induction evs as [|e evs IH]; [reflexivity|].
  cbn in *. apply andb_prop in H as [He H]. rewrite IH by exact H.
  destruct e; cbn in *; try reflexivity; discriminate.
Qed.

Lemma scan_quiet p st evs :
  forallb quiet evs = true -> foldl (scan_step p) st evs = st.
Proof.
  intros H. apply (scan_only_for (S p)); [apply quiet_only_for, H | lia].
Qed.

Lemma rotations_quiet p evs :
  forallb quiet evs = true -> count (is_rotate p) evs = 0.
Proof.
  intros H. apply (rotations_only_for (S p)); [apply quiet_only_for, H | lia].
Qed.

Lemma received_quiet s evs :
  forallb quiet evs = true -> count (is_signal s) evs = 0.
Proof. intros H. eapply (received_only_for 0), quiet_only_for, H. Qed.

Lemma tasks_inv_init oe : tasks_inv (init oe).
Proof.
  split; cbn; intros; try discriminate.
  split; reflexivity.
Qed.

Lemma tasks_inv_quiet w w' : tasks_inv w -> quiet_step w w' -> tasks_inv w'.
Proof.
  intros [K1 K2 K3 K4 K5 K6 K7] (Ht & (evs & Htr & Hq) & Hc & Hlen & Hfk).
  split; rewrite ?Ht, ?Htr.
  - intros c t H. rewrite scan_app, scan_quiet by exact Hq. eapply K1, H.
  - exact K2.
  - intros c t H. destruct (K3 c t H) as (rl & Hrl & Hs).
    destruct (Hc _ _ Hrl) as (rl' & Hrl' & _ & Hs' & _).
    exists rl'. split; [exact Hrl' | congruence].
  - intros p H. rewrite scan_app, scan_quiet by exact Hq.
    unfold rotations. rewrite count_app, (rotations_quiet _ evs) by exact Hq.
    destruct (K4 p H) as [-> Hr]. unfold rotations in Hr. rewrite Hr.
    split; reflexivity.
  - intros c t H. unfold rotations, received.
    rewrite !count_app, (rotations_quiet _ evs), (received_quiet _ evs)
      by exact Hq.
    specialize (K5 c t H). unfold rotations, received in K5. lia.
  - exact K6.
  - intros p rl h Hp Hh. destruct (Hfk p rl Hp) as [Hn|(rl0 & H0 & E)];
      [congruence|].
    rewrite <- E in Hh. specialize (K7 p rl0 h H0 Hh). lia.
Qed.

Lemma tasks_inv_alter w w' c t g evs :
  tasks_inv w ->
  tasks w !! c = Some t ->
  tasks w' = alter g c (tasks w) ->
  t_rl (g t) = t_rl t ->
  t_notify (g t) = t_notify t ->
  trace w' = trace w ++ evs ->
  forallb (only_for (t_rl t)) evs = true ->
  foldl (scan_step (t_rl t)) (Some (in_rotate (t_pc t))) evs
    = Some (in_rotate (t_pc (g t))) ->
  count (is_rotate (t_rl t)) evs + length (t_sigs (g t)) <= length (t_sigs t) ->
  ctrl_evolves w w' ->
  handles_valid w' ->
  tasks_inv w'.
Proof.
  intros [K1 K2 K3 K4 K5 K6 K7] Hc Ht Hrl Hno Htr Hev Hscan Hcnt Hctl Hval.
  assert (A : forall c' t', tasks w' !! c' = Some t' ->
            exists t0, tasks w !! c' = Some t0 /\ t_rl t' = t_rl t0
              /\ t_notify t' = t_notify t0
              /\ ((c' = c /\ t0 = t /\ t' = g t) \/ (c' <> c /\ t' = t0))).
  { intros c' t' H. rewrite Ht in H. destruct (decide (c' = c)) as [->|Hne].
    - rewrite list_lookup_alter_eq, Hc in H. injection H as <-.
      exists t. repeat split; auto.
    - rewrite list_lookup_alter_ne in H by congruence.
      exists t'. repeat split; auto. }
  assert (B : forall c' t0, tasks w !! c' = Some t0 ->
            exists t', tasks w' !! c' = Some t' /\ t_rl t' = t_rl t0).
  { intros c' t0 H. rewrite Ht. destruct (decide (c' = c)) as [->|Hne].
    - rewrite list_lookup_alter_eq, H. exists (g t0). split; [reflexivity|].
      assert (t0 = t) as -> by congruence. exact Hrl.
    - rewrite list_lookup_alter_ne by congruence. exists t0. auto. }
  split; rewrite ?Htr.
  - intros c' t' H. destruct (A _ _ H) as (t0 & H0 & E1 & _ & [(-> & -> & ->)|(Hne & ->)]).
    + rewrite Hrl, scan_app, (K1 _ _ Hc). exact Hscan.
    + rewrite scan_app, scan_only_for with (p := t_rl t);
        [eapply K1, H0 | exact Hev |].
      intros E. apply Hne. eapply K2; eassumption.
  - intros c1 c2 t1 t2 H1 H2 E.
    destruct (A _ _ H1) as (a1 & G1 & E1 & _).
    destruct (A _ _ H2) as (a2 & G2 & E2 & _).
    eapply K2; [exact G1 | exact G2 | congruence].
  - intros c' t' H. destruct (A _ _ H) as (t0 & H0 & E1 & E2 & _).
    destruct (K3 _ _ H0) as (rl & Hr & Hs).
    destruct (Hctl _ _ Hr) as (rl' & Hr' & _ & Hs' & _).
    exists rl'. rewrite E1, E2. split; [exact Hr' | congruence].
  - intros p H.
    assert (H' : forall c' t0, tasks w !! c' = Some t0 -> t_rl t0 <> p).
    { intros c' t0 G. destruct (B _ _ G) as (t' & G' & <-). eapply H, G'. }
    assert (Hp : p <> t_rl t) by (intros ->; exact (H' _ _ Hc eq_refl)).
    destruct (K4 p H') as [Hs Hr].
    rewrite scan_app, Hs, (scan_only_for _ _ _ _ Hev Hp).
    unfold rotations in *.
    rewrite count_app, Hr, (rotations_only_for _ _ _ Hev Hp). auto.
  - intros c' t' H. destruct (A _ _ H) as (t0 & H0 & E1 & E2 & [(-> & -> & ->)|(Hne & ->)]).
    + specialize (K5 _ _ Hc). unfold rotations, received in *.
      rewrite Hrl, Hno, !count_app, (received_only_for _ _ _ Hev). lia.
    + assert (Hp : t_rl t0 <> t_rl t)
        by (intros E; apply Hne; eapply K2; eassumption).
      specialize (K5 _ _ H0). unfold rotations, received in *.
      rewrite !count_app, (rotations_only_for _ _ _ Hev Hp),
        (received_only_for _ _ _ Hev). lia.
  - intros c' t' H. destruct (A _ _ H) as (t0 & H0 & _ & _ & [(-> & -> & ->)|(Hne & ->)]).
    + specialize (K6 _ _ Hc). lia.
    + eapply K6, H0.
  - exact Hval.
Qed.

Lemma relay_fields s t :
  t_rl (relay s t) = t_rl t /\ t_notify (relay s t) = t_notify t
  /\ t_pc (relay s t) = t_pc t
  /\ length (t_sigs (relay s t))
     <= length (t_sigs t) + (if bool_decide (t_notify t = s) then 1 else 0)
  /\ (length (t_sigs t) <= sigs_cap -> length (t_sigs (relay s t)) <= sigs_cap).
Proof.
  unfold relay. destruct (bool_decide (t_notify t = s)); cbn [andb].
  - destruct (Nat.ltb (length (t_sigs t)) sigs_cap) eqn:E;
      cbn [t_rl t_notify t_pc t_sigs with_sigs]; repeat split; try lia.
    + rewrite length_app. cbn. lia.
    + intros _. apply Nat.ltb_lt in E. rewrite length_app. cbn [length]. lia.
  - repeat split; lia.
Qed.

Lemma scan_snoc_signal p tr s : scan p (tr ++ [EvSignal s]) = scan p tr.
Proof. rewrite scan_app. cbn. destruct (scan p tr); reflexivity. Qed.

Lemma tasks_inv_deliver s w :
  tasks_inv w ->
  tasks_inv (emit (EvSignal s) (set_tasks (relay s <$> tasks w) w)).
Proof.
  intros [K1 K2 K3 K4 K5 K6 K7].
  assert (A : forall c t', (relay s <$> tasks w) !! c = Some t' ->
            exists t0, tasks w !! c = Some t0 /\ t' = relay s t0).
  { intros c t' H. rewrite list_lookup_fmap in H.
    destruct (tasks w !! c) as [t0|]; [|discriminate].
    injection H as <-. eauto. }
  split; wsimpl.
  - intros c t' H. destruct (A _ _ H) as (t0 & H0 & ->).
    destruct (relay_fields s t0) as (-> & _ & -> & _).
    rewrite scan_snoc_signal. eapply K1, H0.
  - intros c1 c2 t1 t2 H1 H2 E.
    destruct (A _ _ H1) as (a1 & G1 & ->).
    destruct (A _ _ H2) as (a2 & G2 & ->).
    destruct (relay_fields s a1) as (E1 & _).
    destruct (relay_fields s a2) as (E2 & _).
    eapply K2; [exact G1 | exact G2 | congruence].
  - intros c t' H. destruct (A _ _ H) as (t0 & H0 & ->).
    destruct (relay_fields s t0) as (-> & -> & _). eapply K3, H0.
  - intros p H. rewrite scan_snoc_signal. unfold rotations.
    rewrite count_app. cbn.
    assert (H' : forall c t0, tasks w !! c = Some t0 -> t_rl t0 <> p).
    { intros c t0 G. destruct (relay_fields s t0) as (<- & _).
      eapply (H c). rewrite list_lookup_fmap, G. reflexivity. }
    destruct (K4 p H') as [-> Hr]. unfold rotations in Hr. rewrite Hr. auto.
  - intros c t' H. destruct (A _ _ H) as (t0 & H0 & ->).
    destruct (relay_fields s t0) as (-> & -> & _ & Hl & _).
    specialize (K5 _ _ H0). unfold rotations, received in *.
    rewrite !count_app. unfold count at 2 4. cbn.
    destruct (bool_decide (t_notify t0 = s)) eqn:E.
    + apply bool_decide_eq_true_1 in E.
      rewrite (bool_decide_eq_true_2 (s = t_notify t0)) by congruence.
      cbn. lia.
    + destruct (bool_decide (s = t_notify t0)); cbn; lia.
  - intros c t' H. destruct (A _ _ H) as (t0 & H0 & ->).
    apply relay_fields. eapply K6, H0.
  - exact K7.
Qed.

Lemma tasks_inv_spawn w p sig rl :
  tasks_inv w ->
  (forall c t, tasks w !! c = Some t -> t_rl t <> p) ->
  ctrls w !! p = Some rl ->
  signal rl = sig ->
  tasks_inv (set_tasks (tasks w ++ [mkTask p sig [] Waiting]) w).
Proof.
  intros [K1 K2 K3 K4 K5 K6 K7] Hfresh Hp Hsig.
  destruct (K4 p Hfresh) as [Hscan Hrot].
  assert (A : forall c t, (tasks w ++ [mkTask p sig [] Waiting]) !! c = Some t ->
            tasks w !! c = Some t
            \/ (c = length (tasks w) /\ t = mkTask p sig [] Waiting)).
  { intros c t H. apply lookup_app_Some in H as [H|[Hge H]]; [auto|].
    right. apply list_lookup_singleton_Some in H as [H <-].
    split; [lia | reflexivity]. }
  split; wsimpl.
  - intros c t H. destruct (A _ _ H) as [H0|[-> ->]]; [eapply K1, H0|].
    exact Hscan.
  - intros c1 c2 t1 t2 H1 H2 E.
    destruct (A _ _ H1) as [G1|[-> ->]], (A _ _ H2) as [G2|[-> ->]].
    + eapply K2; eassumption.
    + exfalso. eapply Hfresh; [exact G1 | exact E].
    + exfalso. eapply Hfresh; [exact G2 | symmetry; exact E].
    + reflexivity.
  - intros c t H. destruct (A _ _ H) as [H0|[-> ->]]; [eapply K3, H0|].
    exists rl. auto.
  - intros q H. apply K4. intros c t G. eapply (H c).
    apply lookup_app_l_Some, G.
  - intros c t H. destruct (A _ _ H) as [H0|[-> ->]]; [eapply K5, H0|].
    cbn. rewrite Hrot. lia.
  - intros c t H. destruct (A _ _ H) as [H0|[-> ->]]; [eapply K6, H0|].
    cbn. unfold sigs_cap. lia.
  - exact K7.
Qed.

Lemma handles_valid_same w w' :
  ctrls w' = ctrls w -> length (fobjs w') = length (fobjs w) ->
  handles_valid w -> handles_valid w'.
Proof.
  intros Ec El H p rl h Hp Hh. rewrite Ec in Hp. rewrite El. eapply H; eassumption.
Qed.

Lemma tasks_inv_new_ctrl rl w :
  tasks_inv w ->
  (forall h, logFile rl = Some h -> h < length (fobjs w)) ->
  tasks_inv (set_ctrls (ctrls w ++ [rl]) w).
Proof.
  intros [K1 K2 K3 K4 K5 K6 K7] Hrl. split; wsimpl; auto.
  - intros c t H. destruct (K3 c t H) as (r & Hr & Hs).
    exists r. split; [apply lookup_app_l_Some, Hr | exact Hs].
  - intros p r h Hp Hh. apply lookup_app_Some in Hp as [Hp|[_ Hp]].
    + eapply K7; eassumption.
    + apply list_lookup_singleton_Some in Hp as [_ <-]. apply Hrl, Hh.
Qed.

Lemma quiet_setOutput_events rl : forallb quiet (setOutput_events rl) = true.
Proof.
  unfold setOutput_events. induction (targets rl) as [|t ts IH]; [reflexivity|].
  cbn. exact IH.
Qed.

Lemma tasks_inv_started file sig ls w :
  tasks_inv w -> tasks_inv (started file sig ls w).
Proof.
  intros HK.
  set (rl := mkLogRot file (Some (length (fobjs w))) sig
                      (Some (length (tasks w))) ls false false).
  set (w1 := redirected rl (reopened file w)).
  assert (Hq : quiet_step w w1).
  { split; [reflexivity|]. split; [|split].
    - exists ([EvOpenFile file open_flag open_perm (Some (length (fobjs w)));
               EvRegister file (length (fobjs w))] ++ setOutput_events rl).
      split; [unfold w1; wsimpl; rewrite <- app_assoc; reflexivity|].
      rewrite forallb_app, quiet_setOutput_events. reflexivity.
    - apply ctrl_evolves_same. reflexivity.
    - split; [unfold w1; wsimpl; rewrite length_app; lia|].
      intros p r H. right. exists r. auto. }
  assert (E : started file sig ls w
              = set_tasks (tasks w1 ++ [mkTask (length (ctrls w)) sig [] Waiting])
                  (set_ctrls (ctrls w1 ++ [rl]) w1))
    by (apply world_ext; reflexivity).
  rewrite E.
  apply (tasks_inv_spawn (set_ctrls (ctrls w1 ++ [rl]) w1)
           (length (ctrls w)) sig rl).
  - apply tasks_inv_new_ctrl; [eapply tasks_inv_quiet; eassumption|].
    intros h Hh. injection Hh as <-. unfold w1. wsimpl.
    rewrite length_app. cbn. lia.
  - intros c t H E'. destruct (inv_ctrl _ HK c t H) as (r & Hr & _).
    apply lookup_lt_Some in Hr. wsimpl. lia.
  - wsimpl. apply list_lookup_middle. reflexivity.
  - reflexivity.
Qed.

#[local] Instance quiet_step_preorder : PreOrder quiet_step.
Proof.
  split.
  - intros w. split; [reflexivity|]. split; [reflexivity|].
    split; [reflexivity|]. split; [lia|].
    intros p rl H. right. exists rl. auto.
  - intros a b c (T1 & A1 & C1 & L1 & F1) (T2 & A2 & C2 & L2 & F2).
    split; [congruence|]. split; [etransitivity; eassumption|].
    split; [etransitivity; eassumption|]. split; [lia|].
    intros p rl H. destruct (F2 p rl H) as [Hn|(r1 & H1 & E1)]; [auto|].
    destruct (F1 p r1 H1) as [Hn|(r0 & H0 & E0)].
    + left. congruence.
    + right. exists r0. split; [exact H0 | congruence].
Qed.

Lemma files_kept_same w w' :
  ctrls w' = ctrls w -> length (fobjs w) <= length (fobjs w') ->
  files_kept w w'.
Proof.
  intros Ec El. split; [exact El|]. intros p rl H. right. exists rl.
  rewrite <- Ec. auto.
Qed.

Ltac files_leaf :=
  apply files_kept_same; [reflexivity|]; wsimpl;
  try match goal with
      | |- context [match ?d with Some _ => _ | None => _ end] => destruct d
      end;
  rewrite ?length_alter, ?length_app; lia.

Ltac quiet_leaf :=
  split; [reflexivity | split; [appends_leaf | split; [ctrl_leaf | files_leaf]]].

Lemma mustOpenFileForAppend_quiet file : rel quiet_step (mustOpenFileForAppend file).
Proof.
  intros w. split; [|split].
  - destruct (openErr w file) as [e|] eqn:Ho.
    + rewrite (mustOpenFileForAppend_err _ _ _ Ho). reflexivity.
    + rewrite (mustOpenFileForAppend_ok _ _ Ho). reflexivity.
  - eapply mustOpenFileForAppend_appends; reflexivity.
  - split; [apply mustOpenFileForAppend_ctrl|].
    destruct (openErr w file) as [e|] eqn:Ho.
    + rewrite (mustOpenFileForAppend_err _ _ _ Ho). files_leaf.
    + rewrite (mustOpenFileForAppend_ok _ _ Ho). files_leaf.
Qed.

Lemma new_LogRot_quiet rl : logFile rl = None -> rel quiet_step (new_LogRot rl).
Proof.
  intros Hn w. split; [reflexivity|]. split; [|split].
  - apply new_LogRot_appends.
  - apply new_LogRot_ctrl.
  - split; [reflexivity|]. cbn. intros p r H.
    apply lookup_app_Some in H as [H|[_ H]].
    + right. exists r. auto.
    + apply list_lookup_singleton_Some in H as [_ <-]. left. exact Hn.
Qed.

Lemma update_quiet p f :
  (forall rl, name (f rl) = name rl /\ signal (f rl) = signal rl
              /\ quit (f rl) = quit rl /\ loggers (f rl) = loggers rl
              /\ (captureStdout rl = true -> captureStdout (f rl) = true)
              /\ (captureStderr rl = true -> captureStderr (f rl) = true)) ->
  (forall rl, logFile (f rl) = logFile rl) ->
  rel quiet_step (update p f).
Proof.
  intros Hf Hl w. split; [|split; [|split]].
  - unfold update, bind, deref, modify. destruct (ctrls w !! p); reflexivity.
  - apply update_appends.
  - apply update_ctrl, Hf.
  - unfold update, bind, deref, modify.
    destruct (ctrls w !! p) as [r0|] eqn:Hp; cbn [world_of];
      [|apply files_kept_same; [reflexivity | lia]].
    split; [reflexivity|]. wsimpl. intros q r Hq. right.
    destruct (decide (q = p)) as [->|Hne].
    + rewrite (lookup_ctrl_insert _ _ _ _ Hp) in Hq. injection Hq as <-.
      exists r0. auto.
    + rewrite list_lookup_insert_ne in Hq by congruence. exists r. auto.
Qed.

Ltac calm_leaf :=
  first [ apply mustOpenFileForAppend_quiet
        | apply new_LogRot_quiet; reflexivity
        | apply update_quiet; intros ?; cbn; [tauto | reflexivity]
        | quiet_leaf ].

Lemma Open_quiet file : rel quiet_step (Open file).
Proof.
  intros w. unfold Open. destruct (files w !! file); rel_go quiet_step_preorder calm_leaf.
Qed.

Lemma Capture_quiet p :
  rel quiet_step (CaptureStdout p) /\ rel quiet_step (CaptureStderr p).
Proof. split; unfold_pkg; rel_go quiet_step_preorder calm_leaf. Qed.

Lemma file_Close_quiet d : rel quiet_step (file_Close d).
Proof. unfold_pkg. rel_go quiet_step_preorder calm_leaf. Qed.

(** *** Invariants of returning computations *)

Lemma keeps_ret I {A} (a : A) : keeps I (ret a).
Proof. intros w b w' H E. injection E as _ <-. exact H. Qed.

Lemma keeps_bind I {A B} (m : M A) (k : A -> M B) :
  keeps I m -> (forall a, keeps I (k a)) -> keeps I (bind m k).
Proof.
  intros Hm Hk w b w' H E. unfold bind in E.
  destruct (m w) as [a w1| | |] eqn:Em; try discriminate.
  eapply Hk; [eapply Hm; eassumption | exact E].
Qed.

Lemma keeps_quiet {A} (m : M A) : rel quiet_step m -> keeps tasks_inv m.
Proof.
  intros Hm w a w' H E. specialize (Hm w). rewrite E in Hm.
  eapply tasks_inv_quiet; eassumption.
Qed.

(** *** The slices of the listener *)

Lemma listener_step_skip c t s q rl w :
  tasks w !! c = Some t ->
  t_pc t = Waiting ->
  t_sigs t = s :: q ->
  ctrls w !! t_rl t = Some rl ->
  (s =? signal rl)%Z = false ->
  listener_step c w = Ok tt (set_tasks (alter (with_sigs q) c (tasks w)) w).
Proof.
  intros Ht Hpc Hs Hrl Hne. unfold listener_step. rewrite Ht, Hpc, Hs.
  unfold bind, set_sigs, modify, deref. cbn [ctrls set_tasks].
  rewrite Hrl, Hne. reflexivity.
Qed.

Lemma listener_step_begin c t q rl w :
  tasks w !! c = Some t ->
  t_pc t = Waiting ->
  t_sigs t = signal rl :: q ->
  ctrls w !! t_rl t = Some rl ->
  openErr w (name rl) = None ->
  exists w',
    listener_step c w = Ok tt w'
    /\ tasks w' = alter (with_pc (Opened (logFile rl)) ∘ with_sigs q) c (tasks w)
    /\ trace w' = trace w ++
         [EvLog (log_out w) (MRotating (signal rl) (name rl));
          EvRotate (t_rl t);
          EvOpenFile (name rl) open_flag open_perm (Some (length (fobjs w)));
          EvRegister (name rl) (length (fobjs w))]
    /\ ctrls w' = <[t_rl t := with_logFile (Some (length (fobjs w))) rl]> (ctrls w)
    /\ fobjs w' = fobjs w ++ [mkFile (name rl) open_flag open_perm false].
Proof.
  intros Ht Hpc Hs Hrl Ho. unfold listener_step. rewrite Ht, Hpc, Hs.
  unfold bind at 1. unfold set_sigs at 1, modify at 1.
  unfold bind at 1. unfold deref at 1. cbn [ctrls set_tasks]. rewrite Hrl.
  rewrite Z.eqb_refl.
  unfold bind at 1. unfold log_Output at 1, modify at 1.
  unfold bind at 1. unfold modify at 1.
  unfold bind at 1. rewrite mustOpenFileForAppend_ok by exact Ho.
  unfold bind at 1. erewrite update_eq by (cbn; exact Hrl).
  unfold set_pc, modify. eexists. split; [reflexivity|].
  split; [cbn; apply list_alter_alter_eq|].
  split; [|split; reflexivity].
  wsimpl. rewrite <- !app_assoc. reflexivity.
Qed.

Lemma listener_step_end c t old w :
  tasks w !! c = Some t ->
  t_pc t = Redirected old ->
  listener_step c w =
  Ok tt (set_tasks (alter (with_pc Waiting) c (tasks w))
           (emit (EvRotated (t_rl t)) (closed old w))).
Proof.
  intros Ht Hpc. unfold listener_step. rewrite Ht, Hpc. reflexivity.
Qed.

Lemma listener_step_keeps c : keeps tasks_inv (listener_step c).
Proof.
  intros w [] w' HK E.
  pose proof (listener_step_ctrl c w) as Hctl. rewrite E in Hctl.
  cbn [world_of] in Hctl.
  destruct (tasks w !! c) as [t|] eqn:Ht;
    [| unfold listener_step in E; rewrite Ht in E; injection E as <-; exact HK].
  destruct (inv_ctrl _ HK c t Ht) as (rl & Hrl & Hsig).
  destruct (t_pc t) as [|old|old|] eqn:Hpc.
  - destruct (t_sigs t) as [|s q] eqn:Hs;
      [unfold listener_step in E; rewrite Ht, Hpc, Hs in E;
       injection E as <-; exact HK|].
    destruct (s =? signal rl)%Z eqn:Heq.
    + apply Z.eqb_eq in Heq. subst s.
      destruct (openErr w (name rl)) as [e|] eqn:Ho.
      * destruct (listener_step_err c t rl q e w Ht Hpc Hs Hrl Ho) as (x & Hx & _).
        rewrite Hx in E. discriminate.
      * destruct (listener_step_begin c t q rl w Ht Hpc Hs Hrl Ho)
          as (x & Hx & Htk & Htr & Hct & Hfo).
        rewrite Hx in E. injection E as <-.
        eapply (tasks_inv_alter w x c t _ _ HK Ht Htk).
        -- reflexivity.
        -- reflexivity.
        -- exact Htr.
        -- cbn. rewrite bool_decide_eq_true_2 by reflexivity. reflexivity.
        -- rewrite Hpc. cbn. rewrite bool_decide_eq_true_2 by reflexivity.
           reflexivity.
        -- unfold count. cbn. rewrite bool_decide_eq_true_2 by reflexivity.
           rewrite Hs. cbn. lia.
        -- exact Hctl.
        -- intros p r h Hp Hh. rewrite Hct in Hp. rewrite Hfo, length_app.
           destruct (decide (p = t_rl t)) as [->|Hne].
           ++ rewrite (lookup_ctrl_insert _ _ _ _ Hrl) in Hp.
              injection Hp as <-. injection Hh as <-. cbn. lia.
           ++ rewrite list_lookup_insert_ne in Hp by congruence.
              pose proof (inv_file _ HK p r h Hp Hh). lia.
    + rewrite (listener_step_skip c t s q rl w Ht Hpc Hs Hrl Heq) in E.
      injection E as <-.
      apply (tasks_inv_alter w _ c t (with_sigs q) [] HK Ht).
      * reflexivity.
      * reflexivity.
      * reflexivity.
      * cbn. rewrite app_nil_r. reflexivity.
      * reflexivity.
      * reflexivity.
      * rewrite Hs. cbn. lia.
      * exact Hctl.
      * apply (handles_valid_same w);
        [reflexivity | reflexivity | exact (inv_file _ HK)].
  - rewrite (listener_step_Opened c t old rl w Ht Hpc Hrl) in E.
    injection E as <-.
    apply (tasks_inv_alter w _ c t (with_pc (Redirected old))
             (setOutput_events rl) HK Ht).
    + reflexivity.
    + reflexivity.
    + reflexivity.
    + reflexivity.
    + apply quiet_only_for, quiet_setOutput_events.
    + rewrite scan_quiet by apply quiet_setOutput_events. rewrite Hpc.
      reflexivity.
    + rewrite rotations_quiet by apply quiet_setOutput_events. cbn. lia.
    + exact Hctl.
    + apply (handles_valid_same w);
        [reflexivity | reflexivity | exact (inv_file _ HK)].
  - rewrite (listener_step_end c t old w Ht Hpc) in E. injection E as <-.
    apply (tasks_inv_alter w _ c t (with_pc Waiting)
             [EvClose old; EvRotated (t_rl t)] HK Ht).
    + reflexivity.
    + reflexivity.
    + reflexivity.
    + wsimpl. rewrite <- app_assoc. reflexivity.
    + cbn. rewrite bool_decide_eq_true_2 by reflexivity. reflexivity.
    + rewrite Hpc. cbn. rewrite bool_decide_eq_true_2 by reflexivity.
      reflexivity.
    + unfold count. cbn. lia.
    + exact Hctl.
    + apply (handles_valid_same w); [reflexivity | | exact (inv_file _ HK)].
      wsimpl. destruct old; [apply length_alter | reflexivity].
  - unfold listener_step in E. rewrite Ht, Hpc in E. injection E as <-. exact HK.
Qed.

Lemma set_pc_idle_keeps c t s w :
  tasks_inv w ->
  tasks w !! c = Some t ->
  in_rotate (t_pc t) = in_rotate s ->
  tasks_inv (set_tasks (alter (with_pc s) c (tasks w)) w).
Proof.
  intros HK Ht Hs.
  apply (tasks_inv_alter w _ c t (with_pc s) [] HK Ht).
  - reflexivity.
  - reflexivity.
  - reflexivity.
  - cbn. rewrite app_nil_r. reflexivity.
  - reflexivity.
  - cbn. rewrite Hs. reflexivity.
  - cbn. lia.
  - apply ctrl_evolves_same. reflexivity.
  - apply (handles_valid_same w);
        [reflexivity | reflexivity | exact (inv_file _ HK)].
Qed.

Lemma send_quit_keeps q : keeps tasks_inv (send_quit q).
Proof.
  intros w [] w' HK E. unfold send_quit in E.
  destruct q as [c|]; [|discriminate].
  destruct (tasks w !! c) as [t|] eqn:Ht; [|discriminate].
  destruct (inv_ctrl _ HK c t Ht) as (rl & Hrl & _).
  destruct (t_pc t) as [|old|old|] eqn:Hpc; [| | |discriminate].
  - injection E as <-. eapply set_pc_idle_keeps; [exact HK | exact Ht |].
    rewrite Hpc. reflexivity.
  - unfold bind in E.
    destruct (listener_step c w) as [[] w1| | |] eqn:E1; try discriminate.
    pose proof (listener_step_keeps c _ _ _ HK E1) as HK1.
    rewrite (listener_step_Opened c t old rl w Ht Hpc Hrl) in E1.
    injection E1 as <-.
    assert (Ht1 : tasks (set_tasks (alter (with_pc (Redirected old)) c (tasks w))
                           (redirected rl w)) !! c
                  = Some (with_pc (Redirected old) t))
      by (cbn; rewrite list_lookup_alter_eq, Ht; reflexivity).
    rewrite (listener_step_end c _ old _ Ht1 eq_refl) in E.
    pose proof (listener_step_keeps c _ _ _ HK1
                  (listener_step_end c _ old _ Ht1 eq_refl)) as HK2.
    injection E as <-.
    eapply set_pc_idle_keeps
      with (t := with_pc Waiting (with_pc (Redirected old) t));
      [exact HK2 | | reflexivity].
    cbn. rewrite list_lookup_alter_eq, list_lookup_alter_eq, Ht. reflexivity.
  - unfold bind in E.
    rewrite (listener_step_end c t old w Ht Hpc) in E.
    pose proof (listener_step_keeps c _ _ _ HK
                  (listener_step_end c t old w Ht Hpc)) as HK1.
    injection E as <-.
    eapply set_pc_idle_keeps with (t := with_pc Waiting t);
      [exact HK1 | | reflexivity].
    cbn. rewrite list_lookup_alter_eq, Ht. reflexivity.
Qed.

Lemma deref_keeps I p : keeps I (deref p).
Proof.
  intros w a w' H E. unfold deref in E.
  destruct (ctrls w !! p); [injection E as _ <-; exact H | discriminate].
Qed.

Lemma Close_keeps rl : keeps tasks_inv (Close rl).
Proof.
  unfold Close. destruct rl as [p|]; [|apply keeps_ret].
  apply keeps_bind; [apply deref_keeps|]. intros r.
  destruct (logFile r); [|apply keeps_ret].
  apply keeps_bind; [apply send_quit_keeps|]. intros _.
  apply keeps_bind; [apply deref_keeps|]. intros r'.
  apply keeps_quiet, file_Close_quiet.
Qed.

Lemma rotateOn_keeps file sig ls : keeps tasks_inv (rotateOn file sig ls).
Proof.
  intros w a w' HK E. destruct (openErr w file) as [e|] eqn:Ho.
  - rewrite (rotateOn_err _ _ _ _ _ Ho) in E. discriminate.
  - rewrite (rotateOn_eq _ _ _ _ Ho) in E. injection E as _ <-.
    apply tasks_inv_started, HK.
Qed.

Lemma step_keeps o : keeps tasks_inv (step o).
Proof.
  destruct o; cbn [step].
  - apply keeps_quiet, rel_forget; [apply quiet_step_preorder | apply Open_quiet].
  - apply keeps_bind; [apply rotateOn_keeps | intros; apply keeps_ret].
  - apply keeps_bind; [|intros; apply keeps_ret].
    unfold WriteAllTo.
    apply keeps_bind; [apply rotateOn_keeps|]. intros lr.
    apply keeps_bind; [apply keeps_quiet, Capture_quiet|]. intros _.
    apply keeps_bind; [apply keeps_quiet, Capture_quiet|]. intros _.
    apply keeps_ret.
  - apply Close_keeps.
  - apply keeps_quiet, Capture_quiet.
  - apply keeps_quiet, Capture_quiet.
  - apply keeps_quiet, rel_forget;
      [apply quiet_step_preorder | apply new_LogRot_quiet; reflexivity].
  - intros w [] w' HK E. injection E as <-. apply tasks_inv_deliver, HK.
  - apply listener_step_keeps.
  - apply keeps_quiet. apply rel_modify. intros w. quiet_leaf.
Qed.

Lemma run_keeps ops : keeps tasks_inv (run ops).
Proof.
  induction ops as [|o ops IH]; cbn [run].
  - apply keeps_ret.
  - apply keeps_bind; [apply step_keeps | intros _; exact IH].
Qed.

Lemma task_of_dec (ts : list Task) p :
  (exists c t, ts !! c = Some t /\ t_rl t = p)
  \/ (forall c t, ts !! c = Some t -> t_rl t <> p).
Proof.
  induction ts as [|t ts IH].
  - right. intros c t H. discriminate.
  - destruct (decide (t_rl t = p)) as [E|Hne].
    + left. exists 0, t. auto.
    + destruct IH as [(c & t' & H & E)|IH].
      * left. exists (S c), t'. auto.
      * right. intros [|c] t' H; [injection H as <-; exact Hne|].
        eapply IH, H.
Qed.

(** The listener runs [rotate]: three slices from the [select], with the
    controller's signal pending, print the notice and do what [rotate]
    does. *)
Lemma listener_runs_rotate c t q rl w :
  tasks w !! c = Some t ->
  t_pc t = Waiting ->
  t_sigs t = signal rl :: q ->
  ctrls w !! t_rl t = Some rl ->
  openErr w (name rl) = None ->
  exists w1 w3,
    (set_sigs c q ;;;
     log_Output (MRotating (signal rl) (name rl)) ;;;
     rotate (t_rl t)) w = Ok tt w1
    /\ (listener_step c ;;; listener_step c ;;; listener_step c) w = Ok tt w3
    /\ w3 = set_tasks (alter (with_pc Waiting ∘ with_pc (Redirected (logFile rl))
                              ∘ with_pc (Opened (logFile rl))) c (tasks w1)) w1.
Proof.
  intros Ht Hpc Hs Hrl Ho.
  eexists _, _. split; [|split].
  - unfold bind at 1. unfold set_sigs at 1, modify at 1.
    unfold bind at 1. unfold log_Output at 1, modify at 1.
    erewrite rotate_eq by (cbn; eassumption). reflexivity.
  - unfold bind at 1. unfold listener_step at 1. rewrite Ht, Hpc, Hs.
    unfold bind at 1. unfold set_sigs at 1, modify at 1.
    unfold bind at 1. unfold deref at 1. cbn [ctrls set_tasks]. rewrite Hrl.
    rewrite Z.eqb_refl.
    unfold bind at 1. unfold log_Output at 1, modify at 1.
    unfold bind at 1. unfold modify at 1.
    unfold bind at 1. rewrite mustOpenFileForAppend_ok by exact Ho.
    unfold bind at 1. erewrite update_eq by (cbn; exact Hrl).
    unfold set_pc at 1, modify at 1.
    unfold bind at 1.
    erewrite listener_step_Opened;
      [ | cbn; rewrite !list_lookup_alter_eq, Ht; reflexivity
        | reflexivity
        | cbn; eapply lookup_ctrl_insert, Hrl ].
    erewrite listener_step_end;
      [ | cbn; rewrite !list_lookup_alter_eq, Ht; reflexivity
        | reflexivity ].
    reflexivity.
  - apply world_ext; wsimpl; try reflexivity.

    rewrite !list_alter_alter_eq. reflexivity.
Qed.

(** In every run, the file of every controller is an allocated
    [os.File]: the assumption under which a rotation was analysed
    holds whenever a rotation begins. *)
Lemma run_handles_valid ops oe w :
  run ops (init oe) = Ok tt w -> handles_valid w.
Proof.
  intros Hrun. eapply inv_file, run_keeps, Hrun. apply tasks_inv_init.
Qed.

(** The rotation of the earlier variants runs the same three steps in
    the same order: reopen, [log.SetOutput], close the old file. *)
Lemma Legacy_on_signal_order rl w :
  openErr w (Legacy.name rl) = None ->
  let f := length (fobjs w) in
  exists w',
    Legacy.on_signal (Legacy.signal rl) rl w
    = Ok (Legacy.mkLogRot (Legacy.name rl) (Some f) (Legacy.signal rl)) w'
    /\ trace w' = trace w ++
         [EvLog (log_out w) (MRotating (Legacy.signal rl) (Legacy.name rl));
          EvOpenFile (Legacy.name rl) open_flag open_perm (Some f);
          EvSetOutput TLog (Some f);
          EvClose (Legacy.logFile rl)]
    /\ log_out w' = Some f.
Proof.
  intros Ho. unfold Legacy.on_signal. rewrite Z.eqb_refl.
  unfold bind at 1. unfold log_Output at 1, modify at 1.
  unfold bind at 1.
  erewrite Legacy_mustOpenFileForAppend_ok by (cbn; exact Ho).
  eexists. split; [reflexivity|].
  split; [wsimpl; rewrite <- !app_assoc; reflexivity|].
  reflexivity.
Qed.

(** ** The properties at work on example processes *)

(** Three signals reach the process before the listener is scheduled:
    the first is put in the listener's channel, the other two find it
    full and are lost.  The listener then rotates once and waits again,
    with nothing pending: three signals, one rotation. *)
Lemma burst_rotates_once :
  returned (run burst (init no_errors)) = true
  /\ received syscall.SIGHUP (trace (world_of (run burst (init no_errors)))) = 3
  /\ rotations 0 (trace (world_of (run burst (init no_errors)))) = 1
  /\ tasks (world_of (run burst (init no_errors)))
     = [mkTask 0 syscall.SIGHUP [] Waiting]
  /\ rotations 0 (trace (world_of (run burst (init no_errors))))
     <> received syscall.SIGHUP (trace (world_of (run burst (init no_errors)))).
Proof.
  split; [vm_compute; reflexivity|].
  split; [vm_compute; reflexivity|].
  split; [vm_compute; reflexivity|].
  split; [vm_compute; reflexivity|].
  vm_compute. discriminate.
Qed.

Lemma rotate_switches_before_closing_witness :
  exists w', rotate 0 app_started = Ok tt w'
             /\ is_open w' (Some 4) = true
             /\ is_open w' (Some 3) = false
             /\ targets_open app_rl w' = true.
Proof.
  destruct (rotate_switches_before_closing 0 app_rl app_started)
    as (_ & _ & _ & Hr & _ & _ & _ & _ & _ & _ & _ & _ & _ & Ho & Hc & _ & Hall).
  - reflexivity.
  - reflexivity.
  - intros old H. injection H as <-. cbn. lia.
  - eexists. split; [exact Hr|]. split; [exact Ho|]. split; [exact Hc|].
    apply Hall. reflexivity.
Defined.

Lemma Open_returns_latest_registered_witness :
  Open "app.log" (world_of (run one_rotation (init no_errors)))
  = Ok 4 (world_of (run one_rotation (init no_errors))).
Proof.
  assert (Hrun : run one_rotation (init no_errors)
                 = Ok tt (world_of (run one_rotation (init no_errors))))
    by (vm_compute; reflexivity).
  destruct (Open_returns_latest_registered one_rotation no_errors _
              "app.log" Hrun) as (_ & _ & H).
  assert (E : last_registered "app.log"
                (trace (world_of (run one_rotation (init no_errors))))
              = Some 4)
    by (vm_compute; reflexivity).
  rewrite E in H. exact H.
Defined.

Lemma open_failure_is_fatal_witness :
  exists w', WriteTo "app.log" [] (init denied) = Exit 1 w'
             /\ last (trace w')
                = Some (EvLog (Some 2) (MFatalf "error: " "permission denied")).
Proof.
  destruct (open_failure_is_fatal "app.log" (init denied))
    as ((_ & _ & _ & H & _) & _ & _).
  eexists. split; [apply H | reflexivity].
Defined.

Lemma setOutput_idempotent_witness :
  exists w1 w2,
    setOutput 0 app_started = Ok tt w1
    /\ setOutput 0 w1 = Ok tt w2
    /\ state_of w2 = state_of w1.
Proof.
  destruct (setOutput_idempotent 0 app_rl app_started)
    as (w1 & w2 & H1 & H2 & H3 & _).
  - reflexivity.
  - exists w1, w2. auto.
Defined.

Lemma capture_redirects_now_and_later_witness :
  exists w1, CaptureStdout 0 app_started = Ok tt w1
             /\ os_Stdout w1 = Some 3
             /\ (forall w3, rotate 0 w1 = Ok tt w3 -> os_Stdout w3 = Some 4).
Proof.
  destruct (capture_redirects_now_and_later 0 app_rl app_started)
    as (w1 & w1' & H1 & H2 & _ & _ & _ & _ & H3 & _).
  - reflexivity.
  - exists w1. split; [exact H1|]. split; [exact H2|].
    intros w3 Hr. destruct (H3 [] w1 w3 eq_refl Hr) as [Hs _].
    rewrite Hs. f_equal.
    rewrite (CaptureStdout_eq 0 app_rl) in H1 by reflexivity.
    injection H1 as <-. reflexivity.
Defined.

Lemma every_open_is_append_create_witness :
  create_append_wronly 1089 = true /\ perm_string 420 = "rw-r--r--".
Proof.
  destruct (every_open_is_append_create one_rotation no_errors
              "app.log" 1089 420 (Some 4))
    as (_ & _ & H1 & H2 & _).
  - vm_compute. do 7 right. left.
  - split; [exact H1 | exact H2].
Defined.

Lemma rotate_replaces_only_logFile_witness :
  exists w' rl',
    rotate 0 app_started = Ok tt w'
    /\ ctrls w' !! 0 = Some rl'
    /\ logFile rl' = Some 4
    /\ name rl' = "app.log"
    /\ loggers rl' = [7].
Proof.
  assert (Hr := rotate_eq 0 app_rl app_started eq_refl eq_refl).
  destruct (rotate_replaces_only_logFile 0 app_rl app_started _ eq_refl Hr)
    as (rl' & H1 & H2 & H3 & _ & _ & H4 & _).
  eexists _, rl'. split; [exact Hr|]. auto.
Defined.

Lemma Close_leaves_stale_handle_witness :
  exists w',
    Close (Some 0) app_started = Ok tt w'
    /\ Open "app.log" w' = Ok 3 w'
    /\ is_open w' (Some 3) = false
    /\ log_out w' = Some 3.
Proof.
  destruct (Close_leaves_stale_handle 0 app_rl 3 0
              (mkTask 0 syscall.SIGHUP [] Waiting) app_started)
    as (w' & Hc & _ & Hcl & _ & _ & _ & Hlog & _ & _ & _ & _ & Hopen & _);
    try reflexivity.
  exists w'. split; [exact Hc|].
  split; [apply Hopen; reflexivity|].
  split; [exact Hcl|]. rewrite Hlog. reflexivity.
Defined.

(** ** Further properties of the package *)

(** *** Starting a controller *)

Lemma insert_last {A} (l : list A) (x y : A) :
  <[length l := y]> (l ++ [x]) = l ++ [y].
Proof.
  rewrite insert_app_r_alt by lia. rewrite Nat.sub_diag. reflexivity.
Qed.

Lemma started_trace file sig ls w :
  trace (started file sig ls w) =
  trace w
  ++ [EvOpenFile file open_flag open_perm (Some (length (fobjs w)));
      EvRegister file (length (fobjs w));
      EvSetOutput TLog (Some (length (fobjs w)))]
  ++ map (fun l => EvSetOutput (TLogger l) (Some (length (fobjs w)))) ls.
Proof.
  unfold started. wsimpl. unfold setOutput_events, targets.
  cbn [captureStdout captureStderr loggers logFile map app].
  rewrite !app_nil_r, List.map_map, <- app_assoc. reflexivity.
Qed.

(** X1.  [WriteTo] on a name that can be opened returns a new controller for
    a newly opened file: the controller has the name, SIGHUP, the
    loggers given and both capture flags off; the file is registered
    under the name; the standard logger and each logger given write to
    it; [os.Stdout] and [os.Stderr] are not touched; the listener waits
    at its [select] with nothing pending; and [Open] of the name now
    returns the controller's file. *)
Theorem WriteTo_starts_controller (file : string) (ls : list logger) (w : World) :
  openErr w file = None ->
  let f := length (fobjs w) in
  let p := length (ctrls w) in
  exists w',
    WriteTo file ls w = Ok p w'
    /\ ctrls w' = ctrls w ++ [mkLogRot file (Some f) syscall.SIGHUP
                                (Some (length (tasks w))) ls false false]
    /\ tasks w' = tasks w ++ [mkTask p syscall.SIGHUP [] Waiting]
    /\ fobjs w' = fobjs w ++ [mkFile file open_flag open_perm false]
    /\ is_open w' (Some f) = true
    /\ files w' = <[file := f]> (files w)
    /\ log_out w' = Some f
    /\ (forall l, l ∈ ls -> logger_out w' !! l = Some (Some f))
    /\ (forall l, l ∉ ls -> logger_out w' !! l = logger_out w !! l)
    /\ os_Stdout w' = os_Stdout w
    /\ os_Stderr w' = os_Stderr w
    /\ Open file w' = Ok f w'
    /\ trace w' =
         trace w
         ++ [EvOpenFile file open_flag open_perm (Some f);
             EvRegister file f; EvSetOutput TLog (Some f)]
         ++ map (fun l => EvSetOutput (TLogger l) (Some f)) ls.
Proof.
  intros Ho f p. exists (started file syscall.SIGHUP ls w).
  split; [apply rotateOn_eq, Ho|].
  repeat (split; [reflexivity|]).
  split; [eapply is_open_fresh; reflexivity|].
  repeat (split; [reflexivity|]).
  split; [intros l Hl; cbn; apply redirect_loggers_in, Hl|].
  split; [intros l Hl; cbn; apply redirect_loggers_notin, Hl|].
  repeat (split; [reflexivity|]).
  split; [|apply started_trace].
  unfold Open. cbn [files started set_tasks redirected reopened set_ctrls].
  rewrite lookup_insert_eq. reflexivity.
Qed.

(** X2.  [WriteAllTo] is [WriteTo] followed by both captures: the controller
    it returns has both capture flags set, and the standard logger,
    [os.Stdout] and [os.Stderr] all write to the newly opened file.
    Compared with [WriteTo] alone only the two streams, the two flags
    and the trace differ. *)
Theorem WriteAllTo_captures_both (file : string) (ls : list logger) (w : World) :
  openErr w file = None ->
  let f := length (fobjs w) in
  let p := length (ctrls w) in
  exists w0 w',
    WriteTo file ls w = Ok p w0
    /\ WriteAllTo file ls w = Ok p w'
    /\ (CaptureStdout p ;;; CaptureStderr p) w0 = Ok tt w'
    /\ ctrls w' = ctrls w ++ [mkLogRot file (Some f) syscall.SIGHUP
                                (Some (length (tasks w))) ls true true]
    /\ os_Stdout w' = Some f
    /\ os_Stderr w' = Some f
    /\ log_out w' = Some f
    /\ is_open w' (Some f) = true
    /\ files w' = files w0
    /\ fobjs w' = fobjs w0
    /\ tasks w' = tasks w0
    /\ logger_out w' = logger_out w0
    /\ trace w' = trace w0 ++ [EvSetOutput TStdout (Some f);
                               EvSetOutput TStderr (Some f)].
Proof.
  intros Ho f p.
  set (rl := mkLogRot file (Some f) syscall.SIGHUP (Some (length (tasks w)))
               ls false false).
  set (w0 := started file syscall.SIGHUP ls w).
  assert (H0 : ctrls w0 !! p = Some rl)
    by (cbn; apply list_lookup_middle; reflexivity).
  set (w1 := emit (EvSetOutput TStdout (logFile rl))
               (set_Stdout (logFile rl)
                  (set_ctrls (<[p := with_captureStdout true rl]> (ctrls w0)) w0))).
  assert (H1 : ctrls w1 !! p = Some (with_captureStdout true rl))
    by (eapply lookup_ctrl_insert, H0).
  assert (Hc : (CaptureStdout p ;;; CaptureStderr p) w0
               = Ok tt (emit (EvSetOutput TStderr (Some f))
                          (set_Stderr (Some f)
                             (set_ctrls
                                (<[p := with_captureStderr true
                                          (with_captureStdout true rl)]>
                                   (ctrls w1)) w1)))).
  { unfold bind. rewrite (CaptureStdout_eq _ _ _ H0).
    fold w1. rewrite (CaptureStderr_eq _ _ _ H1). reflexivity. }
  eexists w0, _.
  split; [apply rotateOn_eq, Ho|].
  split.
  { unfold WriteAllTo, WriteTo. unfold bind at 1.
    rewrite (rotateOn_eq _ _ _ _ Ho). fold w0. fold p.
    unfold bind. rewrite (CaptureStdout_eq _ _ _ H0).
    fold w1. rewrite (CaptureStderr_eq _ _ _ H1). reflexivity. }
  split; [exact Hc|].
  split.
  { cbn [ctrls emit set_trace set_Stderr set_ctrls]. unfold w1.
    cbn [ctrls emit set_trace set_Stdout set_ctrls].
    rewrite list_insert_insert_eq. unfold w0, p. cbn [ctrls started set_tasks redirected set_ctrls reopened].
    apply insert_last. }
  repeat (split; [reflexivity|]).
  split; [eapply is_open_fresh; reflexivity|].
  repeat (split; [reflexivity|]).
  cbn. rewrite <- !app_assoc. reflexivity.
Qed.

(** *** Open *)

Lemma Open_cases file w h w1 :
  Open file w = Ok h w1 ->
  (files w !! file = Some h /\ w1 = w)
  \/ (files w !! file = None /\ openErr w file = None
      /\ h = length (fobjs w) /\ w1 = reopened file w).
Proof.
  unfold Open. intros E. destruct (files w !! file) as [h0|] eqn:Hf.
  - injection E as <- <-. left. auto.
  - right. destruct (openErr w file) as [e|] eqn:Ho.
    + rewrite (mustOpenFileForAppend_err _ _ _ Ho) in E. discriminate.
    + rewrite (mustOpenFileForAppend_ok _ _ Ho) in E. injection E as <- <-.
      auto.
Qed.

(** X3.  [Open] of the same name twice returns the same handle, and the
    second call opens nothing and changes nothing: after a first [Open]
    the name is registered.  A name that is registered already is not
    opened even the first time. *)
Theorem Open_again_returns_same (file : string) (w : World) (h : handle)
    (w1 : World) :
  Open file w = Ok h w1 ->
  Open file w1 = Ok h w1
  /\ files w1 !! file = Some h
  /\ (files w !! file <> None -> w1 = w)
  /\ (files w !! file = None ->
      fobjs w !! h = None /\ is_open w1 (Some h) = true).
Proof.
  intros E.
  destruct (Open_cases _ _ _ _ E) as [(Hf & ->)|(Hf & Ho & -> & ->)].
  - unfold Open. rewrite Hf. repeat split; auto; congruence.
  - assert (Hr : files (reopened file w) !! file = Some (length (fobjs w)))
      by (cbn; apply lookup_insert_eq).
    split; [unfold Open; rewrite Hr; reflexivity|].
    split; [exact Hr|].
    split; [congruence|].
    intros _. split; [apply lookup_ge_None; lia|].
    eapply is_open_fresh. reflexivity.
Qed.

(** X4.  [Open] redirects nothing and closes nothing: the controllers, the
    listeners, the outputs of the standard logger and of the loggers,
    [os.Stdout] and [os.Stderr] are as before, the registry is as before
    for every other name, and every file that existed is as it was. *)
Theorem Open_touches_only_its_name (file : string) (w : World) (h : handle)
    (w1 : World) :
  Open file w = Ok h w1 ->
  (forall g, g <> file -> files w1 !! g = files w !! g)
  /\ ctrls w1 = ctrls w
  /\ tasks w1 = tasks w
  /\ (forall t, dest w1 t = dest w t)
  /\ (forall h', h' < length (fobjs w) -> fobjs w1 !! h' = fobjs w !! h')
  /\ (forall d, is_open w d = true -> is_open w1 d = true).
Proof.
  intros E.
  destruct (Open_cases _ _ _ _ E) as [(Hf & ->)|(Hf & Ho & -> & ->)].
  - repeat split; auto.
  - split; [intros g Hg; cbn; apply lookup_insert_ne; congruence|].
    repeat (split; [reflexivity|]).
    split; [intros h' Hh; cbn; apply lookup_app_l; exact Hh|].
    intros d. eapply is_open_grow. reflexivity.
Qed.

(** X5.  A file obtained from [Open] before a controller is started on the
    same name is not rotate-aware: [WriteTo] opens the name again and
    the controller, the registry and the standard logger use the new
    handle; the handle returned earlier stays open, and a rotation
    closes the controller's handle and leaves the earlier one open and
    out of the registry. *)
Theorem Open_before_WriteTo_is_not_rotated (file : string) (ls : list logger)
    (w : World) (h : handle) (w1 : World) :
  Open file w = Ok h w1 ->
  is_open w1 (Some h) = true ->
  openErr w1 file = None ->
  let f := length (fobjs w1) in
  let p := length (ctrls w1) in
  exists w2,
    WriteTo file ls w1 = Ok p w2
    /\ h <> f
    /\ (logFile <$> ctrls w2 !! p) = Some (Some f)
    /\ files w2 !! file = Some f
    /\ log_out w2 = Some f
    /\ is_open w2 (Some h) = true
    /\ (forall w3, rotate p w2 = Ok tt w3 ->
          is_open w3 (Some h) = true
          /\ is_open w3 (Some f) = false
          /\ files w3 !! file = Some (S f)
          /\ (logFile <$> ctrls w3 !! p) = Some (Some (S f))
          /\ log_out w3 = Some (S f)).
Proof.
  intros E Hopen Ho f p.
  assert (Hlt : h < f).
  { unfold is_open in Hopen. destruct (fobjs w1 !! h) eqn:Hh; [|discriminate].
    eapply lookup_lt_Some, Hh. }
  set (rl := mkLogRot file (Some f) syscall.SIGHUP (Some (length (tasks w1)))
               ls false false).
  set (w2 := started file syscall.SIGHUP ls w1).
  assert (Hp : ctrls w2 !! p = Some rl)
    by (cbn; apply list_lookup_middle; reflexivity).
  assert (H2 : is_open w2 (Some h) = true)
    by (eapply is_open_grow; [reflexivity | exact Hopen]).
  assert (Hlen : length (fobjs w2) = S f)
    by (cbn; rewrite length_app; cbn; unfold f; lia).
  exists w2.
  split; [apply rotateOn_eq, Ho|].
  split; [lia|].
  split; [rewrite Hp; reflexivity|].
  split; [cbn; apply lookup_insert_eq|].
  split; [reflexivity|].
  split; [exact H2|].
  intros w3 Hr.
  rewrite (rotate_eq p rl w2 Hp) in Hr by exact Ho.
  apply (f_equal world_of) in Hr. cbn [world_of] in Hr. subst w3.
  rewrite Hlen.
  split.
  { change (is_open (closed (Some f) (redirected (with_logFile (Some (S f)) rl)
                                         (rotate_reopened p rl w2))) (Some h) = true).
    rewrite is_open_closed_other by (intros [=]; lia).
    eapply is_open_grow; [reflexivity | exact H2]. }
  split.
  { change (is_open (closed (Some f) (redirected (with_logFile (Some (S f)) rl)
                                         (rotate_reopened p rl w2))) (Some f) = false).
    apply is_open_closed_self. }
  split.
  { cbn [files fobjs emit set_trace closed set_fobjs redirected rotate_reopened
         set_ctrls reopened]. rewrite Hlen. apply lookup_insert_eq. }
  split.
  { cbn [ctrls fobjs emit set_trace closed set_fobjs redirected rotate_reopened
         set_ctrls reopened].
    rewrite (lookup_ctrl_insert _ _ _ _ Hp), Hlen. reflexivity. }
  reflexivity.
Qed.

(** *** What a rotation does to the rest of the process *)

(** X6.  A rotation that returns registers the new file under the
    controller's name, so that [Open] of the name returns it, and adds
    one [os.File]; it leaves the registry as it was for every other
    name, the loggers that are not the controller's where they wrote,
    a stream that is not captured where it pointed, and every existing
    file but the controller's old one as it was. *)
Theorem rotate_leaves_the_rest (p : ptr) (rl : LogRot) (w w' : World) :
  ctrls w !! p = Some rl ->
  rotate p w = Ok tt w' ->
  let f := length (fobjs w) in
  files w' = <[name rl := f]> (files w)
  /\ Open (name rl) w' = Ok f w'
  /\ (forall l, l ∉ loggers rl -> logger_out w' !! l = logger_out w !! l)
  /\ (captureStdout rl = false -> os_Stdout w' = os_Stdout w)
  /\ (captureStderr rl = false -> os_Stderr w' = os_Stderr w)
  /\ openErr w' = openErr w
  /\ length (fobjs w') = S f
  /\ (forall h, logFile rl <> Some h -> h < f -> fobjs w' !! h = fobjs w !! h).
Proof.
  intros Hp Hr f. destruct (openErr w (name rl)) as [e|] eqn:Ho.
  - rewrite (rotate_err p rl e) in Hr by assumption. discriminate.
  - rewrite (rotate_eq p rl) in Hr by assumption. injection Hr as <-.
    split; [reflexivity|].
    split.
    { unfold Open.
      cbn [files emit set_trace closed set_fobjs redirected rotate_reopened
           set_ctrls reopened].
      rewrite lookup_insert_eq. reflexivity. }
    split; [intros l Hl; cbn; apply redirect_loggers_notin, Hl|].
    split; [intros E; cbn; rewrite E; reflexivity|].
    split; [intros E; cbn; rewrite E; reflexivity|].
    split; [reflexivity|].
    split.
    { cbn [fobjs emit set_trace closed set_fobjs redirected rotate_reopened
           set_ctrls reopened].
      destruct (logFile rl);
        rewrite ?length_alter, length_app; cbn; unfold f; lia. }
    intros h Hne Hlt.
    cbn [fobjs emit set_trace closed set_fobjs redirected rotate_reopened
         set_ctrls reopened].
    destruct (logFile rl) as [old|].
    + rewrite list_lookup_alter_ne by congruence. apply lookup_app_l, Hlt.
    + apply lookup_app_l, Hlt.
Qed.

Lemma open_after_close (l : list File) (h : handle) :
  length (List.filter (fun f => negb (f_closed f)) (alter mark_closed h l))
  + (match l !! h with
     | Some f => if f_closed f then 0 else 1
     | None => 0
     end)
  = length (List.filter (fun f => negb (f_closed f)) l).
Proof.
  revert h. induction l as [|x l IH]; intros h; [reflexivity|].
  destruct h as [|h].
  - cbn. destruct (f_closed x); cbn; lia.
  - cbn. specialize (IH h). destruct (f_closed x); cbn; [|f_equal]; exact IH.
Qed.

(** X7.  A rotation never leaks a file: it opens one file and closes the
    controller's old one, so the number of open files is what it was.
    Only when the old file was not open (it was closed before, or the
    controller had none) there is one open file more.  (That the
    controller's file is an allocated [os.File] holds in every run, see
    [run_handles_valid].) *)
Theorem rotate_keeps_open_count (p : ptr) (rl : LogRot) (w w' : World) :
  ctrls w !! p = Some rl ->
  (forall old, logFile rl = Some old -> old < length (fobjs w)) ->
  rotate p w = Ok tt w' ->
  open_count w' = if is_open w (logFile rl) then open_count w
                  else S (open_count w).
Proof.
  intros Hp Hold Hr. destruct (openErr w (name rl)) as [e|] eqn:Ho.
  - rewrite (rotate_err p rl e) in Hr by assumption. discriminate.
  - rewrite (rotate_eq p rl) in Hr by assumption. injection Hr as <-.
    unfold open_count, is_open.
    cbn [fobjs emit set_trace closed set_fobjs redirected rotate_reopened
         set_ctrls reopened].
    destruct (logFile rl) as [old|].
    + pose proof (open_after_close
                    (fobjs w ++ [mkFile (name rl) open_flag open_perm false]) old)
        as H.
      rewrite List.filter_app, length_app in H. cbn in H.
      destruct (lookup_lt_is_Some_2 (fobjs w) old (Hold old eq_refl)) as [x Hx].
      rewrite Hx. rewrite (lookup_app_l_Some _ _ _ _ Hx) in H.
      destruct (f_closed x); cbn; lia.
    + rewrite List.filter_app, length_app. cbn. lia.
Qed.

(** *** Close while a rotation is in flight *)

Lemma is_open_closed_false d d' w :
  is_open w d' = false -> is_open (closed d w) d' = false.
Proof.
  destruct d as [o|]; [|intros H; exact H].
  destruct d' as [h|]; [|reflexivity].
  unfold is_open, closed. wsimpl.
  destruct (decide (h = o)) as [->|Hne].
  - rewrite list_lookup_alter_eq. destruct (fobjs w !! o); cbn; auto.
  - rewrite list_lookup_alter_ne by congruence. auto.
Qed.

(** X8.  [Close] called while the listener is inside [rotate], with no
    further signal waiting in its channel, waits for the
    rotation to finish and then closes the file the rotation opened:
    the listener redirects (if it had not yet), closes the old file and
    returns from [rotate], takes the shutdown message and returns, and
    [Close] closes the controller's current file, which is the new one.
    Both the old and the new file end up closed, the targets of the
    controller point at the closed new file, and no other listener
    moves. *)
Theorem Close_finishes_rotation_in_flight (p : ptr) (rl : LogRot) (h : handle)
    (c : chan) (t : Task) (old : option handle) (w : World) :
  ctrls w !! p = Some rl ->
  logFile rl = Some h ->
  quit rl = Some c ->
  tasks w !! c = Some t ->
  t_rl t = p ->
  t_pc t = Opened old \/ t_pc t = Redirected old ->
  t_sigs t = [] ->
  exists w',
    Close (Some p) w = Ok tt w'
    /\ trace w' =
         trace w
         ++ (match t_pc t with Opened _ => setOutput_events rl | _ => [] end)
         ++ [EvClose old; EvRotated p; EvClose (Some h)]
    /\ (t_pc <$> tasks w' !! c) = Some Returned
    /\ (forall c', c' <> c -> tasks w' !! c' = tasks w !! c')
    /\ is_open w' old = false
    /\ is_open w' (Some h) = false
    /\ (t_pc t = Opened old -> targets_at (Some h) rl w')
    /\ ctrls w' = ctrls w
    /\ files w' = files w.
Proof.
  intros Hp Hf Hq Ht Hrl Hpc Hnone.
  assert (Hrl' : ctrls w !! t_rl t = Some rl) by (rewrite Hrl; exact Hp).
  destruct Hpc as [Hpc|Hpc].
  - pose proof (listener_step_Opened c t old rl w Ht Hpc Hrl') as H1.
    assert (Ht1 : tasks (set_tasks (alter (with_pc (Redirected old)) c (tasks w))
                           (redirected rl w)) !! c
                  = Some (with_pc (Redirected old) t))
      by (cbn; rewrite list_lookup_alter_eq, Ht; reflexivity).
    pose proof (listener_step_end c _ old _ Ht1 eq_refl) as H2.
    eexists. split.
    { unfold Close. unfold bind at 1. unfold deref at 1. rewrite Hp, Hf.
      unfold bind at 1. unfold send_quit. rewrite Hq, Ht, Hpc.
      unfold bind at 1. rewrite H1. unfold bind at 1. rewrite H2.
      unfold set_pc, modify. unfold bind, deref.
      cbn [ctrls set_tasks emit set_trace closed set_fobjs redirected].
      rewrite Hp. rewrite file_Close_eq. reflexivity. }
    rewrite Hpc, Hf.
    split.
    { wsimpl. cbn [t_rl with_pc]. rewrite Hrl, <- !app_assoc. reflexivity. }
    split.
    { cbn [tasks closed emit set_trace set_fobjs set_tasks].
      rewrite !list_lookup_alter_eq, Ht. reflexivity. }
    split.
    { intros c' Hne. cbn [tasks closed emit set_trace set_fobjs set_tasks redirected].
      rewrite !list_lookup_alter_ne by congruence. reflexivity. }
    split.
    { apply is_open_closed_false.
      erewrite is_open_fobjs; [apply (is_open_closed_self old (redirected rl w))|].
      reflexivity. }
    split; [apply is_open_closed_self|].
    split; [|split; reflexivity].
    intros _. apply targets_at_closed.
    pose proof (redirected_targets_at rl w) as Hat. rewrite Hf in Hat.
    unfold targets_at in *. eapply Forall_impl; [exact Hat|].
    intros t0 H0. rewrite <- H0. destruct t0; reflexivity.
  - pose proof (listener_step_end c t old w Ht Hpc) as H2.
    eexists. split.
    { unfold Close. unfold bind at 1. unfold deref at 1. rewrite Hp, Hf.
      unfold bind at 1. unfold send_quit. rewrite Hq, Ht, Hpc.
      unfold bind at 1. rewrite H2.
      unfold set_pc, modify. unfold bind, deref.
      cbn [ctrls set_tasks emit set_trace closed set_fobjs redirected].
      rewrite Hp. rewrite file_Close_eq. reflexivity. }
    rewrite Hpc, Hf.
    split.
    { wsimpl. rewrite Hrl, <- !app_assoc. reflexivity. }
    split.
    { cbn [tasks closed emit set_trace set_fobjs set_tasks].
      rewrite !list_lookup_alter_eq, Ht. reflexivity. }
    split.
    { intros c' Hne. cbn [tasks closed emit set_trace set_fobjs set_tasks].
      rewrite !list_lookup_alter_ne by congruence. reflexivity. }
    split.
    { apply is_open_closed_false.
      erewrite is_open_fobjs; [apply (is_open_closed_self old w)|].
      reflexivity. }
    split; [apply is_open_closed_self|].
    split; [|split; reflexivity].
    intros [=].
Qed.

(** *** What a slice of a listener changes *)

#[local] Instance same_ctrl_count_preorder : PreOrder same_ctrl_count.
Proof.
  split.
  - intros w. reflexivity.
  - intros a b c H1 H2. unfold same_ctrl_count in *. congruence.
Qed.

#[local] Instance others_rest_preorder c : PreOrder (others_rest c).
Proof.
  split.
  - intros w c' _. reflexivity.
  - intros x y z H1 H2 c' Hne. rewrite H2, H1 by exact Hne. reflexivity.
Qed.

Lemma mustOpenFileForAppend_count file :
  rel same_ctrl_count (mustOpenFileForAppend file).
Proof.
  intros w. unfold same_ctrl_count. destruct (openErr w file) as [e|] eqn:Ho.
  - rewrite (mustOpenFileForAppend_err _ _ _ Ho). reflexivity.
  - rewrite (mustOpenFileForAppend_ok _ _ Ho). reflexivity.
Qed.

Lemma update_count p f : rel same_ctrl_count (update p f).
Proof.
  intros w. unfold update, bind, deref, modify, same_ctrl_count.
  destruct (ctrls w !! p); cbn; [apply length_insert | reflexivity].
Qed.

Ltac count_leaf :=
  first [ apply mustOpenFileForAppend_count
        | apply update_count
        | unfold same_ctrl_count; wsimpl; reflexivity ].

Lemma Open_count file : rel same_ctrl_count (Open file).
Proof.
  intros w. unfold Open.
  destruct (files w !! file); rel_go same_ctrl_count_preorder count_leaf.
Qed.

Lemma Capture_count p :
  rel same_ctrl_count (CaptureStdout p) /\ rel same_ctrl_count (CaptureStderr p).
Proof. split; unfold_pkg; rel_go same_ctrl_count_preorder count_leaf. Qed.

Lemma file_Close_count d : rel same_ctrl_count (file_Close d).
Proof. unfold_pkg. rel_go same_ctrl_count_preorder count_leaf. Qed.

Lemma listener_step_count c : rel same_ctrl_count (listener_step c).
Proof.
  intros w. unfold listener_step.
  destruct (tasks w !! c) as [t|];
    [|rel_go same_ctrl_count_preorder count_leaf].
  destruct (t_pc t); [destruct (t_sigs t)|..]; unfold_pkg;
    rel_go same_ctrl_count_preorder count_leaf.
Qed.

Lemma mustOpenFileForAppend_rest c file :
  rel (others_rest c) (mustOpenFileForAppend file).
Proof.
  intros w c' _. destruct (openErr w file) as [e|] eqn:Ho.
  - rewrite (mustOpenFileForAppend_err _ _ _ Ho). reflexivity.
  - rewrite (mustOpenFileForAppend_ok _ _ Ho). reflexivity.
Qed.

Lemma update_rest c p f : rel (others_rest c) (update p f).
Proof.
  intros w c' _. unfold update, bind, deref, modify.
  destruct (ctrls w !! p); reflexivity.
Qed.

Ltac rest_leaf :=
  first [ apply mustOpenFileForAppend_rest
        | apply update_rest
        | let c' := fresh "c'" in let Hne := fresh "Hne" in
          intros c' Hne; wsimpl;
          rewrite ?list_lookup_alter_ne by congruence; reflexivity ].

Lemma listener_step_rest c : rel (others_rest c) (listener_step c).
Proof.
  intros w. unfold listener_step.
  destruct (tasks w !! c) as [t|];
    [|rel_go (others_rest_preorder c) rest_leaf].
  destruct (t_pc t); [destruct (t_sigs t)|..]; unfold_pkg;
    rel_go (others_rest_preorder c) rest_leaf.
Qed.

Lemma send_quit_rest c : rel (others_rest c) (send_quit (Some c)).
Proof.
  intros w. unfold send_quit.
  destruct (tasks w !! c) as [t|];
    [|rel_go (others_rest_preorder c) rest_leaf].
  pose proof (listener_step_rest c).
  destruct (t_pc t); unfold_pkg;
    rel_go (others_rest_preorder c) ltac:(first [assumption | rest_leaf]).
Qed.

(** A slice of the listener [c] changes the entry of [c] in [tasks] and
    nothing else there, keeps its controller and the signal it is
    notified of, takes signals from its channel and never puts one in,
    records events of its own controller only and touches no other
    controller; a listener that has returned changes nothing at all. *)
Lemma listener_step_shape c t w w' :
  tasks w !! c = Some t ->
  listener_step c w = Ok tt w' ->
  exists g evs,
    tasks w' = alter g c (tasks w)
    /\ trace w' = trace w ++ evs
    /\ forallb (only_for (t_rl t)) evs = true
    /\ t_rl (g t) = t_rl t
    /\ t_notify (g t) = t_notify t
    /\ (forall s, s ∈ t_sigs (g t) -> s ∈ t_sigs t)
    /\ (forall q, q <> t_rl t -> ctrls w' !! q = ctrls w !! q)
    /\ (t_pc t = Returned -> g t = t /\ evs = [] /\ w' = w).
Proof.
  intros Ht E.
  assert (Hid : exists g evs,
             tasks w = alter g c (tasks w)
             /\ trace w = trace w ++ evs
             /\ forallb (only_for (t_rl t)) evs = true
             /\ t_rl (g t) = t_rl t
             /\ t_notify (g t) = t_notify t
             /\ (forall s, s ∈ t_sigs (g t) -> s ∈ t_sigs t)
             /\ (forall q, q <> t_rl t -> ctrls w !! q = ctrls w !! q)
             /\ (t_pc t = Returned -> g t = t /\ evs = [] /\ w = w)).
  { exists (fun x => x), []. rewrite list_alter_id by reflexivity.
    rewrite app_nil_r. repeat split; auto. }
  destruct (t_pc t) as [|old|old|] eqn:Hpc.
  - destruct (t_sigs t) as [|s q] eqn:Hs;
      [unfold listener_step in E; rewrite Ht, Hpc, Hs in E;
       injection E as <-; exact Hid|].
    destruct (ctrls w !! t_rl t) as [rl|] eqn:Hrl.
    2:{ unfold listener_step in E. rewrite Ht, Hpc, Hs in E.
        unfold bind, set_sigs, modify, deref in E. cbn [ctrls set_tasks] in E.
        rewrite Hrl in E. discriminate. }
    destruct (s =? signal rl)%Z eqn:Heq.
    + apply Z.eqb_eq in Heq. subst s.
      destruct (openErr w (name rl)) as [e|] eqn:Ho.
      * destruct (listener_step_err c t rl q e w Ht Hpc Hs Hrl Ho) as (x & Hx & _).
        rewrite Hx in E. discriminate.
      * destruct (listener_step_begin c t q rl w Ht Hpc Hs Hrl Ho)
          as (x & Hx & Htk & Htr & Hct & _).
        rewrite Hx in E. injection E as <-.
        eexists _, _. split; [exact Htk|]. split; [exact Htr|].
        split; [cbn; rewrite bool_decide_eq_true_2 by reflexivity; reflexivity|].
        split; [reflexivity|]. split; [reflexivity|].
        split; [|split; [|intros [=]]].
        -- intros s Hin. cbn in Hin. rewrite ?Hs. right. exact Hin.
        -- intros p Hne. rewrite Hct. apply list_lookup_insert_ne. congruence.
    + rewrite (listener_step_skip c t s q rl w Ht Hpc Hs Hrl Heq) in E.
      injection E as <-.
      exists (with_sigs q), []. split; [reflexivity|].
      split; [cbn; rewrite app_nil_r; reflexivity|].
      split; [reflexivity|]. split; [reflexivity|]. split; [reflexivity|].
      split; [|split; [reflexivity | intros [=]]].
      intros s' Hin. cbn in Hin. rewrite ?Hs. right. exact Hin.
  - destruct (ctrls w !! t_rl t) as [rl|] eqn:Hrl.
    2:{ unfold listener_step in E. rewrite Ht, Hpc in E.
        unfold bind at 1 in E. unfold setOutput at 1 in E.
        unfold bind at 1 in E. unfold deref at 1 in E.
        rewrite Hrl in E. discriminate. }
    rewrite (listener_step_Opened c t old rl w Ht Hpc Hrl) in E.
    injection E as <-.
    exists (with_pc (Redirected old)), (setOutput_events rl).
    split; [reflexivity|]. split; [reflexivity|].
    split; [apply quiet_only_for, quiet_setOutput_events|].
    split; [reflexivity|]. split; [reflexivity|].
    split; [intros s Hin; exact Hin |].
    split; [reflexivity | intros [=]].
  - rewrite (listener_step_end c t old w Ht Hpc) in E. injection E as <-.
    exists (with_pc Waiting), [EvClose old; EvRotated (t_rl t)].
    split; [reflexivity|].
    split; [wsimpl; rewrite <- app_assoc; reflexivity|].
    split; [cbn; rewrite bool_decide_eq_true_2 by reflexivity; reflexivity|].
    split; [reflexivity|]. split; [reflexivity|].
    split; [intros s Hin; exact Hin |].
    split; [reflexivity | intros [=]].
  - unfold listener_step in E. rewrite Ht, Hpc in E. injection E as <-.
    destruct Hid as (g & evs & H1 & H2 & H3 & H4 & H5 & H6 & H7 & H8).
    exists g, evs. repeat split; auto; apply H8; reflexivity.
Qed.

Lemma listener_step_idle c w :
  tasks w !! c = None -> listener_step c w = Ok tt w.
Proof. intros H. unfold listener_step. rewrite H. reflexivity. Qed.

Lemma lookup_alter_Some {A} (g : A -> A) (l : list A) c c' x' :
  alter g c l !! c' = Some x' ->
  (c' = c /\ exists x, l !! c = Some x /\ x' = g x)
  \/ (c' <> c /\ l !! c' = Some x').
Proof.
  intros H. destruct (decide (c' = c)) as [->|Hne].
  - left. split; [reflexivity|]. rewrite list_lookup_alter_eq in H.
    destruct (l !! c) as [x|]; [|discriminate]. injection H as <-. eauto.
  - right. rewrite list_lookup_alter_ne in H by congruence. auto.
Qed.

(** *** Logs kept by the calls that do not rotate *)

#[local] Instance logs_kept_preorder : PreOrder logs_kept.
Proof.
  split.
  - intros w p rl H. eauto.
  - intros a b c Hab Hbc p rl H.
    destruct (Hab p rl H) as (r1 & H1 & E1).
    destruct (Hbc p r1 H1) as (r2 & H2 & E2).
    exists r2. split; [exact H2 | congruence].
Qed.

Lemma logs_kept_same w w' : ctrls w' = ctrls w -> logs_kept w w'.
Proof. intros E p rl H. exists rl. rewrite E. auto. Qed.

Lemma mustOpenFileForAppend_logs file : rel logs_kept (mustOpenFileForAppend file).
Proof.
  intros w. apply logs_kept_same. destruct (openErr w file) as [e|] eqn:Ho.
  - rewrite (mustOpenFileForAppend_err _ _ _ Ho). reflexivity.
  - rewrite (mustOpenFileForAppend_ok _ _ Ho). reflexivity.
Qed.

Lemma update_logs p f :
  (forall rl, logFile (f rl) = logFile rl) -> rel logs_kept (update p f).
Proof.
  intros Hf w. unfold update, bind, deref, modify.
  destruct (ctrls w !! p) as [r0|] eqn:Hp; cbn; [|reflexivity].
  intros q r Hq. destruct (decide (q = p)) as [->|Hne].
  - exists (f r0). wsimpl. rewrite (lookup_ctrl_insert _ _ _ _ Hp).
    assert (r = r0) as -> by congruence. auto.
  - exists r. wsimpl. rewrite list_lookup_insert_ne by congruence. auto.
Qed.

Ltac logs_leaf :=
  first [ apply mustOpenFileForAppend_logs
        | apply update_logs; intros ?; reflexivity
        | apply logs_kept_same; reflexivity ].

Lemma Open_logs file : rel logs_kept (Open file).
Proof.
  intros w. unfold Open.
  destruct (files w !! file); rel_go logs_kept_preorder logs_leaf.
Qed.

Lemma Capture_logs p :
  rel logs_kept (CaptureStdout p) /\ rel logs_kept (CaptureStderr p).
Proof. split; unfold_pkg; rel_go logs_kept_preorder logs_leaf. Qed.

Lemma file_Close_logs d : rel logs_kept (file_Close d).
Proof. unfold_pkg. rel_go logs_kept_preorder logs_leaf. Qed.

(** *** Invariants of every run

    A property of worlds holds after every run once it is kept by a
    slice of a listener, by the return of a listener, by the calls that
    start no controller and rotate nothing, by the allocation of a zero
    controller, by the start of a controller and by the arrival of a
    signal. *)
Section RunInvariant.
Context (J : World -> Prop).
Hypothesis J_listener : forall c, keeps J (listener_step c).
Hypothesis J_return : forall c, keeps J (set_pc c Returned).
Hypothesis J_quiet : forall w w',
  quiet_step w w' -> same_ctrl_count w w' -> logs_kept w w' -> J w -> J w'.
Hypothesis J_zero : forall w,
  J w -> J (set_ctrls (ctrls w ++ [mkLogRot "" None 0%Z None [] false false]) w).
Hypothesis J_started : forall file ls w,
  J w -> J (started file syscall.SIGHUP ls w).
Hypothesis J_deliver : forall s w,
  J w -> J (emit (EvSignal s) (set_tasks (relay s <$> tasks w) w)).

Lemma keeps_settled {A} (m : M A) :
  rel quiet_step m -> rel same_ctrl_count m -> rel logs_kept m -> keeps J m.
Proof.
  intros Hq Hc Hl w a w' H E.
  specialize (Hq w). specialize (Hc w). specialize (Hl w).
  rewrite E in Hq, Hc, Hl. eapply J_quiet; eassumption.
Qed.

Lemma send_quit_holds q : keeps J (send_quit q).
Proof.
  intros w [] w' H E. unfold send_quit in E.
  destruct q as [c|]; [|discriminate].
  destruct (tasks w !! c) as [t|]; [|discriminate].
  destruct (t_pc t); [| | |discriminate].
  - eapply J_return; eassumption.
  - refine (keeps_bind J _ _ (J_listener c) _ w tt w' H E). intros _.
    apply keeps_bind; [apply J_listener | intros _; apply J_return].
  - refine (keeps_bind J _ _ (J_listener c) _ w tt w' H E). intros _.
    apply J_return.
Qed.

Lemma Close_holds rl : keeps J (Close rl).
Proof.
  unfold Close. destruct rl as [p|]; [|apply keeps_ret].
  apply keeps_bind; [apply deref_keeps|]. intros r.
  destruct (logFile r); [|apply keeps_ret].
  apply keeps_bind; [apply send_quit_holds|]. intros _.
  apply keeps_bind; [apply deref_keeps|]. intros r'.
  apply keeps_settled;
    [apply file_Close_quiet | apply file_Close_count | apply file_Close_logs].
Qed.

Lemma WriteTo_holds file ls : keeps J (WriteTo file ls).
Proof.
  intros w a w' H E. unfold WriteTo in E.
  destruct (openErr w file) as [e|] eqn:Ho.
  - rewrite (rotateOn_err _ _ _ _ _ Ho) in E. discriminate.
  - rewrite (rotateOn_eq _ _ _ _ Ho) in E. injection E as _ <-.
    apply J_started, H.
Qed.

Lemma step_holds o : keeps J (step o).
Proof.
  destruct o; cbn [step].
  - apply keeps_settled; apply rel_forget;
      first [ apply quiet_step_preorder | apply same_ctrl_count_preorder
            | apply logs_kept_preorder | apply Open_quiet | apply Open_count
            | apply Open_logs ].
  - apply keeps_bind; [apply WriteTo_holds | intros; apply keeps_ret].
  - apply keeps_bind; [|intros; apply keeps_ret].
    unfold WriteAllTo.
    apply keeps_bind; [apply WriteTo_holds|]. intros lr.
    apply keeps_bind;
      [apply keeps_settled;
         [apply Capture_quiet | apply Capture_count | apply Capture_logs]|].
    intros _.
    apply keeps_bind;
      [apply keeps_settled;
         [apply Capture_quiet | apply Capture_count | apply Capture_logs]|].
    intros _. apply keeps_ret.
  - apply Close_holds.
  - apply keeps_settled;
      [apply Capture_quiet | apply Capture_count | apply Capture_logs].
  - apply keeps_settled;
      [apply Capture_quiet | apply Capture_count | apply Capture_logs].
  - intros w [] w' H E. injection E as <-. apply J_zero, H.
  - intros w [] w' H E. injection E as <-. apply J_deliver, H.
  - apply J_listener.
  - apply keeps_settled; apply rel_modify; intros w;
      [quiet_leaf | reflexivity | apply logs_kept_same; reflexivity].
Qed.

Lemma run_holds ops : keeps J (run ops).
Proof.
  induction ops as [|o ops IH]; cbn [run].
  - apply keeps_ret.
  - apply keeps_bind; [apply step_holds | intros _; exact IH].
Qed.
End RunInvariant.

(** *** The signals waiting in a channel *)

Lemma signals_match_alter w w' c t g :
  signals_match w ->
  tasks w !! c = Some t ->
  tasks w' = alter g c (tasks w) ->
  t_notify (g t) = t_notify t ->
  (forall s, s ∈ t_sigs (g t) -> s ∈ t_sigs t) ->
  signals_match w'.
Proof.
  intros H Ht Htk Hn Hs c' t' H'. rewrite Htk in H'.
  apply lookup_alter_Some in H' as [(-> & x & Hx & ->)|(Hne & H')].
  - assert (x = t) as -> by congruence. rewrite Hn.
    apply Forall_forall. intros s Hin. apply Hs in Hin.
    specialize (H c t Ht). rewrite Forall_forall in H. apply H, Hin.
  - eapply H, H'.
Qed.

Lemma signals_match_listener c : keeps signals_match (listener_step c).
Proof.
  intros w [] w' H E. destruct (tasks w !! c) as [t|] eqn:Ht.
  - destruct (listener_step_shape c t w w' Ht E)
      as (g & evs & Htk & _ & _ & _ & Hn & Hs & _).
    eapply signals_match_alter; eassumption.
  - rewrite (listener_step_idle _ _ Ht) in E. injection E as <-. exact H.
Qed.

Lemma signals_match_return c : keeps signals_match (set_pc c Returned).
Proof.
  intros w [] w' H E. injection E as <-. intros c' t' H'.
  cbn [tasks set_tasks] in H'.
  apply lookup_alter_Some in H' as [(-> & x & Hx & ->)|(Hne & H')];
    [exact (H c x Hx) | eapply H, H'].
Qed.

Lemma signals_match_run ops : keeps signals_match (run ops).
Proof.
  apply run_holds.
  - apply signals_match_listener.
  - apply signals_match_return.
  - intros w w' (Ht & _) _ _ H c t Hc. rewrite Ht in Hc. eapply H, Hc.
  - intros w H. exact H.
  - intros file ls w H c t Hc. wsimpl.
    apply lookup_app_Some in Hc as [Hc|[_ Hc]]; [eapply H, Hc|].
    apply list_lookup_singleton_Some in Hc as [_ <-]. constructor.
  - intros s w H c t' Hc. wsimpl. rewrite list_lookup_fmap in Hc.
    destruct (tasks w !! c) as [t|] eqn:Ht; [|discriminate].
    injection Hc as <-. specialize (H c t Ht). unfold relay.
    destruct (bool_decide (t_notify t = s)) eqn:Eb; cbn [andb]; [|exact H].
    destruct (Nat.ltb (length (t_sigs t)) sigs_cap); [|exact H].
    cbn. apply Forall_app. split; [exact H|].
    apply bool_decide_eq_true_1 in Eb. repeat constructor. congruence.
Qed.

(** X9.  Every signal that waits in the channel of a listener is the signal
    of the listener's controller, in every run of the process: the test
    [s == rl.signal] of the listener never fails.  So a listener that
    waits at its [select] with a signal pending, and whose file can be
    opened, enters [rotate] at its next slice. *)
Theorem pending_signal_starts_a_rotation (ops : list op)
    (oe : string -> option string) (w : World) (c : chan) (t : Task) :
  run ops (init oe) = Ok tt w ->
  tasks w !! c = Some t ->
  exists rl,
    ctrls w !! t_rl t = Some rl
    /\ t_notify t = signal rl
    /\ Forall (fun s => s = signal rl) (t_sigs t)
    /\ (t_pc t = Waiting -> t_sigs t <> [] -> openErr w (name rl) = None ->
        exists w',
          listener_step c w = Ok tt w'
          /\ rotations (t_rl t) (trace w') = S (rotations (t_rl t) (trace w))
          /\ (t_pc <$> tasks w' !! c) = Some (Opened (logFile rl))
          /\ (logFile <$> ctrls w' !! t_rl t) = Some (Some (length (fobjs w)))).
Proof.
  intros Hrun Ht.
  pose proof (run_keeps ops _ _ _ (tasks_inv_init oe) Hrun) as HK.
  assert (HS : signals_match w).
  { eapply signals_match_run; [|exact Hrun]. intros c0 t0 H0. discriminate. }
  destruct (inv_ctrl _ HK c t Ht) as (rl & Hrl & Hsig).
  exists rl. split; [exact Hrl|]. split; [congruence|].
  assert (Hall : Forall (fun s => s = signal rl) (t_sigs t)).
  { rewrite Hsig. exact (HS c t Ht). }
  split; [exact Hall|].
  intros Hpc Hne Ho. destruct (t_sigs t) as [|s q] eqn:Hs; [congruence|].
  apply Forall_cons in Hall as [-> _].
  destruct (listener_step_begin c t q rl w Ht Hpc Hs Hrl Ho)
    as (w' & Hx & Htk & Htr & Hct & _).
  exists w'. split; [exact Hx|].
  split.
  { rewrite Htr. unfold rotations. rewrite count_app. unfold count at 2. cbn.
    rewrite bool_decide_eq_true_2 by reflexivity. cbn. lia. }
  split.
  { rewrite Htk, list_lookup_alter_eq, Ht. reflexivity. }
  rewrite Hct, (lookup_ctrl_insert _ _ _ _ Hrl). reflexivity.
Qed.

(** *** The shutdown channel of a controller *)

Lemma links_step w w' :
  ctrl_evolves w w' ->
  same_ctrl_count w w' ->
  (forall c t, tasks w !! c = Some t ->
     exists t', tasks w' !! c = Some t' /\ t_rl t' = t_rl t) ->
  links w -> links w'.
Proof.
  intros Hev Hcnt Htk H p rl' c Hp Hq.
  assert (Hlt : p < length (ctrls w))
    by (rewrite <- Hcnt; eapply lookup_lt_Some, Hp).
  destruct (lookup_lt_is_Some_2 _ _ Hlt) as [rl Hrl].
  destruct (Hev p rl Hrl) as (r & Hr & _ & _ & Hqq & _).
  assert (r = rl') as -> by congruence.
  destruct (H p rl c Hrl) as (t & Ht & E); [congruence|].
  destruct (Htk c t Ht) as (t' & Ht' & E').
  exists t'. split; [exact Ht' | congruence].
Qed.

Lemma alter_keeps_rl (l : list Task) g c :
  (forall t, l !! c = Some t -> t_rl (g t) = t_rl t) ->
  forall c' t, l !! c' = Some t ->
    exists t', alter g c l !! c' = Some t' /\ t_rl t' = t_rl t.
Proof.
  intros Hg c' t H. destruct (decide (c' = c)) as [->|Hne].
  - rewrite list_lookup_alter_eq, H. exists (g t).
    split; [reflexivity | apply Hg, H].
  - rewrite list_lookup_alter_ne by congruence. eauto.
Qed.

Lemma links_listener c : keeps links (listener_step c).
Proof.
  intros w [] w' H E.
  pose proof (listener_step_ctrl c w) as Hev.
  pose proof (listener_step_count c w) as Hcnt.
  rewrite E in Hev, Hcnt. cbn [world_of] in Hev, Hcnt.
  destruct (tasks w !! c) as [t|] eqn:Ht.
  - destruct (listener_step_shape c t w w' Ht E)
      as (g & evs & Htk & _ & _ & Hrl & _).
    eapply links_step; [exact Hev | exact Hcnt | | exact H].
    rewrite Htk. apply alter_keeps_rl. intros t0 H0.
    assert (t0 = t) as -> by congruence. exact Hrl.
  - rewrite (listener_step_idle _ _ Ht) in E. injection E as <-. exact H.
Qed.

Lemma links_return c : keeps links (set_pc c Returned).
Proof.
  intros w [] w' H E. injection E as <-.
  apply (links_step w); [apply ctrl_evolves_same; reflexivity | | | exact H].
  - unfold same_ctrl_count. reflexivity.
  - cbn [tasks set_tasks]. apply alter_keeps_rl. reflexivity.
Qed.

Lemma links_steps o : keeps links (step o).
Proof.
  apply step_holds.
  - apply links_listener.
  - apply links_return.
  - intros w w' (Ht & _ & Hev & _) Hcnt _ H.
    eapply links_step; [exact Hev | exact Hcnt | | exact H].
    intros c t Hc. rewrite Ht. eauto.
  - intros w H p rl c Hp Hq. wsimpl.
    apply lookup_app_Some in Hp as [Hp|[_ Hp]]; [eapply H; eassumption|].
    apply list_lookup_singleton_Some in Hp as [_ <-]. discriminate.
  - intros file ls w H p rl c Hp Hq. wsimpl.
    apply lookup_app_Some in Hp as [Hp|[Hge Hp]].
    + destruct (H p rl c Hp Hq) as (t & Ht & E). exists t.
      split; [apply lookup_app_l_Some, Ht | exact E].
    + apply list_lookup_singleton_Some in Hp as [Hz <-].
      cbn in Hq. injection Hq as <-. eexists.
      split; [apply list_lookup_middle; reflexivity|]. cbn. lia.
  - intros s w H.
    apply (links_step w); [apply ctrl_evolves_same; reflexivity | | | exact H].
    + unfold same_ctrl_count. reflexivity.
    + intros c t Hc. exists (relay s t). wsimpl.
      rewrite list_lookup_fmap, Hc. split; [reflexivity | apply relay_fields].
Qed.

Lemma links_run ops : keeps links (run ops).
Proof.
  induction ops as [|o ops IH]; cbn [run].
  - apply keeps_ret.
  - apply keeps_bind; [apply links_steps | intros _; exact IH].
Qed.

Lemma links_init oe : links (init oe).
Proof. intros p rl c H. discriminate. Qed.

(** *** After Close *)

Lemma stopped_listener n f p c : keeps (stopped n f p) (listener_step c).
Proof.
  intros w [] w' (Hf & Hd & Hn) E.
  destruct (tasks w !! c) as [t|] eqn:Ht.
  2:{ rewrite (listener_step_idle _ _ Ht) in E. injection E as <-.
      repeat split; assumption. }
  destruct (listener_step_shape c t w w' Ht E)
    as (g & evs & Htk & Htr & Hev & Hrl & _ & _ & Hct & Hret).
  destruct (decide (t_rl t = p)) as [Ep|Hne].
  - destruct (Hret (Hd c t Ht Ep)) as (_ & _ & ->). repeat split; assumption.
  - split; [rewrite Hct by congruence; exact Hf|]. split.
    + intros c' t' H' E'. rewrite Htk in H'.
      apply lookup_alter_Some in H' as [(-> & x & Hx & ->)|(_ & H')].
      * assert (x = t) as -> by congruence. congruence.
      * eapply Hd; eassumption.
    + rewrite Htr. unfold rotations in *.
      rewrite count_app, (rotations_only_for _ _ _ Hev) by congruence. lia.
Qed.

Lemma stopped_return n f p c : keeps (stopped n f p) (set_pc c Returned).
Proof.
  intros w [] w' (Hf & Hd & Hn) E. injection E as <-.
  split; [exact Hf|]. split; [|exact Hn].
  intros c' t' H' E'. cbn [tasks set_tasks] in H'.
  apply lookup_alter_Some in H' as [(-> & x & Hx & ->)|(_ & H')];
    [reflexivity | eapply Hd; eassumption].
Qed.

Lemma started_quiet file sig ls w :
  appends quiet w (started file sig ls w).
Proof.
  eexists. split; [apply started_trace|]. cbn.
  induction ls as [|l ls IH]; [reflexivity | exact IH].
Qed.

Lemma stopped_run n f p ops : keeps (stopped n f p) (run ops).
Proof.
  apply run_holds.
  - apply stopped_listener.
  - apply stopped_return.
  - intros w w' (Ht & (evs & Htr & Hq) & _) _ Hl (Hf & Hd & Hn).
    split; [|split].
    + destruct (ctrls w !! p) as [rl|] eqn:Hp; [|discriminate].
      destruct (Hl p rl Hp) as (rl' & -> & E). cbn in *. congruence.
    + intros c t Hc. rewrite Ht in Hc. eapply Hd, Hc.
    + rewrite Htr. unfold rotations in *.
      rewrite count_app, (rotations_quiet _ evs) by exact Hq. lia.
  - intros w (Hf & Hd & Hn). split; [|split; assumption]. wsimpl.
    destruct (ctrls w !! p) as [rl|] eqn:Hp; [|discriminate].
    rewrite (lookup_app_l_Some _ _ _ _ Hp). exact Hf.
  - intros file ls w (Hf & Hd & Hn).
    destruct (ctrls w !! p) as [rl|] eqn:Hp; [|discriminate].
    split; [|split].
    + wsimpl. rewrite (lookup_app_l_Some _ _ _ _ Hp). exact Hf.
    + intros c t Hc E. wsimpl.
      apply lookup_app_Some in Hc as [Hc|[_ Hc]]; [eapply Hd; eassumption|].
      apply list_lookup_singleton_Some in Hc as [_ <-]. cbn in E.
      apply lookup_lt_Some in Hp. lia.
    + destruct (started_quiet file syscall.SIGHUP ls w) as (evs & Htr & Hq).
      rewrite Htr. unfold rotations in *.
      rewrite count_app, (rotations_quiet _ evs) by exact Hq. lia.
  - intros s w (Hf & Hd & Hn). split; [exact Hf|]. split.
    + intros c t' Hc E. wsimpl. rewrite list_lookup_fmap in Hc.
      destruct (tasks w !! c) as [t|] eqn:Ht; [|discriminate].
      injection Hc as <-. destruct (relay_fields s t) as (Er & _ & Epc & _).
      rewrite Epc. eapply Hd; [exact Ht | congruence].
    + wsimpl. unfold rotations in *. rewrite count_app. cbn. lia.
Qed.

Lemma send_quit_returned c w w' t' :
  send_quit (Some c) w = Ok tt w' ->
  tasks w' !! c = Some t' -> t_pc t' = Returned.
Proof.
  intros E H. unfold send_quit in E.
  destruct (tasks w !! c) as [t|]; [|discriminate].
  assert (Hfin : forall x, set_pc c Returned x = Ok tt w' -> t_pc t' = Returned).
  { intros x Ex. injection Ex as <-. cbn [tasks set_tasks] in H.
    rewrite list_lookup_alter_eq in H. destruct (tasks x !! c); [|discriminate].
    injection H as <-. reflexivity. }
  destruct (t_pc t); [| | |discriminate].
  - eapply Hfin, E.
  - unfold bind in E.
    destruct (listener_step c w) as [[] w1| | |]; try discriminate.
    destruct (listener_step c w1) as [[] w2| | |]; try discriminate.
    eapply Hfin, E.
  - unfold bind in E.
    destruct (listener_step c w) as [[] w1| | |]; try discriminate.
    eapply Hfin, E.
Qed.

Lemma send_quit_ctrls q w w' :
  tasks_inv w -> send_quit q w = Ok tt w' -> ctrls w' = ctrls w.
Proof.
  intros HK E. unfold send_quit in E.
  destruct q as [c|]; [|discriminate].
  destruct (tasks w !! c) as [t|] eqn:Ht; [|discriminate].
  destruct (inv_ctrl _ HK c t Ht) as (rl & Hrl & _).
  destruct (t_pc t) as [|old|old|] eqn:Hpc; [| | |discriminate].
  - injection E as <-. reflexivity.
  - unfold bind in E.
    rewrite (listener_step_Opened c t old rl w Ht Hpc Hrl) in E.
    assert (Ht1 : tasks (set_tasks (alter (with_pc (Redirected old)) c (tasks w))
                           (redirected rl w)) !! c
                  = Some (with_pc (Redirected old) t))
      by (cbn; rewrite list_lookup_alter_eq, Ht; reflexivity).
    rewrite (listener_step_end c _ old _ Ht1 eq_refl) in E.
    injection E as <-. reflexivity.
  - unfold bind in E.
    rewrite (listener_step_end c t old w Ht Hpc) in E.
    injection E as <-. reflexivity.
Qed.

(** What a [Close] that returns has done, in a process whose listeners
    and controllers hang together. *)
Lemma Close_stops w p rl h w1 :
  tasks_inv w -> links w ->
  ctrls w !! p = Some rl -> logFile rl = Some h ->
  Close (Some p) w = Ok tt w1 ->
  exists c t,
    quit rl = Some c
    /\ tasks w1 !! c = Some t /\ t_rl t = p /\ t_pc t = Returned
    /\ (forall c', c' <> c -> tasks w1 !! c' = tasks w !! c')
    /\ ctrls w1 = ctrls w
    /\ is_open w1 (Some h) = false
    /\ stopped (rotations p (trace w1)) h p w1
    /\ tasks_inv w1 /\ links w1.
Proof.
  intros HK HL Hp Hf E.
  pose proof (Close_keeps (Some p) _ _ _ HK E) as HK1.
  pose proof (links_steps (CallClose (Some p)) _ _ _ HL E) as HL1.
  unfold Close in E. unfold bind at 1 in E. unfold deref at 1 in E.
  rewrite Hp, Hf in E. unfold bind at 1 in E.
  destruct (send_quit (quit rl) w) as [[] wq| | |] eqn:Eq; try discriminate.
  pose proof (send_quit_ctrls _ _ _ HK Eq) as Hc.
  unfold bind at 1 in E. unfold deref at 1 in E. rewrite Hc, Hp in E.
  rewrite file_Close_eq in E. injection E as <-.
  destruct (quit rl) as [c|] eqn:Hq; [|discriminate].
  assert (Hp1 : ctrls (closed (logFile rl) wq) !! p = Some rl)
    by (cbn [ctrls closed emit set_trace set_fobjs]; rewrite Hc; exact Hp).
  destruct (HL1 p rl c Hp1 Hq) as (t & Ht & Hrl).
  assert (Hret : t_pc t = Returned)
    by (eapply send_quit_returned; [exact Eq | exact Ht]).
  exists c, t. split; [reflexivity|]. split; [exact Ht|].
  split; [exact Hrl|]. split; [exact Hret|].
  split.
  { pose proof (send_quit_rest c w) as Hrest. rewrite Eq in Hrest.
    exact Hrest. }
  split; [exact Hc|].
  split; [rewrite Hf; apply is_open_closed_self|].
  split; [|split; assumption].
  split; [rewrite Hp1; cbn; rewrite Hf; reflexivity|].
  split; [|reflexivity].
  intros c' t' H' E'.
  assert (c' = c) as -> by (eapply (inv_owner _ HK1); [exact H' | exact Ht | congruence]).
  congruence.
Qed.

(** *** Closed files stay closed *)

#[local] Instance closed_kept_preorder : PreOrder closed_kept.
Proof.
  split.
  - intros w h H. exact H.
  - intros a b c Hab Hbc h H. apply Hbc, Hab, H.
Qed.

Lemma closed_kept_same w w' : fobjs w' = fobjs w -> closed_kept w w'.
Proof. intros E h. unfold is_closed. rewrite E. auto. Qed.

Lemma closed_kept_close d w : closed_kept w (closed d w).
Proof.
  intros h. unfold is_closed, closed. wsimpl. destruct d as [o|]; [|auto].
  destruct (decide (o = h)) as [->|Hne].
  - rewrite list_lookup_alter_eq. destruct (fobjs w !! h); [|discriminate].
    reflexivity.
  - rewrite list_lookup_alter_ne by exact Hne. auto.
Qed.

Lemma mustOpenFileForAppend_closed file :
  rel closed_kept (mustOpenFileForAppend file).
Proof.
  intros w. destruct (openErr w file) as [e|] eqn:Ho.
  - rewrite (mustOpenFileForAppend_err _ _ _ Ho).
    apply closed_kept_same. reflexivity.
  - rewrite (mustOpenFileForAppend_ok _ _ Ho). intros h.
    unfold is_closed. wsimpl.
    destruct (fobjs w !! h) as [f|] eqn:Hf; [|discriminate].
    rewrite (lookup_app_l_Some _ _ _ _ Hf). auto.
Qed.

Lemma update_closed p f : rel closed_kept (update p f).
Proof.
  intros w. apply closed_kept_same. unfold update, bind, deref, modify.
  destruct (ctrls w !! p); reflexivity.
Qed.

Lemma new_LogRot_closed rl : rel closed_kept (new_LogRot rl).
Proof. intros w. apply closed_kept_same. reflexivity. Qed.

Ltac closed_leaf :=
  first [ apply mustOpenFileForAppend_closed
        | apply update_closed
        | apply new_LogRot_closed
        | apply closed_kept_close
        | apply closed_kept_same; reflexivity ].

Lemma Open_closed file : rel closed_kept (Open file).
Proof.
  intros w. unfold Open.
  destruct (files w !! file); rel_go closed_kept_preorder closed_leaf.
Qed.

Lemma listener_step_closed c : rel closed_kept (listener_step c).
Proof.
  intros w. unfold listener_step.
  destruct (tasks w !! c) as [t|]; [|rel_go closed_kept_preorder closed_leaf].
  destruct (t_pc t); [destruct (t_sigs t)|..]; unfold_pkg;
    rel_go closed_kept_preorder closed_leaf.
Qed.

Lemma send_quit_closed q : rel closed_kept (send_quit q).
Proof.
  intros w. unfold send_quit.
  destruct q as [c|]; [|rel_go closed_kept_preorder closed_leaf].
  destruct (tasks w !! c) as [t|]; [|rel_go closed_kept_preorder closed_leaf].
  pose proof (listener_step_closed c).
  destruct (t_pc t); unfold_pkg;
    rel_go closed_kept_preorder ltac:(first [assumption | closed_leaf]).
Qed.

Lemma step_closed o : rel closed_kept (step o).
Proof.
  pose proof Open_closed. pose proof listener_step_closed.
  pose proof send_quit_closed.
  destruct o; cbn [step]; unfold_pkg;
    rel_go closed_kept_preorder
      ltac:(first [ match goal with H : _ |- _ => apply H end | closed_leaf ]).
Qed.

Lemma run_closed ops : rel closed_kept (run ops).
Proof.
  induction ops as [|o ops IH]; cbn [run].
  - apply rel_ret, closed_kept_preorder.
  - apply rel_bind;
      [apply closed_kept_preorder | apply step_closed | intros _; exact IH].
Qed.

Lemma is_closed_not_open w h : is_closed w h = true -> is_open w (Some h) = false.
Proof.
  unfold is_closed, is_open. destruct (fobjs w !! h); [|discriminate].
  intros ->. reflexivity.
Qed.

(** *** Close, in every run *)

(** X10.  In every run of the process, a [Close] of a started controller
    whose listener has no signal waiting in its channel, once it
    returns, has stopped the listener of that very controller (the
    [quit] channel of a controller is the one its own listener receives
    from) and has moved no other listener; it has closed the
    controller's file and has left every controller as it was. *)
Theorem Close_stops_its_own_listener (ops : list op)
    (oe : string -> option string) (w : World) (p : ptr) (rl : LogRot)
    (h : handle) (w1 : World) :
  run ops (init oe) = Ok tt w ->
  ctrls w !! p = Some rl ->
  logFile rl = Some h ->
  (forall c t, tasks w !! c = Some t -> t_rl t = p -> t_sigs t = []) ->
  Close (Some p) w = Ok tt w1 ->
  exists c t,
    quit rl = Some c
    /\ tasks w1 !! c = Some t
    /\ t_rl t = p
    /\ t_pc t = Returned
    /\ (forall c', c' <> c -> tasks w1 !! c' = tasks w !! c')
    /\ (forall c' t', tasks w1 !! c' = Some t' -> t_rl t' = p -> c' = c)
    /\ ctrls w1 = ctrls w
    /\ is_open w1 (Some h) = false.
Proof.
  intros Hrun Hp Hf Hnone E.
  pose proof (run_keeps ops _ _ _ (tasks_inv_init oe) Hrun) as HK.
  pose proof (links_run ops _ _ _ (links_init oe) Hrun) as HL.
  destruct (Close_stops w p rl h w1 HK HL Hp Hf E)
    as (c & t & Hq & Ht & Hrl & Hpc & Hrest & Hc & Ho & _ & HK1 & _).
  exists c, t. repeat (split; [assumption|]).
  split; [|split; assumption].
  intros c' t' H' E'. eapply (inv_owner _ HK1); [exact H' | exact Ht | congruence].
Qed.

(** X11.  In every run of the process, once [Close] of a started controller
    has returned, that controller never rotates again, whatever the
    process does and whatever signals arrive: its listener has returned
    for good, the file it holds after [Close], which [Close] closed,
    stays its file and stays closed, and every later [Close] of it
    blocks for ever. *)
Theorem no_rotation_after_Close (ops1 : list op)
    (oe : string -> option string) (w : World) (p : ptr) (rl : LogRot)
    (h : handle) (w1 : World) (ops2 : list op) (w2 : World) :
  run ops1 (init oe) = Ok tt w ->
  ctrls w !! p = Some rl ->
  logFile rl = Some h ->
  Close (Some p) w = Ok tt w1 ->
  run ops2 w1 = Ok tt w2 ->
  exists h1,
    (logFile <$> ctrls w1 !! p) = Some (Some h1)
    /\ is_open w1 (Some h1) = false
    /\ rotations p (trace w2) = rotations p (trace w1)
    /\ (logFile <$> ctrls w2 !! p) = Some (Some h1)
    /\ is_open w2 (Some h1) = false
    /\ (forall c t, tasks w2 !! c = Some t -> t_rl t = p -> t_pc t = Returned)
    /\ Close (Some p) w2 = Blocked w2.
Proof.
  intros Hrun Hp Hf E Hrun2.
  pose proof (run_keeps ops1 _ _ _ (tasks_inv_init oe) Hrun) as HK.
  pose proof (links_run ops1 _ _ _ (links_init oe) Hrun) as HL.
  destruct (Close_stops w p rl h w1 HK HL Hp Hf E)
    as (c & t & Hq & Ht & Hrl & Hpc & Hrest & Hc & Ho & Hst & HK1 & HL1).
  destruct (stopped_run _ _ _ ops2 _ _ _ Hst Hrun2) as (Hf2 & Hd2 & Hn2).
  pose proof (links_run ops2 _ _ _ HL1 Hrun2) as HL2.
  assert (Hp1 : ctrls w1 !! p = Some rl) by (rewrite Hc; exact Hp).
  pose proof (run_ctrl ops2 w1 p rl Hp1) as (r2 & Hp2 & _ & _ & Hq2 & _).
  rewrite Hrun2 in Hp2. cbn [world_of] in Hp2.
  assert (Hf2' : logFile r2 = Some h).
  { rewrite Hp2 in Hf2. cbn in Hf2. congruence. }
  exists h.
  split; [rewrite Hp1; cbn; rewrite Hf; reflexivity|].
  split; [exact Ho|].
  split; [exact Hn2|]. split; [exact Hf2|].
  split.
  { apply is_closed_not_open.
    pose proof (run_closed ops2 w1 h) as Hcl. rewrite Hrun2 in Hcl.
    apply Hcl. unfold is_closed, is_open in *.
    destruct (fobjs w1 !! h) as [x|] eqn:Hx.
    - destruct (f_closed x); [reflexivity | discriminate].
    - exfalso. apply lookup_ge_None in Hx.
      pose proof (inv_file _ HK1 p rl h Hp1 Hf). lia. }
  split; [exact Hd2|].
  destruct (HL2 p r2 c Hp2) as (t2 & Ht2 & Hrl2); [congruence|].
  apply (Close_after_return p r2 h c t2 w2 Hp2 Hf2' (eq_trans Hq2 Hq) Ht2).
  eapply Hd2; eassumption.
Qed.

(** *** Only SIGHUP rotates *)

Lemma hup_only_run ops : keeps hup_only (run ops).
Proof.
  apply run_holds.
  - intros c w [] w' H E. destruct (tasks w !! c) as [t|] eqn:Ht.
    + destruct (listener_step_shape c t w w' Ht E)
        as (g & evs & Htk & _ & _ & _ & Hn & _).
      intros c' t' H'. rewrite Htk in H'.
      apply lookup_alter_Some in H' as [(-> & x & Hx & ->)|(Hne & H')].
      * assert (x = t) as -> by congruence. rewrite Hn. eapply H, Ht.
      * eapply H, H'.
    + rewrite (listener_step_idle _ _ Ht) in E. injection E as <-. exact H.
  - intros c w [] w' H E. injection E as <-. intros c' t' H'.
    cbn [tasks set_tasks] in H'.
    apply lookup_alter_Some in H' as [(-> & x & Hx & ->)|(Hne & H')];
      [exact (H c x Hx) | eapply H, H'].
  - intros w w' (Ht & _) _ _ H c t Hc. rewrite Ht in Hc. eapply H, Hc.
  - intros w H. exact H.
  - intros file ls w H c t Hc. wsimpl.
    apply lookup_app_Some in Hc as [Hc|[_ Hc]]; [eapply H, Hc|].
    apply list_lookup_singleton_Some in Hc as [_ <-]. reflexivity.
  - intros s w H c t' Hc. wsimpl. rewrite list_lookup_fmap in Hc.
    destruct (tasks w !! c) as [t|] eqn:Ht; [|discriminate].
    injection Hc as <-. destruct (relay_fields s t) as (_ & -> & _).
    eapply H, Ht.
Qed.

Lemma fmap_fixed {A} (f : A -> A) (l : list A) :
  (forall c x, l !! c = Some x -> f x = x) -> f <$> l = l.
Proof.
  intros H. apply list_eq. intros c. rewrite list_lookup_fmap.
  destruct (l !! c) as [x|] eqn:Hx; [|reflexivity]. cbn. f_equal. eapply H, Hx.
Qed.

(** X12.  In every run of the process, every listener is notified of SIGHUP
    and of nothing else: a signal other than SIGHUP that reaches the
    process is put in the channel of no listener, and no controller has
    rotated more often than SIGHUP has reached the process. *)
Theorem only_SIGHUP_rotates (ops : list op) (oe : string -> option string)
    (w : World) (s : Signal) :
  run ops (init oe) = Ok tt w ->
  (forall c t, tasks w !! c = Some t ->
     t_notify t = syscall.SIGHUP
     /\ exists rl, ctrls w !! t_rl t = Some rl /\ signal rl = syscall.SIGHUP)
  /\ (forall p, rotations p (trace w) <= received syscall.SIGHUP (trace w))
  /\ (s <> syscall.SIGHUP -> relay s <$> tasks w = tasks w).
Proof.
  intros Hrun.
  pose proof (run_keeps ops _ _ _ (tasks_inv_init oe) Hrun) as HK.
  assert (HH : hup_only w).
  { eapply hup_only_run; [|exact Hrun]. intros c t H. discriminate. }
  split; [|split].
  - intros c t Ht. split; [eapply HH, Ht|].
    destruct (inv_ctrl _ HK c t Ht) as (rl & Hrl & Hs).
    exists rl. split; [exact Hrl|]. rewrite Hs. eapply HH, Ht.
  - intros p. destruct (task_of_dec (tasks w) p) as [(c & t & Ht & E)|Hnone].
    + pose proof (inv_count _ HK c t Ht) as Hc.
      rewrite (HH c t Ht), E in Hc. lia.
    + destruct (inv_idle _ HK p Hnone) as [_ ->]. lia.
  - intros Hne. apply fmap_fixed. intros c t Ht. unfold relay.
    rewrite bool_decide_eq_false_2; [reflexivity|].
    rewrite (HH c t Ht). congruence.
Qed.

(** *** The earlier variants *)

(** X13.  In the earlier variants [Close] closes the file and stops nothing:
    the goroutine still ranges over its channel, so the next signal
    reopens the file, points the standard logger at the new file and
    closes the old, already closed one again, to no effect.  The file
    that [Close] closed stays closed and the log is written to an open
    file again. *)
Theorem Legacy_rotation_survives_Close (rl : Legacy.LogRot) (h : handle)
    (w : World) :
  Legacy.logFile rl = Some h ->
  h < length (fobjs w) ->
  openErr w (Legacy.name rl) = None ->
  let f := length (fobjs w) in
  exists w1 w2,
    Legacy.Close (Some rl) w = Ok tt w1
    /\ is_open w1 (Some h) = false
    /\ Legacy.on_signal (Legacy.signal rl) rl w1
       = Ok (Legacy.mkLogRot (Legacy.name rl) (Some f) (Legacy.signal rl)) w2
    /\ log_out w2 = Some f
    /\ is_open w2 (Some f) = true
    /\ is_open w2 (Some h) = false
    /\ trace w2 =
         trace w
         ++ [EvClose (Some h);
             EvLog (log_out w) (MRotating (Legacy.signal rl) (Legacy.name rl));
             EvOpenFile (Legacy.name rl) open_flag open_perm (Some f);
             EvSetOutput TLog (Some f);
             EvClose (Some h)].
Proof.
  intros Hf Hlt Ho f.
  assert (Hlen : length (fobjs (closed (Some h) w)) = f)
    by (cbn; apply length_alter).
  eexists (closed (Some h) w), _.
  split; [unfold Legacy.Close; rewrite Hf; reflexivity|].
  split; [apply is_open_closed_self|].
  split.
  { unfold Legacy.on_signal. rewrite Z.eqb_refl.
    unfold bind at 1. unfold log_Output at 1, modify at 1.
    unfold bind at 1.
    erewrite Legacy_mustOpenFileForAppend_ok by (cbn; exact Ho).
    cbn [fobjs emit set_trace]. rewrite Hlen.
    unfold bind, log_SetOutput, modify, ret. rewrite file_Close_eq, Hf.
    reflexivity. }
  split; [reflexivity|].
  split.
  { change (is_open (closed (Some h)
              (emit (EvSetOutput TLog (Some f))
                 (set_log_out (Some f)
                    (emit (EvOpenFile (Legacy.name rl) open_flag open_perm (Some f))
                       (set_fobjs
                          (fobjs (closed (Some h) w)
                           ++ [mkFile (Legacy.name rl) open_flag open_perm false])
                          (emit (EvLog (log_out w)
                                   (MRotating (Legacy.signal rl) (Legacy.name rl)))
                             (closed (Some h) w)))))))
              (Some f) = true).
    rewrite is_open_closed_other by (intros [=]; unfold f in *; lia).
    unfold is_open. cbn [fobjs emit set_trace set_log_out set_fobjs].
    rewrite <- Hlen at 1. rewrite list_lookup_middle by reflexivity.
    reflexivity. }
  split.
  { change (is_open (closed (Some h)
              (emit (EvSetOutput TLog (Some f))
                 (set_log_out (Some f)
                    (emit (EvOpenFile (Legacy.name rl) open_flag open_perm (Some f))
                       (set_fobjs
                          (fobjs (closed (Some h) w)
                           ++ [mkFile (Legacy.name rl) open_flag open_perm false])
                          (emit (EvLog (log_out w)
                                   (MRotating (Legacy.signal rl) (Legacy.name rl)))
                             (closed (Some h) w)))))))
              (Some h) = false).
    apply is_open_closed_self. }
  wsimpl. rewrite <- !app_assoc. reflexivity.
Qed.

(** X14.  The two earlier variants of [rotateOn] open the file and point the
    standard logger at it, register nothing and touch neither the
    loggers nor the process streams.  The first announces the new file
    on the output the standard logger had before the switch; the second
    announces nothing.  Apart from that record they leave the same
    process state. *)
Theorem Legacy_rotateOn_announces_on_old_output (file : string) (sig : Signal)
    (w : World) :
  openErr w file = None ->
  let f := length (fobjs w) in
  exists w1 w2,
    Legacy.rotateOn file sig w = Ok (Legacy.mkLogRot file (Some f) sig) w1
    /\ Legacy.rotateOn_hup file sig w = Ok (Legacy.mkLogRot file (Some f) sig) w2
    /\ trace w1 =
         trace w ++ [EvOpenFile file open_flag open_perm (Some f);
                     EvLog (log_out w) (MPrintln "Logging to" file);
                     EvSetOutput TLog (Some f)]
    /\ trace w2 =
         trace w ++ [EvOpenFile file open_flag open_perm (Some f);
                     EvSetOutput TLog (Some f)]
    /\ state_of w1 = state_of w2
    /\ log_out w1 = Some f
    /\ is_open w1 (Some f) = true
    /\ files w1 = files w
    /\ logger_out w1 = logger_out w
    /\ os_Stdout w1 = os_Stdout w
    /\ os_Stderr w1 = os_Stderr w.
Proof.
  intros Ho f. eexists _, _.
  split.
  { unfold Legacy.rotateOn. unfold bind at 1.
    rewrite (Legacy_mustOpenFileForAppend_ok _ _ Ho). reflexivity. }
  split.
  { unfold Legacy.rotateOn_hup. unfold bind at 1.
    rewrite (Legacy_mustOpenFileForAppend_ok _ _ Ho). reflexivity. }
  split; [wsimpl; rewrite <- !app_assoc; reflexivity|].
  split; [wsimpl; rewrite <- !app_assoc; reflexivity|].
  split; [reflexivity|].
  split; [reflexivity|].
  split; [eapply is_open_fresh; reflexivity|].
  repeat split.
Qed.

(** ** The further properties at work on example processes *)

Lemma WriteTo_starts_controller_witness :
  exists w',
    WriteTo "app.log" [7] (init no_errors) = Ok 0 w'
    /\ log_out w' = Some 3
    /\ logger_out w' !! 7 = Some (Some 3)
    /\ Open "app.log" w' = Ok 3 w'.
Proof.
  destruct (WriteTo_starts_controller "app.log" [7] (init no_errors) eq_refl)
    as (w' & H1 & _ & _ & _ & _ & _ & H2 & H3 & _ & _ & _ & H4 & _).
  exists w'. split; [exact H1|]. split; [exact H2|].
  split; [apply H3; left | exact H4].
Defined.

Lemma WriteAllTo_captures_both_witness :
  exists w',
    WriteAllTo "app.log" [] (init no_errors) = Ok 0 w'
    /\ os_Stdout w' = Some 3
    /\ os_Stderr w' = Some 3
    /\ log_out w' = Some 3.
Proof.
  destruct (WriteAllTo_captures_both "app.log" [] (init no_errors) eq_refl)
    as (w0 & w' & _ & H1 & _ & _ & H2 & H3 & H4 & _).
  exists w'. auto.
Defined.

Lemma Open_again_returns_same_witness :
  Open "app.log" app_opened = Ok 3 app_opened.
Proof.
  destruct (Open_again_returns_same "app.log" (init no_errors) 3 app_opened)
    as (H & _).
  - reflexivity.
  - exact H.
Defined.

Lemma Open_touches_only_its_name_witness :
  tasks app_opened = tasks (init no_errors)
  /\ dest app_opened TLog = dest (init no_errors) TLog.
Proof.
  destruct (Open_touches_only_its_name "app.log" (init no_errors) 3 app_opened)
    as (_ & _ & H1 & H2 & _).
  - reflexivity.
  - split; [exact H1 | apply H2].
Defined.

Lemma Open_before_WriteTo_is_not_rotated_witness :
  exists w2,
    WriteTo "app.log" [] app_opened = Ok 0 w2
    /\ files w2 !! "app.log" = Some 4
    /\ is_open w2 (Some 3) = true
    /\ (forall w3, rotate 0 w2 = Ok tt w3 ->
          is_open w3 (Some 3) = true /\ is_open w3 (Some 4) = false).
Proof.
  destruct (Open_before_WriteTo_is_not_rotated "app.log" []
              (init no_errors) 3 app_opened)
    as (w2 & H1 & _ & _ & H2 & _ & H3 & H4).
  - reflexivity.
  - reflexivity.
  - reflexivity.
  - exists w2. split; [exact H1|]. split; [exact H2|]. split; [exact H3|].
    intros w3 Hr. destruct (H4 w3 Hr) as (Ha & Hb & _). auto.
Defined.

Lemma rotate_leaves_the_rest_witness :
  exists w',
    rotate 0 app_started = Ok tt w'
    /\ Open "app.log" w' = Ok 4 w'
    /\ os_Stdout w' = os_Stdout app_started.
Proof.
  assert (Hr := rotate_eq 0 app_rl app_started eq_refl eq_refl).
  destruct (rotate_leaves_the_rest 0 app_rl app_started _ eq_refl Hr)
    as (_ & H1 & _ & H2 & _).
  eexists. split; [exact Hr|]. split; [exact H1|]. apply H2. reflexivity.
Defined.

Lemma rotate_keeps_open_count_witness :
  exists w',
    rotate 0 app_started = Ok tt w'
    /\ open_count w' = open_count app_started.
Proof.
  assert (Hr := rotate_eq 0 app_rl app_started eq_refl eq_refl).
  eexists. split; [exact Hr|].
  rewrite (rotate_keeps_open_count 0 app_rl app_started _ eq_refl).
  - reflexivity.
  - intros old H. injection H as <-. cbn. lia.
  - exact Hr.
Defined.

Lemma Close_finishes_rotation_in_flight_witness :
  exists w',
    Close (Some 0) (world_of (run in_flight (init no_errors))) = Ok tt w'
    /\ is_open w' (Some 3) = false
    /\ is_open w' (Some 4) = false.
Proof.
  destruct (Close_finishes_rotation_in_flight 0 (with_logFile (Some 4) app_rl) 4 0
              (mkTask 0 syscall.SIGHUP [] (Opened (Some 3))) (Some 3)
              (world_of (run in_flight (init no_errors))))
    as (w' & H1 & _ & _ & _ & H2 & H3 & _).
  - vm_compute. reflexivity.
  - reflexivity.
  - reflexivity.
  - vm_compute. reflexivity.
  - reflexivity.
  - left. reflexivity.
  - reflexivity.
  - exists w'. auto.
Defined.

Lemma pending_signal_starts_a_rotation_witness :
  exists rl,
    ctrls (world_of (run signalled (init no_errors))) !! 0 = Some rl
    /\ syscall.SIGHUP = signal rl.
Proof.
  destruct (pending_signal_starts_a_rotation signalled no_errors
              (world_of (run signalled (init no_errors))) 0
              (mkTask 0 syscall.SIGHUP [syscall.SIGHUP] Waiting))
    as (rl & H1 & H2 & _).
  - vm_compute. reflexivity.
  - vm_compute. reflexivity.
  - exists rl. split; [exact H1 | exact H2].
Defined.

Lemma Close_stops_its_own_listener_witness :
  exists c t,
    quit app_rl = Some c
    /\ tasks (world_of (Close (Some 0) app_started)) !! c = Some t
    /\ t_pc t = Returned.
Proof.
  destruct (Close_stops_its_own_listener [CallWriteTo "app.log" [7]] no_errors
              app_started 0 app_rl 3 (world_of (Close (Some 0) app_started)))
    as (c & t & H1 & H2 & _ & H3 & _).
  - vm_compute. reflexivity.
  - reflexivity.
  - reflexivity.
  - intros [|c] t H E; [injection H as <-; reflexivity | discriminate H].
  - vm_compute. reflexivity.
  - exists c, t. auto.
Defined.

Lemma no_rotation_after_Close_witness :
  rotations 0 (trace (world_of (run after_close
                                  (world_of (Close (Some 0) app_started)))))
  = rotations 0 (trace (world_of (Close (Some 0) app_started)))
  /\ Close (Some 0) (world_of (run after_close
                                 (world_of (Close (Some 0) app_started))))
     = Blocked (world_of (run after_close
                            (world_of (Close (Some 0) app_started)))).
Proof.
  destruct (no_rotation_after_Close [CallWriteTo "app.log" [7]] no_errors
              app_started 0 app_rl 3 (world_of (Close (Some 0) app_started))
              after_close
              (world_of (run after_close (world_of (Close (Some 0) app_started)))))
    as (h1 & _ & _ & H1 & _ & _ & _ & H2).
  - vm_compute. reflexivity.
  - reflexivity.
  - reflexivity.
  - vm_compute. reflexivity.
  - vm_compute. reflexivity.
  - split; [exact H1 | exact H2].
Defined.

Lemma only_SIGHUP_rotates_witness :
  rotations 0 (trace (world_of (run burst (init no_errors))))
  <= received syscall.SIGHUP (trace (world_of (run burst (init no_errors))))
  /\ relay syscall.SIGUSR1 <$> tasks (world_of (run burst (init no_errors)))
     = tasks (world_of (run burst (init no_errors))).
Proof.
  destruct (only_SIGHUP_rotates burst no_errors
              (world_of (run burst (init no_errors))) syscall.SIGUSR1)
    as (_ & H1 & H2).
  - vm_compute. reflexivity.
  - split; [apply H1|]. apply H2. vm_compute. lia.
Defined.

Lemma Legacy_rotation_survives_Close_witness :
  exists w1 w2,
    Legacy.Close (Some (Legacy.mkLogRot "app.log" (Some 3) syscall.SIGUSR1))
      legacy_started = Ok tt w1
    /\ is_open w1 (Some 3) = false
    /\ Legacy.on_signal syscall.SIGUSR1
         (Legacy.mkLogRot "app.log" (Some 3) syscall.SIGUSR1) w1
       = Ok (Legacy.mkLogRot "app.log" (Some 4) syscall.SIGUSR1) w2
    /\ is_open w2 (Some 4) = true.
Proof.
  destruct (Legacy_rotation_survives_Close
              (Legacy.mkLogRot "app.log" (Some 3) syscall.SIGUSR1) 3
              legacy_started)
    as (w1 & w2 & H1 & H2 & H3 & _ & H4 & _).
  - reflexivity.
  - vm_compute. lia.
  - reflexivity.
  - exists w1, w2. auto.
Defined.

Lemma Legacy_rotateOn_announces_on_old_output_witness :
  exists w1,
    Legacy.rotateOn "app.log" syscall.SIGUSR1 (init no_errors)
    = Ok (Legacy.mkLogRot "app.log" (Some 3) syscall.SIGUSR1) w1
    /\ trace w1 = [EvOpenFile "app.log" open_flag open_perm (Some 3);
                   EvLog (Some 2) (MPrintln "Logging to" "app.log");
                   EvSetOutput TLog (Some 3)].
Proof.
  destruct (Legacy_rotateOn_announces_on_old_output "app.log" syscall.SIGUSR1
              (init no_errors))
    as (w1 & w2 & H1 & _ & H2 & _).
  - reflexivity.
  - exists w1. split; [exact H1 | exact H2].
Defined.

(** ** Outputs stay on open files *)

Lemma elem_targets rl t :
  t ∈ targets rl <->
  match t with
  | TLog => True
  | TLogger l => l ∈ loggers rl
  | TStdout => captureStdout rl = true
  | TStderr => captureStderr rl = true
  end.
Proof.
  unfold targets. split.
  - intros H. apply elem_of_cons in H as [->|H]; [exact I|].
    apply elem_of_app in H as [H|H].
    { apply list_elem_of_fmap in H as (l & -> & Hl). exact Hl. }
    apply elem_of_app in H as [H|H].
    + destruct (captureStdout rl); [|inversion H].
      apply list_elem_of_singleton in H as ->. reflexivity.
    + destruct (captureStderr rl); [|inversion H].
      apply list_elem_of_singleton in H as ->. reflexivity.
  - intros H. destruct t.
    + left.
    + right. apply elem_of_app. left. apply list_elem_of_fmap. eauto.
    + right. apply elem_of_app. right. apply elem_of_app. left.
      rewrite H. left.
    + right. apply elem_of_app. right. apply elem_of_app. right.
      rewrite H. left.
Qed.

Lemma dest_redirected rl w t :
  (t ∈ targets rl /\ dest (redirected rl w) t = logFile rl)
  \/ ((t ∉ targets rl) /\ dest (redirected rl w) t = dest w t).
Proof.
  rewrite elem_targets. destruct t.
  - left. split; [exact I | reflexivity].
  - destruct (decide (l ∈ loggers rl)) as [Hin|Hnin].
    + left. split; [exact Hin|]. cbn [dest logger_out redirected].
      rewrite redirect_loggers_in by exact Hin. reflexivity.
    + right. split; [exact Hnin|]. cbn [dest logger_out redirected].
      rewrite redirect_loggers_notin by exact Hnin. reflexivity.
  - destruct (captureStdout rl) eqn:E.
    + left. split; [reflexivity|]. cbn. rewrite E. reflexivity.
    + right. split; [congruence|]. cbn. rewrite E. reflexivity.
  - destruct (captureStderr rl) eqn:E.
    + left. split; [reflexivity|]. cbn. rewrite E. reflexivity.
    + right. split; [congruence|]. cbn. rewrite E. reflexivity.
Qed.

Lemma target_eq_dec (a b : target) : a = b \/ a <> b.
Proof.
  destruct a as [|l| |], b as [|l'| |];
    try (left; reflexivity); try (right; discriminate).
  destruct (decide (l = l')) as [->|Hne]; [left; reflexivity|].
  right. intros [=]. contradiction.
Qed.

Lemma cur_insert w w' A rl rl' p h :
  ctrls w !! A = Some rl ->
  ctrls w' = <[A := rl']> (ctrls w) ->
  cur w' p h <-> (p = A /\ logFile rl' = Some h) \/ (p <> A /\ cur w p h).
Proof.
  intros HA E. unfold cur. rewrite E. destruct (decide (p = A)) as [->|Hne].
  - rewrite (lookup_ctrl_insert _ _ _ _ HA). split.
    + intros (r & [= <-] & H). left. auto.
    + intros [[_ H]|[Hne _]]; [eauto | contradiction].
  - rewrite list_lookup_insert_ne by congruence. split.
    + intros H. right. auto.
    + intros [[-> _]|[_ H]]; [contradiction | exact H].
Qed.

Lemma tgt_insert w w' A rl rl' p t :
  ctrls w !! A = Some rl ->
  ctrls w' = <[A := rl']> (ctrls w) ->
  tgt w' p t <-> (p = A /\ t ∈ targets rl') \/ (p <> A /\ tgt w p t).
Proof.
  intros HA E. unfold tgt. rewrite E. destruct (decide (p = A)) as [->|Hne].
  - rewrite (lookup_ctrl_insert _ _ _ _ HA). split.
    + intros (r & [= <-] & H). left. auto.
    + intros [[_ H]|[Hne _]]; [eauto | contradiction].
  - rewrite list_lookup_insert_ne by congruence. split.
    + intros H. right. auto.
    + intros [[-> _]|[_ H]]; [contradiction | exact H].
Qed.

Lemma cur_snoc w w' rlN p h :
  ctrls w' = ctrls w ++ [rlN] ->
  cur w' p h <->
  cur w p h \/ (p = length (ctrls w) /\ logFile rlN = Some h).
Proof.
  intros E. unfold cur. rewrite E. split.
  - intros (r & Hr & H). apply lookup_app_Some in Hr as [Hr|[Hge Hr]].
    + left. eauto.
    + apply list_lookup_singleton_Some in Hr as [Hz <-]. right.
      split; [lia | exact H].
  - intros [(r & Hr & H)|[-> H]].
    + exists r. split; [apply lookup_app_l_Some, Hr | exact H].
    + exists rlN. split; [apply list_lookup_middle; reflexivity | exact H].
Qed.

Lemma tgt_snoc w w' rlN p t :
  ctrls w' = ctrls w ++ [rlN] ->
  tgt w' p t <->
  tgt w p t \/ (p = length (ctrls w) /\ t ∈ targets rlN).
Proof.
  intros E. unfold tgt. rewrite E. split.
  - intros (r & Hr & H). apply lookup_app_Some in Hr as [Hr|[Hge Hr]].
    + left. eauto.
    + apply list_lookup_singleton_Some in Hr as [Hz <-]. right.
      split; [lia | exact H].
  - intros [(r & Hr & H)|[-> H]].
    + exists r. split; [apply lookup_app_l_Some, Hr | exact H].
    + exists rlN. split; [apply list_lookup_middle; reflexivity | exact H].
Qed.

Lemma rotating_alter w w' c tk g p s :
  tasks_inv w ->
  tasks w !! c = Some tk ->
  tasks w' = alter g c (tasks w) ->
  t_rl (g tk) = t_rl tk ->
  rotating w' p s <->
  (p = t_rl tk /\ s = t_pc (g tk)) \/ (p <> t_rl tk /\ rotating w p s).
Proof.
  intros HK Ht E Hg. unfold rotating. rewrite E. split.
  - intros (c' & x' & H' & Hp & Hs).
    apply lookup_alter_Some in H' as [(-> & x & Hx & ->)|(Hne & H')].
    + assert (x = tk) as -> by congruence. left. split; congruence.
    + right. split; [|eauto]. intros ->. apply Hne.
      eapply (inv_owner _ HK); [exact H' | exact Ht | congruence].
  - intros [[-> ->]|(Hne & c' & x' & H' & Hp & Hs)].
    + exists c, (g tk). rewrite list_lookup_alter_eq, Ht. auto.
    + exists c', x'. split; [|auto].
      rewrite list_lookup_alter_ne; [exact H'|]. intros ->.
      apply Hne. congruence.
Qed.

Lemma rotating_snoc w w' tkN p s :
  tasks w' = tasks w ++ [tkN] ->
  rotating w' p s <-> rotating w p s \/ (p = t_rl tkN /\ s = t_pc tkN).
Proof.
  intros E. unfold rotating. rewrite E. split.
  - intros (c & x & H & Hp & Hs). apply lookup_app_Some in H as [H|[_ H]].
    + left. eauto.
    + apply list_lookup_singleton_Some in H as [_ <-]. right. auto.
  - intros [(c & x & H & Hp & Hs)|[-> ->]].
    + exists c, x. split; [apply lookup_app_l_Some, H | auto].
    + exists (length (tasks w)), tkN.
      split; [apply list_lookup_middle; reflexivity | auto].
Qed.

Lemma is_open_lt w h : is_open w (Some h) = true -> h < length (fobjs w).
Proof.
  unfold is_open. destruct (fobjs w !! h) eqn:E; [|discriminate].
  intros _. eapply lookup_lt_Some, E.
Qed.

Lemma safe_init oe : safe (init oe).
Proof.
  split.
  - intros p h (rl & H & _). discriminate.
  - intros p q h (rl & H & _). discriminate.
  - intros p o [(c & tk & H & _)|(c & tk & H & _)]; discriminate.
  - intros p s (c & tk & H & _). discriminate.
  - intros t d H. destruct t; cbn in H; try discriminate;
      injection H as <-; reflexivity.
  - discriminate.
  - intros p h t (rl & H & _). discriminate.
  - intros p o t (c & tk & H & _). discriminate.
  - intros p o t (c & tk & H & _). discriminate.
Qed.

(** Steps that redirect nothing, rotate nothing and close nothing. *)
Lemma safe_frame w w' :
  (forall p h, cur w' p h <-> cur w p h) ->
  (forall p t, tgt w p t -> tgt w' p t) ->
  (forall p s, rotating w' p s -> rotating w p s) ->
  (forall t, dest w' t = dest w t) ->
  (forall d, is_open w d = true -> is_open w' d = true) ->
  length (fobjs w) <= length (fobjs w') ->
  safe w -> safe w'.
Proof.
  intros Hc Ht Hr Hd Ho Hl [S1 S2 S3 S4 S5 S6 S7 S8 S9]. split.
  - intros p h H. apply Ho, (S1 p), Hc, H.
  - intros p q h H1 H2. apply (S2 p q h); apply Hc; assumption.
  - intros p o H.
    assert (H' : rotating w p (Opened (Some o))
                 \/ rotating w p (Redirected (Some o)))
      by (destruct H as [H|H]; [left | right]; apply Hr, H).
    destruct (S3 p o H') as [Hlt Hn]. split; [lia|].
    intros q Hq. apply (Hn q), Hc, Hq.
  - intros p s H. destruct (S4 p s (Hr _ _ H)) as (h & Hh).
    exists h. apply Hc, Hh.
  - intros t d H. rewrite Hd in H. apply Ho, (S5 t), H.
  - specialize (Hd TLog). cbn in Hd. rewrite Hd. exact S6.
  - intros p h t H1 H2. rewrite Hd in H2. apply Ht, (S7 p h); [apply Hc|];
      assumption.
  - intros p o t H1 H2. rewrite Hd in H2. apply Ht, (S8 p o); [apply Hr|];
      assumption.
  - intros p o t H1. rewrite Hd. apply (S9 p o), Hr, H1.
Qed.

(** A capture: the stream [x] becomes a target of the controller [A]
    and is pointed at its current file. *)
Lemma safe_capture w w' A rl rl' x :
  ctrls w !! A = Some rl ->
  ctrls w' = <[A := rl']> (ctrls w) ->
  logFile rl' = logFile rl ->
  (forall t, t ∈ targets rl -> t ∈ targets rl') ->
  x ∈ targets rl' ->
  x <> TLog ->
  dest w' x = logFile rl ->
  (forall t, t <> x -> dest w' t = dest w t) ->
  tasks w' = tasks w ->
  fobjs w' = fobjs w ->
  safe w -> safe w'.
Proof.
  intros HA Ec Hl Hsub Hx Hlog Hdx Hd Et Ef [S1 S2 S3 S4 S5 S6 S7 S8 S9].
  assert (Hc : forall p h, cur w' p h <-> cur w p h).
  { intros p h. rewrite (cur_insert w w' A rl rl' p h HA Ec). unfold cur. split.
    - intros [[-> H]|[_ H]]; [exists rl; split; congruence | exact H].
    - intros (r & Hr & H). destruct (decide (p = A)) as [->|Hne].
      + left. split; [reflexivity | congruence].
      + right. split; [exact Hne | eauto]. }
  assert (Ht : forall p t, tgt w p t -> tgt w' p t).
  { intros p t (r & Hr & H). apply (tgt_insert w w' A rl rl' p t HA Ec).
    destruct (decide (p = A)) as [->|Hne].
    - left. split; [reflexivity|]. apply Hsub. congruence.
    - right. split; [exact Hne | exists r; auto]. }
  assert (HxA : tgt w' A x).
  { apply (tgt_insert w w' A rl rl' A x HA Ec). left. auto. }
  assert (Hr : forall p s, rotating w' p s <-> rotating w p s)
    by (intros p s; unfold rotating; rewrite Et; reflexivity).
  assert (Ho : forall d, is_open w' d = is_open w d)
    by (intros d; apply is_open_fobjs, Ef).
  assert (HcA : forall h, logFile rl = Some h -> cur w A h)
    by (intros h H; exists rl; auto).
  split.
  - intros p h H. rewrite Ho. apply (S1 p), Hc, H.
  - intros p q h H1 H2. apply (S2 p q h); apply Hc; assumption.
  - intros p o H. rewrite Ef.
    assert (H' : rotating w p (Opened (Some o))
                 \/ rotating w p (Redirected (Some o)))
      by (destruct H as [H|H]; [left | right]; apply Hr, H).
    destruct (S3 p o H') as [Hlt Hn]. split; [lia|].
    intros q Hq. apply (Hn q), Hc, Hq.
  - intros p s H. apply Hr in H. destruct (S4 p s H) as (h & Hh).
    exists h. apply Hc, Hh.
  - intros t d H. rewrite Ho. destruct (target_eq_dec t x) as [->|Hne].
    + rewrite Hdx in H. apply (S1 A), HcA, H.
    + rewrite Hd in H by exact Hne. apply (S5 t), H.
  - assert (E : dest w' TLog = dest w TLog) by (apply Hd; congruence).
    cbn in E. rewrite E. exact S6.
  - intros p h t H1 H2. apply Hc in H1.
    destruct (target_eq_dec t x) as [->|Hne].
    + rewrite Hdx in H2. rewrite (S2 p A h H1 (HcA h H2)). exact HxA.
    + rewrite Hd in H2 by exact Hne. apply Ht, (S7 p h); assumption.
  - intros p o t H1 H2. apply Hr in H1.
    destruct (target_eq_dec t x) as [->|Hne].
    + rewrite Hdx in H2. destruct (S3 p o (or_introl H1)) as [_ Hn].
      destruct (Hn A (HcA o H2)).
    + rewrite Hd in H2 by exact Hne. apply Ht, (S8 p o); assumption.
  - intros p o t H1 H2. apply Hr in H1.
    destruct (target_eq_dec t x) as [->|Hne].
    + rewrite Hdx in H2. destruct (S3 p o (or_intror H1)) as [_ Hn].
      destruct (Hn A (HcA o H2)).
    + rewrite Hd in H2 by exact Hne. apply (S9 p o t H1), H2.
Qed.

(** The start of a controller. *)
Lemma safe_started file sig ls w :
  tasks_inv w -> safe w -> safe (started file sig ls w).
Proof.
  intros HK [S1 S2 S3 S4 S5 S6 S7 S8 S9].
  pose (rlN := mkLogRot file (Some (length (fobjs w))) sig
                 (Some (length (tasks w))) ls false false).
  pose (w' := started file sig ls w).
  assert (Hc : forall p h, cur w' p h <->
            cur w p h \/ (p = length (ctrls w) /\ h = length (fobjs w))).
  { intros p h. rewrite (cur_snoc w w' rlN p h eq_refl). cbn [logFile rlN].
    split; (intros [H|[-> H]]; [left; exact H | right; split; congruence]). }
  assert (Ht : forall p t, tgt w' p t <->
            tgt w p t \/ (p = length (ctrls w) /\ t ∈ targets rlN))
    by (intros p t; apply (tgt_snoc w w' rlN); reflexivity).
  assert (Hr : forall p s, rotating w' p s <->
            rotating w p s \/ (p = length (ctrls w) /\ s = Waiting))
    by (intros p s;
        apply (rotating_snoc w w' (mkTask (length (ctrls w)) sig [] Waiting));
        reflexivity).
  assert (Hd : forall t,
            (t ∈ targets rlN /\ dest w' t = Some (length (fobjs w)))
            \/ ((t ∉ targets rlN) /\ dest w' t = dest w t)).
  { intros t.
    destruct (dest_redirected rlN w t) as [[H1 H2]|[H1 H2]]; [left|right];
      (split; [exact H1|]);
      (transitivity (dest (redirected rlN w) t);
       [destruct t; reflexivity | exact H2]). }
  assert (Hof : is_open w' (Some (length (fobjs w))) = true)
    by (eapply is_open_fresh; reflexivity).
  assert (Hog : forall d, is_open w d = true -> is_open w' d = true)
    by (intros d; eapply is_open_grow; reflexivity).
  assert (Hrange : forall p h, cur w p h -> h < length (fobjs w))
    by (intros p h (r & Hr' & Hh); eapply (inv_file _ HK); eassumption).
  assert (Hdr : forall t d, dest w t = Some d -> d < length (fobjs w))
    by (intros t d H; apply is_open_lt, (S5 t), H).
  assert (Hlen : length (fobjs w') = S (length (fobjs w)))
    by (cbn; rewrite length_app; cbn; lia).
  assert (Hrot : forall p o,
            rotating w' p (Opened (Some o)) \/ rotating w' p (Redirected (Some o)) ->
            rotating w p (Opened (Some o)) \/ rotating w p (Redirected (Some o))).
  { intros p o [H|H]; apply Hr in H as [H|[_ H]]; try discriminate; auto. }
  change (safe w'). split.
  - intros p h H. apply Hc in H as [H|[-> ->]];
      [apply Hog, (S1 p), H | exact Hof].
  - intros p q h H1 H2. apply Hc in H1, H2.
    destruct H1 as [H1|[-> E1]], H2 as [H2|[-> E2]].
    + eapply S2; eassumption.
    + subst h. apply Hrange in H1. lia.
    + subst h. apply Hrange in H2. lia.
    + reflexivity.
  - intros p o H. destruct (S3 p o (Hrot p o H)) as [Hlt Hn].
    split; [rewrite Hlen; lia|].
    intros q Hq. apply Hc in Hq as [Hq|[_ ->]]; [exact (Hn q Hq) | lia].
  - intros p s H. apply Hr in H as [H|[-> _]].
    + destruct (S4 p s H) as (h & Hh). exists h. apply Hc. left. exact Hh.
    + exists (length (fobjs w)). apply Hc. right. auto.
  - intros t d H. destruct (Hd t) as [[_ E]|[_ E]]; rewrite E in H.
    + injection H as <-. exact Hof.
    + apply Hog, (S5 t), H.
  - discriminate.
  - intros p h t H1 H2. apply Ht. apply Hc in H1.
    destruct (Hd t) as [[Hin E]|[Hnin E]]; rewrite E in H2.
    + injection H2 as <-.
      destruct H1 as [H1|[-> _]]; [apply Hrange in H1; lia | right; auto].
    + destruct H1 as [H1|[-> ->]];
        [left; eapply S7; eassumption | apply Hdr in H2; lia].
  - intros p o t H1 H2. apply Ht.
    destruct (S3 p o (Hrot p o (or_introl H1))) as [Hlt _].
    apply Hr in H1 as [H1|[_ H1]]; [|discriminate].
    destruct (Hd t) as [[Hin E]|[Hnin E]]; rewrite E in H2.
    + injection H2 as <-. lia.
    + left. eapply S8; eassumption.
  - intros p o t H1 H2.
    destruct (S3 p o (Hrot p o (or_intror H1))) as [Hlt _].
    apply Hr in H1 as [H1|[_ H1]]; [|discriminate].
    destruct (Hd t) as [[Hin E]|[Hnin E]]; rewrite E in H2.
    + injection H2 as <-. lia.
    + exact (S9 p o t H1 H2).
Qed.

Lemma listener_step_begin_dest c t q rl w w' :
  tasks w !! c = Some t ->
  t_pc t = Waiting ->
  t_sigs t = signal rl :: q ->
  ctrls w !! t_rl t = Some rl ->
  openErr w (name rl) = None ->
  listener_step c w = Ok tt w' ->
  forall x, dest w' x = dest w x.
Proof.
  intros Ht Hpc Hs Hrl Ho E. unfold listener_step in E.
  rewrite Ht, Hpc, Hs in E.
  unfold bind at 1 in E. unfold set_sigs at 1, modify at 1 in E.
  unfold bind at 1 in E. unfold deref at 1 in E.
  cbn [ctrls set_tasks] in E. rewrite Hrl in E.
  rewrite Z.eqb_refl in E.
  unfold bind at 1 in E. unfold log_Output at 1, modify at 1 in E.
  unfold bind at 1 in E. unfold modify at 1 in E.
  unfold bind at 1 in E. rewrite mustOpenFileForAppend_ok in E by exact Ho.
  unfold bind at 1 in E. erewrite update_eq in E by (cbn; exact Hrl).
  unfold set_pc, modify in E. injection E as <-.
  intros x. destruct x; reflexivity.
Qed.

(** The first slice of a rotation: the file is reopened and stored. *)
Lemma safe_begin c tk q rl w w' :
  tasks_inv w -> safe w ->
  tasks w !! c = Some tk ->
  t_pc tk = Waiting ->
  t_sigs tk = signal rl :: q ->
  ctrls w !! t_rl tk = Some rl ->
  openErr w (name rl) = None ->
  listener_step c w = Ok tt w' ->
  safe w'.
Proof.
  intros HK [S1 S2 S3 S4 S5 S6 S7 S8 S9] Htk Hpc Hs Hrl Ho E.
  pose proof (listener_step_begin_dest c tk q rl w w' Htk Hpc Hs Hrl Ho E) as Hd.
  destruct (listener_step_begin c tk q rl w Htk Hpc Hs Hrl Ho)
    as (x & Hx & Hta & _ & Hct & Hfo).
  rewrite Hx in E. apply (f_equal world_of) in E. cbn [world_of] in E. subst x.
  assert (Hc : forall p h, cur w' p h <->
            (p = t_rl tk /\ h = length (fobjs w)) \/ (p <> t_rl tk /\ cur w p h)).
  { intros p h. rewrite (cur_insert w w' (t_rl tk) rl _ p h Hrl Hct).
    cbn [logFile with_logFile].
    split; (intros [[-> H]|H]; [left; split; congruence | right; exact H]). }
  assert (Ht : forall p t, tgt w p t -> tgt w' p t).
  { intros p t (r & Hr & H).
    apply (tgt_insert w w' (t_rl tk) rl _ p t Hrl Hct).
    destruct (decide (p = t_rl tk)) as [->|Hne];
      [left | right; split; [exact Hne | exists r; auto]].
    split; [reflexivity|]. rewrite targets_with_logFile. congruence. }
  assert (Hr : forall p s, rotating w' p s <->
            (p = t_rl tk /\ s = Opened (logFile rl))
            \/ (p <> t_rl tk /\ rotating w p s)).
  { intros p s. apply (rotating_alter w w' c tk _ p s HK Htk Hta). reflexivity. }
  assert (Hof : is_open w' (Some (length (fobjs w))) = true)
    by (eapply is_open_fresh; exact Hfo).
  assert (Hog : forall d, is_open w d = true -> is_open w' d = true)
    by (intros d; eapply is_open_grow; exact Hfo).
  assert (Hrange : forall p h, cur w p h -> h < length (fobjs w))
    by (intros p h (r & Hr' & Hh); eapply (inv_file _ HK); eassumption).
  assert (Hdr : forall t d, dest w t = Some d -> d < length (fobjs w))
    by (intros t d H; apply is_open_lt, (S5 t), H).
  assert (Hlen : length (fobjs w') = S (length (fobjs w)))
    by (rewrite Hfo, length_app; cbn; lia).
  assert (HA : forall o, logFile rl = Some o -> cur w (t_rl tk) o)
    by (intros o H; exists rl; auto).
  split.
  - intros p h H. apply Hc in H as [[-> ->]|[_ H]];
      [exact Hof | apply Hog, (S1 p), H].
  - intros p p' h H1 H2. apply Hc in H1, H2.
    destruct H1 as [[-> E1]|[N1 H1]], H2 as [[-> E2]|[N2 H2]].
    + reflexivity.
    + subst h. apply Hrange in H2. lia.
    + subst h. apply Hrange in H1. lia.
    + eapply S2; eassumption.
  - intros p o H.
    assert (Hcase : (p = t_rl tk /\ logFile rl = Some o)
                    \/ (p <> t_rl tk
                        /\ (rotating w p (Opened (Some o))
                            \/ rotating w p (Redirected (Some o))))).
    { destruct H as [H|H]; apply Hr in H as [[-> H]|[Hne H]].
      - left. split; [reflexivity | congruence].
      - right. auto.
      - discriminate.
      - right. auto. }
    destruct Hcase as [[-> Ho']|[Hne H']].
    + pose proof (Hrange _ _ (HA o Ho')) as Hlt. split; [rewrite Hlen; lia|].
      intros p' Hq. apply Hc in Hq as [[_ ->]|[Hne Hq]]; [lia|].
      apply Hne. eapply S2; [exact Hq | exact (HA o Ho')].
    + destruct (S3 p o H') as [Hlt Hn]. split; [rewrite Hlen; lia|].
      intros p' Hq. apply Hc in Hq as [[_ ->]|[_ Hq]]; [lia | exact (Hn p' Hq)].
  - intros p s H. apply Hr in H as [[-> _]|[Hne H]].
    + exists (length (fobjs w)). apply Hc. left. auto.
    + destruct (S4 p s H) as (h & Hh). exists h. apply Hc. right. auto.
  - intros t d H. rewrite Hd in H. apply Hog, (S5 t), H.
  - specialize (Hd TLog). cbn in Hd. rewrite Hd. exact S6.
  - intros p h t H1 H2. rewrite Hd in H2. apply Hc in H1 as [[-> ->]|[_ H1]].
    + apply Hdr in H2. lia.
    + apply Ht, (S7 p h); assumption.
  - intros p o t H1 H2. rewrite Hd in H2. apply Ht.
    apply Hr in H1 as [[-> H1]|[_ H1]].
    + apply (S7 (t_rl tk) o); [apply HA; congruence | exact H2].
    + apply (S8 p o); assumption.
  - intros p o t H1. rewrite Hd. apply Hr in H1 as [[_ H1]|[_ H1]];
      [discriminate | exact (S9 p o t H1)].
Qed.

(** The second slice: the targets of the controller are redirected. *)
Lemma safe_redirect c tk old rl w :
  tasks_inv w -> safe w ->
  tasks w !! c = Some tk ->
  t_pc tk = Opened old ->
  ctrls w !! t_rl tk = Some rl ->
  safe (set_tasks (alter (with_pc (Redirected old)) c (tasks w)) (redirected rl w)).
Proof.
  intros HK [S1 S2 S3 S4 S5 S6 S7 S8 S9] Htk Hpc Hrl.
  pose (w' := set_tasks (alter (with_pc (Redirected old)) c (tasks w))
                (redirected rl w)).
  assert (HrA : rotating w (t_rl tk) (Opened old))
    by (exists c, tk; auto).
  destruct (S4 _ _ HrA) as (hA & r & Hr0 & HhA).
  assert (r = rl) as -> by congruence.
  assert (HcA : cur w (t_rl tk) hA) by (exists rl; auto).
  assert (Hc : forall p h, cur w' p h <-> cur w p h) by reflexivity.
  assert (Ht : forall p t, tgt w' p t <-> tgt w p t) by reflexivity.
  assert (Hr : forall p s, rotating w' p s <->
            (p = t_rl tk /\ s = Redirected old)
            \/ (p <> t_rl tk /\ rotating w p s)).
  { intros p s. apply (rotating_alter w w' c tk _ p s HK Htk eq_refl).
    reflexivity. }
  assert (Hd : forall t,
            (t ∈ targets rl /\ dest w' t = Some hA)
            \/ ((t ∉ targets rl) /\ dest w' t = dest w t)).
  { intros t.
    destruct (dest_redirected rl w t) as [[H1 H2]|[H1 H2]]; [left|right];
      (split; [exact H1|]); rewrite <- ?HhA;
      (transitivity (dest (redirected rl w) t);
       [destruct t; reflexivity | exact H2]). }
  assert (Ho : forall d, is_open w' d = is_open w d) by reflexivity.
  assert (Hrot : forall p o,
            rotating w' p (Opened (Some o)) \/ rotating w' p (Redirected (Some o)) ->
            rotating w p (Opened (Some o)) \/ rotating w p (Redirected (Some o))).
  { intros p o [H|H]; apply Hr in H as [[-> H]|[_ H]]; auto; try discriminate.
    injection H as <-. left. exact HrA. }
  change (safe w'). split.
  - intros p h H. rewrite Ho. apply (S1 p), H.
  - exact S2.
  - intros p o H. apply (S3 p o), Hrot, H.
  - intros p s H. apply Hr in H as [[-> _]|[_ H]];
      [exists hA; exact HcA | exact (S4 p s H)].
  - intros t d H. rewrite Ho. destruct (Hd t) as [[_ E]|[_ E]]; rewrite E in H.
    + injection H as <-. apply (S1 _ _ HcA).
    + apply (S5 t), H.
  - destruct (Hd TLog) as [[_ E]|[_ E]]; cbn [dest] in E; rewrite E;
      [discriminate | exact S6].
  - intros p h t H1 H2. destruct (Hd t) as [[Hin E]|[Hnin E]]; rewrite E in H2.
    + injection H2 as <-. rewrite (S2 p (t_rl tk) hA H1 HcA).
      exists rl. auto.
    + apply (S7 p h); assumption.
  - intros p o t H1 H2.
    destruct (S3 p o (Hrot p o (or_introl H1))) as [_ Hn].
    apply Hr in H1 as [[_ H1]|[_ H1]]; [discriminate|].
    destruct (Hd t) as [[Hin E]|[Hnin E]]; rewrite E in H2.
    + injection H2 as <-. destruct (Hn _ HcA).
    + apply (S8 p o); assumption.
  - intros p o t H1 H2.
    destruct (S3 p o (Hrot p o (or_intror H1))) as [_ Hn].
    destruct (Hd t) as [[Hin E]|[Hnin E]]; rewrite E in H2.
    + injection H2 as <-. destruct (Hn _ HcA).
    + apply Hr in H1 as [[-> H1]|[_ H1]].
      * injection H1 as <-.
        destruct (S8 _ _ t HrA H2) as (r & Hr1 & Hin).
        apply Hnin. congruence.
      * exact (S9 p o t H1 H2).
Qed.

(** The third slice: the old file is closed. *)
Lemma safe_end c tk old w :
  tasks_inv w -> safe w ->
  tasks w !! c = Some tk ->
  t_pc tk = Redirected old ->
  safe (set_tasks (alter (with_pc Waiting) c (tasks w))
          (emit (EvRotated (t_rl tk)) (closed old w))).
Proof.
  intros HK [S1 S2 S3 S4 S5 S6 S7 S8 S9] Htk Hpc.
  pose (w' := set_tasks (alter (with_pc Waiting) c (tasks w))
                (emit (EvRotated (t_rl tk)) (closed old w))).
  assert (HrA : rotating w (t_rl tk) (Redirected old))
    by (exists c, tk; auto).
  assert (Hc : forall p h, cur w' p h <-> cur w p h) by reflexivity.
  assert (Ht : forall p t, tgt w' p t <-> tgt w p t) by reflexivity.
  assert (Hr : forall p s, rotating w' p s <->
            (p = t_rl tk /\ s = Waiting) \/ (p <> t_rl tk /\ rotating w p s)).
  { intros p s. apply (rotating_alter w w' c tk _ p s HK Htk eq_refl).
    reflexivity. }
  assert (Hd : forall t, dest w' t = dest w t)
    by (intros t; destruct t; reflexivity).
  assert (Ho : forall h, old <> Some h -> is_open w' (Some h) = is_open w (Some h)).
  { intros h Hne. rewrite <- (is_open_closed_other old h w Hne).
    apply is_open_fobjs. reflexivity. }
  assert (Hlen : length (fobjs w') = length (fobjs w)).
  { cbn. destruct old; [apply length_alter | reflexivity]. }
  assert (Hrot : forall p o,
            rotating w' p (Opened (Some o)) \/ rotating w' p (Redirected (Some o)) ->
            rotating w p (Opened (Some o)) \/ rotating w p (Redirected (Some o))).
  { intros p o [H|H]; apply Hr in H as [[_ H]|[_ H]]; auto; discriminate. }
  change (safe w'). split.
  - intros p h H. rewrite Ho; [apply (S1 p), H|].
    intros ->. destruct (S3 _ h (or_intror HrA)) as [_ Hn]. exact (Hn p H).
  - exact S2.
  - intros p o H. rewrite Hlen. apply (S3 p o), Hrot, H.
  - intros p s H. apply Hr in H as [[-> _]|[_ H]]; [|exact (S4 p s H)].
    exact (S4 _ _ HrA).
  - intros t d H. rewrite Hd in H. rewrite Ho; [apply (S5 t), H|].
    intros ->. exact (S9 _ d t HrA H).
  - exact S6.
  - intros p h t H1 H2. rewrite Hd in H2. apply (S7 p h); assumption.
  - intros p o t H1 H2. rewrite Hd in H2.
    apply Hr in H1 as [[_ H1]|[_ H1]]; [discriminate|].
    apply (S8 p o); assumption.
  - intros p o t H1. rewrite Hd.
    apply Hr in H1 as [[_ H1]|[_ H1]]; [discriminate|].
    exact (S9 p o t H1).
Qed.

Lemma safe_Open file :
  keeps (fun w => tasks_inv w /\ safe w) (Open file).
Proof.
  intros w h w' [HK HS] E.
  split; [eapply (keeps_quiet _ (Open_quiet file)); eassumption|].
  destruct (Open_cases _ _ _ _ E) as [(_ & ->)|(_ & _ & _ & ->)]; [exact HS|].
  apply (safe_frame w); try exact HS.
  - intros p x. reflexivity.
  - intros p t H. exact H.
  - intros p s H. exact H.
  - intros t. destruct t; reflexivity.
  - intros d. eapply is_open_grow. reflexivity.
  - cbn. rewrite length_app. lia.
Qed.

Lemma safe_WriteTo file ls :
  keeps (fun w => tasks_inv w /\ safe w) (WriteTo file ls).
Proof.
  intros w a w' [HK HS] E. unfold WriteTo in E.
  destruct (openErr w file) as [e|] eqn:Ho.
  - rewrite (rotateOn_err _ _ _ _ _ Ho) in E. discriminate.
  - rewrite (rotateOn_eq _ _ _ _ Ho) in E. injection E as _ <-.
    split; [apply tasks_inv_started, HK | apply safe_started; assumption].
Qed.

Lemma targets_captured rl t :
  t ∈ targets rl ->
  t ∈ targets (with_captureStdout true rl)
  /\ t ∈ targets (with_captureStderr true rl).
Proof.
  rewrite !elem_targets. destruct t; cbn; auto.
Qed.

Lemma safe_Capture p :
  keeps (fun w => tasks_inv w /\ safe w) (CaptureStdout p)
  /\ keeps (fun w => tasks_inv w /\ safe w) (CaptureStderr p).
Proof.
  split; intros w [] w' [HK HS] E.
  - split; [eapply (keeps_quiet _ (proj1 (Capture_quiet p))); eassumption|].
    destruct (ctrls w !! p) as [rl|] eqn:Hp.
    2:{ unfold CaptureStdout, update, bind, deref in E. rewrite Hp in E.
        discriminate. }
    rewrite (CaptureStdout_eq _ _ _ Hp) in E. injection E as <-.
    apply (safe_capture w _ p rl (with_captureStdout true rl) TStdout Hp);
      try reflexivity; try exact HS.
    + intros t Ht. apply targets_captured, Ht.
    + apply elem_targets. reflexivity.
    + discriminate.
    + intros t Hne. destruct t; try reflexivity. contradiction.
  - split; [eapply (keeps_quiet _ (proj2 (Capture_quiet p))); eassumption|].
    destruct (ctrls w !! p) as [rl|] eqn:Hp.
    2:{ unfold CaptureStderr, update, bind, deref in E. rewrite Hp in E.
        discriminate. }
    rewrite (CaptureStderr_eq _ _ _ Hp) in E. injection E as <-.
    apply (safe_capture w _ p rl (with_captureStderr true rl) TStderr Hp);
      try reflexivity; try exact HS.
    + intros t Ht. apply targets_captured, Ht.
    + apply elem_targets. reflexivity.
    + discriminate.
    + intros t Hne. destruct t; try reflexivity. contradiction.
Qed.

Lemma safe_listener c :
  keeps (fun w => tasks_inv w /\ safe w) (listener_step c).
Proof.
  intros w [] w' [HK HS] E.
  split; [eapply listener_step_keeps; eassumption|].
  destruct (tasks w !! c) as [tk|] eqn:Ht;
    [|rewrite (listener_step_idle _ _ Ht) in E; injection E as <-; exact HS].
  destruct (inv_ctrl _ HK c tk Ht) as (rl & Hrl & _).
  destruct (t_pc tk) as [|old|old|] eqn:Hpc.
  - destruct (t_sigs tk) as [|s q] eqn:Hs;
      [unfold listener_step in E; rewrite Ht, Hpc, Hs in E;
       injection E as <-; exact HS|].
    destruct (s =? signal rl)%Z eqn:Heq.
    + apply Z.eqb_eq in Heq. subst s.
      destruct (openErr w (name rl)) as [e|] eqn:Ho.
      * destruct (listener_step_err c tk rl q e w Ht Hpc Hs Hrl Ho)
          as (x & Hx & _).
        rewrite Hx in E. discriminate.
      * eapply safe_begin; eassumption.
    + rewrite (listener_step_skip c tk s q rl w Ht Hpc Hs Hrl Heq) in E.
      injection E as <-.
      apply (safe_frame w); try exact HS.
      * intros p x. reflexivity.
      * intros p t H. exact H.
      * intros p s0 (c' & x & H & Hp & Hs0). cbn [tasks set_tasks] in H.
        apply lookup_alter_Some in H as [(-> & x0 & Hx0 & ->)|(_ & H)];
          [exists c, x0; auto | exists c', x; auto].
      * intros t. destruct t; reflexivity.
      * intros d H. exact H.
      * reflexivity.
  - rewrite (listener_step_Opened c tk old rl w Ht Hpc Hrl) in E.
    injection E as <-. exact (safe_redirect c tk old rl w HK HS Ht Hpc Hrl).
  - rewrite (listener_step_end c tk old w Ht Hpc) in E. injection E as <-.
    exact (safe_end c tk old w HK HS Ht Hpc).
  - unfold listener_step in E. rewrite Ht, Hpc in E. injection E as <-.
    exact HS.
Qed.

Lemma safe_step o :
  no_close o = true -> keeps (fun w => tasks_inv w /\ safe w) (step o).
Proof.
  intros Hnc. destruct o; cbn [step]; try discriminate Hnc.
  - apply keeps_bind; [apply safe_Open | intros; apply keeps_ret].
  - apply keeps_bind; [apply safe_WriteTo | intros; apply keeps_ret].
  - apply keeps_bind; [|intros; apply keeps_ret].
    unfold WriteAllTo.
    apply keeps_bind; [apply safe_WriteTo|]. intros lr.
    apply keeps_bind; [apply safe_Capture|]. intros _.
    apply keeps_bind; [apply safe_Capture|]. intros _.
    apply keeps_ret.
  - apply safe_Capture.
  - apply safe_Capture.
  - intros w [] w' [HK HS] E.
    split; [eapply (step_keeps NewZero); eassumption|].
    injection E as <-. apply (safe_frame w); try exact HS.
    + intros p h. split; intros H.
      * apply (cur_snoc w
                 (set_ctrls
                    (ctrls w ++ [mkLogRot "" None 0%Z None [] false false]) w)
                 (mkLogRot "" None 0%Z None [] false false) p h eq_refl)
          in H as [H|[_ H]]; [exact H | discriminate].
      * apply (cur_snoc w
                 (set_ctrls
                    (ctrls w ++ [mkLogRot "" None 0%Z None [] false false]) w)
                 (mkLogRot "" None 0%Z None [] false false) p h eq_refl).
        left. exact H.
    + intros p t H.
      apply (tgt_snoc w
               (set_ctrls
                  (ctrls w ++ [mkLogRot "" None 0%Z None [] false false]) w)
               (mkLogRot "" None 0%Z None [] false false) p t eq_refl).
      left. exact H.
    + intros p s H. exact H.
    + intros t. destruct t; reflexivity.
    + intros d H. exact H.
    + reflexivity.
  - intros w [] w' [HK HS] E.
    split; [eapply (step_keeps (Deliver s)); eassumption|].
    injection E as <-. apply (safe_frame w); try exact HS.
    + intros p x. reflexivity.
    + intros p t H. exact H.
    + intros p s0 (c & x & H & Hp & Hs0).
      cbn [tasks emit set_trace set_tasks] in H. rewrite list_lookup_fmap in H.
      destruct (tasks w !! c) as [t|] eqn:Ht; [|discriminate].
      injection H as <-. destruct (relay_fields s t) as (E1 & _ & E3 & _).
      exists c, t. repeat split; congruence.
    + intros t. destruct t; reflexivity.
    + intros d H. exact H.
    + reflexivity.
  - apply safe_listener.
  - intros w [] w' [HK HS] E.
    split; [eapply (step_keeps (FsChange oe)); eassumption|].
    injection E as <-. apply (safe_frame w); try exact HS.
    + intros p x. reflexivity.
    + intros p t H. exact H.
    + intros p s H. exact H.
    + intros t. destruct t; reflexivity.
    + intros d H. exact H.
    + reflexivity.
Qed.

Lemma safe_run ops :
  forallb no_close ops = true ->
  keeps (fun w => tasks_inv w /\ safe w) (run ops).
Proof.
  induction ops as [|o ops IH]; cbn [run forallb]; intros H.
  - apply keeps_ret.
  - apply andb_prop in H as [H1 H2].
    apply keeps_bind; [apply safe_step, H1 | intros _; apply IH, H2].
Qed.

Lemma plain_no_close ops :
  forallb plain_op ops = true -> forallb no_close ops = true.
Proof.
  induction ops as [|o ops IH]; cbn [forallb]; [reflexivity|].
  intros H. apply andb_prop in H as [H1 H2]. rewrite (IH H2), andb_true_r.
  destruct o; try reflexivity; discriminate H1.
Qed.

(** X15.  In every run of the process in which the program calls neither
    [Close] nor a capture ([CaptureStdout], [CaptureStderr],
    [WriteAllTo]) and redirects no output itself, however many
    controllers there are and however the slices of their rotations
    interleave with each other, with signals and with the calls of the
    program: the standard logger always has an output and it is an open
    file; every logger given to a controller, once set, points at an
    open file; the current file of every controller is open; and when a
    listener is about to close the old file of its rotation, neither
    the standard logger nor a logger points at that file any more.
    A writer that the program itself has pointed at a handle it got
    from [Open] is no output of the package and is not redirected. *)
Theorem outputs_stay_on_open_files (ops : list op)
    (oe : string -> option string) (w : World) :
  forallb plain_op ops = true ->
  run ops (init oe) = Ok tt w ->
  is_open w (log_out w) = true
  /\ (forall t d, dest w t = Some d -> is_open w (Some d) = true)
  /\ (forall p rl h, ctrls w !! p = Some rl -> logFile rl = Some h ->
        is_open w (Some h) = true)
  /\ (forall c tk o t, tasks w !! c = Some tk ->
        t_pc tk = Redirected (Some o) -> dest w t <> Some o).
Proof.
  intros Hnc Hrun.
  destruct (safe_run ops (plain_no_close ops Hnc) (init oe) tt w
              (conj (tasks_inv_init oe) (safe_init oe)) Hrun)
    as [HK [S1 S2 S3 S4 S5 S6 S7 S8 S9]].
  split.
  { destruct (log_out w) as [d|] eqn:E; [|congruence].
    apply (S5 TLog). exact E. }
  split; [exact S5|].
  split.
  { intros p rl h Hp Hh. apply (S1 p). exists rl. auto. }
  intros c tk o t Ht Hpc. apply (S9 (t_rl tk) o).
  exists c, tk. auto.
Qed.

Lemma outputs_stay_on_open_files_witness :
  is_open (world_of (run two_controllers (init no_errors)))
    (log_out (world_of (run two_controllers (init no_errors)))) = true
  /\ is_open (world_of (run two_controllers (init no_errors)))
       (dest (world_of (run two_controllers (init no_errors))) (TLogger 7))
     = true.
Proof.
  destruct (outputs_stay_on_open_files two_controllers no_errors
              (world_of (run two_controllers (init no_errors))))
    as (H1 & H2 & _).
  - reflexivity.
  - vm_compute. reflexivity.
  - split; [exact H1|].
    destruct (dest (world_of (run two_controllers (init no_errors))) (TLogger 7))
      as [d|] eqn:E.
    + apply (H2 (TLogger 7)). exact E.
    + vm_compute in E. discriminate.
Defined.

(** X16.  The handle that [Open] returns for a name under rotation is the
    controller's current file, and it is good until the next rotation
    only: the rotation closes it and registers a new file, which [Open]
    returns from then on.  Whoever keeps writing through the handle it
    got from [Open] writes to a closed file after the rotation. *)
Theorem Open_handle_is_closed_by_rotation (p : ptr) (rl : LogRot) (h : handle)
    (w w' : World) :
  ctrls w !! p = Some rl ->
  logFile rl = Some h ->
  files w !! name rl = Some h ->
  h < length (fobjs w) ->
  rotate p w = Ok tt w' ->
  Open (name rl) w = Ok h w
  /\ is_open w' (Some h) = false
  /\ Open (name rl) w' = Ok (length (fobjs w)) w'
  /\ h <> length (fobjs w)
  /\ is_open w' (Some (length (fobjs w))) = true.
Proof.
  intros Hp Hf Hreg Hlt Hr.
  split; [unfold Open; rewrite Hreg; reflexivity|].
  destruct (openErr w (name rl)) as [e|] eqn:Ho.
  { rewrite (rotate_err p rl e) in Hr by assumption. discriminate. }
  rewrite (rotate_eq p rl) in Hr by assumption.
  apply (f_equal world_of) in Hr. cbn [world_of] in Hr. subst w'.
  rewrite Hf.
  split.
  { change (is_open (closed (Some h)
                       (redirected (with_logFile (Some (length (fobjs w))) rl)
                          (rotate_reopened p rl w))) (Some h) = false).
    apply is_open_closed_self. }
  split.
  { unfold Open.
    cbn [files emit set_trace closed set_fobjs redirected rotate_reopened
         set_ctrls reopened].
    rewrite lookup_insert_eq. reflexivity. }
  split; [lia|].
  change (is_open (closed (Some h)
                     (redirected (with_logFile (Some (length (fobjs w))) rl)
                        (rotate_reopened p rl w)))
            (Some (length (fobjs w))) = true).
  rewrite is_open_closed_other by (intros [=]; lia).
  eapply is_open_fresh. reflexivity.
Qed.

Lemma Open_handle_is_closed_by_rotation_witness :
  exists w',
    rotate 0 app_started = Ok tt w'
    /\ Open "app.log" app_started = Ok 3 app_started
    /\ is_open w' (Some 3) = false
    /\ Open "app.log" w' = Ok 4 w'.
Proof.
  assert (Hr : rotate 0 app_started
               = Ok tt (world_of (rotate 0 app_started))).
  { rewrite (rotate_eq 0 app_rl app_started eq_refl eq_refl). reflexivity. }
  destruct (Open_handle_is_closed_by_rotation 0 app_rl 3 app_started
              (world_of (rotate 0 app_started))
              eq_refl eq_refl eq_refl) as (H1 & H2 & H3 & _).
  - cbn. lia.
  - exact Hr.
  - exists (world_of (rotate 0 app_started)).
    split; [exact Hr|]. split; [exact H1|]. split; [exact H2 | exact H3].
Defined.

(** ** Signals and rotations

    Every signal put in the channel of a listener is either still there
    or has begun a rotation. *)

Lemma backlog_alter w w' c' t' g evs c :
  tasks_inv w ->
  tasks w !! c' = Some t' ->
  tasks w' = alter g c' (tasks w) ->
  t_rl (g t') = t_rl t' ->
  trace w' = trace w ++ evs ->
  forallb (only_for (t_rl t')) evs = true ->
  count (is_rotate (t_rl t')) evs + length (t_sigs (g t')) = length (t_sigs t') ->
  backlog c w' = backlog c w.
Proof.
  intros HK Ht Htk Hrl Htr Hev Hcnt. unfold backlog. rewrite Htk, Htr.
  destruct (decide (c = c')) as [->|Hne].
  - rewrite list_lookup_alter_eq, Ht. cbn [fmap option_fmap option_map].
    rewrite Hrl. unfold rotations. rewrite count_app. lia.
  - rewrite list_lookup_alter_ne by congruence.
    destruct (tasks w !! c) as [t|] eqn:Hc; [|reflexivity].
    unfold rotations. rewrite count_app.
    rewrite (rotations_only_for (t_rl t') (t_rl t) evs Hev); [lia|].
    intros E. apply Hne. exact (inv_owner _ HK c c' t t' Hc Ht E).
Qed.

Lemma backlog_set_pc c c' s w :
  backlog c (set_tasks (alter (with_pc s) c' (tasks w)) w) = backlog c w.
Proof.
  unfold backlog. cbn [tasks trace set_tasks].
  destruct (decide (c = c')) as [->|Hne].
  - rewrite list_lookup_alter_eq. destruct (tasks w !! c'); reflexivity.
  - rewrite list_lookup_alter_ne by congruence. reflexivity.
Qed.

Lemma backlog_quiet c w w' : quiet_step w w' -> backlog c w' = backlog c w.
Proof.
  intros (Ht & (evs & Htr & Hq) & _). unfold backlog. rewrite Ht, Htr.
  destruct (tasks w !! c) as [t|]; [|reflexivity].
  unfold rotations. rewrite count_app, (rotations_quiet _ _ Hq). lia.
Qed.

Lemma listener_backlog c' c w w' :
  tasks_inv w -> signals_match w ->
  listener_step c' w = Ok tt w' -> backlog c w' = backlog c w.
Proof.
  intros HK HS E.
  destruct (tasks w !! c') as [t|] eqn:Ht;
    [| rewrite (listener_step_idle _ _ Ht) in E; injection E as <-; reflexivity].
  destruct (inv_ctrl _ HK c' t Ht) as (rl & Hrl & Hsig).
  destruct (t_pc t) as [|old|old|] eqn:Hpc.
  - destruct (t_sigs t) as [|s q] eqn:Hs;
      [unfold listener_step in E; rewrite Ht, Hpc, Hs in E;
       injection E as <-; reflexivity|].
    assert (s = signal rl) as ->.
    { specialize (HS c' t Ht). rewrite Hs in HS.
      apply Forall_cons in HS as [-> _]. congruence. }
    destruct (openErr w (name rl)) as [e|] eqn:Ho.
    + destruct (listener_step_err c' t rl q e w Ht Hpc Hs Hrl Ho) as (x & Hx & _).
      rewrite Hx in E. discriminate.
    + destruct (listener_step_begin c' t q rl w Ht Hpc Hs Hrl Ho)
        as (x & Hx & Htk & Htr & _).
      rewrite Hx in E. injection E as <-.
      eapply (backlog_alter w x c' t _ _ c HK Ht Htk); [reflexivity | exact Htr | |].
      * cbn. rewrite bool_decide_eq_true_2 by reflexivity. reflexivity.
      * unfold count. cbn. rewrite bool_decide_eq_true_2 by reflexivity.
        rewrite ?Hs. cbn. lia.
  - rewrite (listener_step_Opened c' t old rl w Ht Hpc Hrl) in E.
    injection E as <-.
    apply (backlog_alter w _ c' t (with_pc (Redirected old))
             (setOutput_events rl) c HK Ht).
    + reflexivity.
    + reflexivity.
    + reflexivity.
    + apply quiet_only_for, quiet_setOutput_events.
    + rewrite rotations_quiet by apply quiet_setOutput_events. cbn. lia.
  - rewrite (listener_step_end c' t old w Ht Hpc) in E. injection E as <-.
    apply (backlog_alter w _ c' t (with_pc Waiting)
             [EvClose old; EvRotated (t_rl t)] c HK Ht).
    + reflexivity.
    + reflexivity.
    + wsimpl. rewrite <- app_assoc. reflexivity.
    + cbn. rewrite bool_decide_eq_true_2 by reflexivity. reflexivity.
    + unfold count. cbn. lia.
  - unfold listener_step in E. rewrite Ht, Hpc in E. injection E as <-.
    reflexivity.
Qed.

Lemma accounted_listener c n c' : keeps (accounted c n) (listener_step c').
Proof.
  intros w [] w' (HK & HS & HB) E.
  split; [exact (listener_step_keeps c' _ _ _ HK E)|].
  split; [exact (signals_match_listener c' _ _ _ HS E)|].
  rewrite (listener_backlog c' c w w' HK HS E). exact HB.
Qed.

Lemma accounted_quiet c n {A} (m : M A) :
  rel quiet_step m -> keeps (accounted c n) m.
Proof.
  intros Hm w a w' (HK & HS & HB) E. specialize (Hm w). rewrite E in Hm.
  cbn [world_of] in Hm.
  split; [eapply tasks_inv_quiet; eassumption|].
  split.
  - intros c0 t0 H0. destruct Hm as (Ht & _). rewrite Ht in H0. eapply HS, H0.
  - rewrite (backlog_quiet c w w' Hm). exact HB.
Qed.

Lemma accounted_send_quit c n q : keeps (accounted c n) (send_quit q).
Proof.
  intros w [] w' (HK & HS & HB) E.
  split; [exact (send_quit_keeps q _ _ _ HK E)|].
  split.
  { exact (send_quit_holds signals_match signals_match_listener
             signals_match_return q _ _ _ HS E). }
  unfold send_quit in E.
  destruct q as [c'|]; [|discriminate].
  destruct (tasks w !! c') as [t|] eqn:Ht; [|discriminate].
  destruct (t_pc t) as [|old|old|] eqn:Hpc; [| | |discriminate].
  - injection E as <-. rewrite backlog_set_pc. exact HB.
  - unfold bind in E.
    destruct (listener_step c' w) as [[] w1| | |] eqn:E1; try discriminate.
    destruct (listener_step c' w1) as [[] w2| | |] eqn:E2; try discriminate.
    injection E as <-. rewrite backlog_set_pc.
    pose proof (accounted_listener c n c' _ _ _ (conj HK (conj HS HB)) E1) as A1.
    destruct (accounted_listener c n c' _ _ _ A1 E2) as (_ & _ & A2). exact A2.
  - unfold bind in E.
    destruct (listener_step c' w) as [[] w1| | |] eqn:E1; try discriminate.
    injection E as <-. rewrite backlog_set_pc.
    destruct (accounted_listener c n c' _ _ _ (conj HK (conj HS HB)) E1)
      as (_ & _ & A1).
    exact A1.
Qed.

Lemma accounted_Close c n rl : keeps (accounted c n) (Close rl).
Proof.
  unfold Close. destruct rl as [p|]; [|apply keeps_ret].
  apply keeps_bind; [apply deref_keeps|]. intros r.
  destruct (logFile r); [|apply keeps_ret].
  apply keeps_bind; [apply accounted_send_quit|]. intros _.
  apply keeps_bind; [apply deref_keeps|]. intros r'.
  apply accounted_quiet, file_Close_quiet.
Qed.

Lemma accounted_started c n file sig ls w :
  accounted c n w -> accounted c n (started file sig ls w).
Proof.
  intros (HK & HS & HB).
  split; [apply tasks_inv_started, HK|].
  assert (Etk : tasks (started file sig ls w)
                = tasks w ++ [mkTask (length (ctrls w)) sig [] Waiting])
    by reflexivity.
  split.
  - intros c0 t0 H0. rewrite Etk in H0.
    apply lookup_app_Some in H0 as [H0|[_ H0]]; [eapply HS, H0|].
    apply list_lookup_singleton_Some in H0 as [_ <-]. constructor.
  - destruct (started_quiet file sig ls w) as (evs & Htr & Hq).
    unfold backlog in *. rewrite Etk, Htr.
    destruct (tasks w !! c) as [t|] eqn:Hc.
    + rewrite (lookup_app_l_Some _ _ _ _ Hc).
      unfold rotations in *. rewrite count_app, (rotations_quiet _ _ Hq). lia.
    + subst n. apply lookup_ge_None in Hc.
      destruct (decide (c = length (tasks w))) as [->|Hne].
      * rewrite lookup_app_r by lia. rewrite Nat.sub_diag. cbn.
        unfold rotations. rewrite count_app, (rotations_quiet _ _ Hq).
        destruct (inv_idle _ HK (length (ctrls w))) as [_ Hz].
        { intros c0 t0 H0 E0.
          destruct (inv_ctrl _ HK c0 t0 H0) as (r & Hr & _).
          apply lookup_lt_Some in Hr. lia. }
        unfold rotations in Hz. lia.
      * rewrite lookup_ge_None_2; [reflexivity|].
        rewrite length_app. cbn. lia.
Qed.

Lemma accounted_WriteTo c n file ls : keeps (accounted c n) (WriteTo file ls).
Proof.
  intros w a w' H E. unfold WriteTo in E.
  destruct (openErr w file) as [e|] eqn:Ho.
  - rewrite (rotateOn_err _ _ _ _ _ Ho) in E. discriminate.
  - rewrite (rotateOn_eq _ _ _ _ Ho) in E. injection E as _ <-.
    apply accounted_started, H.
Qed.

Lemma relay_queued c s t w :
  tasks w !! c = Some t ->
  t_rl (relay s t) = t_rl t
  /\ length (t_sigs (relay s t)) = length (t_sigs t) + queued c (Deliver s) w.
Proof.
  intros Ht. unfold queued, relay. rewrite Ht.
  destruct (bool_decide (t_notify t = s) && Nat.ltb (length (t_sigs t)) sigs_cap).
  - cbn. rewrite length_app. cbn. lia.
  - split; [reflexivity | lia].
Qed.

Lemma accounted_deliver c n s w :
  accounted c n w ->
  accounted c (n + queued c (Deliver s) w)
    (emit (EvSignal s) (set_tasks (relay s <$> tasks w) w)).
Proof.
  intros (HK & HS & HB).
  split; [apply tasks_inv_deliver, HK|].
  split.
  - intros c0 t' Hc. cbn [tasks emit set_tasks set_trace] in Hc.
    rewrite list_lookup_fmap in Hc.
    destruct (tasks w !! c0) as [t|] eqn:Ht; [|discriminate].
    injection Hc as <-. specialize (HS c0 t Ht). unfold relay.
    destruct (bool_decide (t_notify t = s)) eqn:Eb; cbn [andb]; [|exact HS].
    destruct (Nat.ltb (length (t_sigs t)) sigs_cap); [|exact HS].
    cbn. apply Forall_app. split; [exact HS|].
    apply bool_decide_eq_true_1 in Eb. repeat constructor. congruence.
  - unfold backlog in *. cbn [tasks trace emit set_tasks set_trace].
    rewrite list_lookup_fmap.
    destruct (tasks w !! c) as [t|] eqn:Ht.
    + cbn [fmap option_fmap option_map].
      destruct (relay_queued c s t w Ht) as [E1 E2]. rewrite E1, E2.
      unfold rotations in *. rewrite count_app. unfold count at 2. cbn. lia.
    + subst n. unfold queued. rewrite Ht. reflexivity.
Qed.

Lemma accounted_step c n o w w' :
  accounted c n w -> step o w = Ok tt w' ->
  accounted c (n + queued c o w) w'.
Proof.
  intros H E.
  destruct o; cbn [queued]; rewrite ?Nat.add_0_r; cbn [step] in E.
  - refine (accounted_quiet c n _ _ w tt w' H E).
    apply rel_forget; [apply quiet_step_preorder | apply Open_quiet].
  - refine (keeps_bind _ _ _ (accounted_WriteTo c n file ls) _ w tt w' H E).
    intros; apply keeps_ret.
  - refine (keeps_bind _ _ _ _ _ w tt w' H E); [|intros; apply keeps_ret].
    unfold WriteAllTo.
    apply keeps_bind; [apply accounted_WriteTo|]. intros lr.
    apply keeps_bind; [apply accounted_quiet, Capture_quiet|]. intros _.
    apply keeps_bind; [apply accounted_quiet, Capture_quiet|]. intros _.
    apply keeps_ret.
  - exact (accounted_Close c n rl w tt w' H E).
  - refine (accounted_quiet c n _ _ w tt w' H E). apply Capture_quiet.
  - refine (accounted_quiet c n _ _ w tt w' H E). apply Capture_quiet.
  - refine (accounted_quiet c n _ _ w tt w' H E).
    apply rel_forget;
      [apply quiet_step_preorder | apply new_LogRot_quiet; reflexivity].
  - injection E as <-. apply accounted_deliver, H.
  - exact (accounted_listener c n c0 w tt w' H E).
  - refine (accounted_quiet c n _ _ w tt w' H E).
    apply rel_modify. intros w0. quiet_leaf.
Qed.

Lemma accounted_run c ops : forall n w w',
  accounted c n w -> run ops w = Ok tt w' ->
  accounted c (n + accepted c ops w) w'.
Proof.
  induction ops as [|o ops IH]; intros n w w' H E; cbn [run accepted] in *.
  - injection E as <-. rewrite Nat.add_0_r. exact H.
  - unfold bind in E.
    destruct (step o w) as [[] w1| | |] eqn:E1; try discriminate.
    cbn [world_of]. rewrite Nat.add_assoc.
    apply (IH _ w1 w'); [|exact E].
    exact (accounted_step c n o w w1 H E1).
Qed.

Lemma accounted_init c oe : accounted c 0 (init oe).
Proof.
  split; [apply tasks_inv_init|].
  split; [intros c0 t0 H0; discriminate | reflexivity].
Qed.

(** A listener that waits at its [select] with its controller's signal
    pending rotates in its next three slices, if the file can be
    opened, and waits again with one signal fewer. *)
Lemma listener_serves c t q rl w :
  tasks_inv w -> signals_match w ->
  tasks w !! c = Some t ->
  t_pc t = Waiting ->
  t_sigs t = signal rl :: q ->
  ctrls w !! t_rl t = Some rl ->
  openErr w (name rl) = None ->
  exists w3,
    run [Sched c; Sched c; Sched c] w = Ok tt w3
    /\ rotations (t_rl t) (trace w3) = S (rotations (t_rl t) (trace w))
    /\ scan (t_rl t) (trace w3) = Some false
    /\ tasks w3 !! c = Some (mkTask (t_rl t) (t_notify t) q Waiting)
    /\ trace w3 =
         trace w
         ++ [EvLog (log_out w) (MRotating (signal rl) (name rl));
             EvRotate (t_rl t);
             EvOpenFile (name rl) open_flag open_perm
               (Some (length (fobjs w)));
             EvRegister (name rl) (length (fobjs w))]
         ++ setOutput_events (with_logFile (Some (length (fobjs w))) rl)
         ++ [EvClose (logFile rl); EvRotated (t_rl t)]
    /\ (logFile <$> ctrls w3 !! t_rl t) = Some (Some (length (fobjs w)))
    /\ is_open w3 (Some (length (fobjs w))) = true
    /\ is_open w3 (logFile rl) = false.
Proof.
  intros HK HS Ht Hpc Hs Hrl Ho.
  destruct (listener_step_begin c t q rl w Ht Hpc Hs Hrl Ho)
    as (w1 & E1 & Htk & Htr & Hct & Hfo).
  assert (Ht1 : tasks w1 !! c
                = Some ((with_pc (Opened (logFile rl)) ∘ with_sigs q) t))
    by (rewrite Htk, list_lookup_alter_eq, Ht; reflexivity).
  assert (Hrl1 : ctrls w1 !! t_rl t
                 = Some (with_logFile (Some (length (fobjs w))) rl))
    by (rewrite Hct; apply (lookup_ctrl_insert _ _ _ _ Hrl)).
  pose proof (listener_step_Opened c _ (logFile rl) _ w1 Ht1 eq_refl Hrl1) as E2.
  match type of E2 with _ = Ok tt ?x => set (w2 := x) in * end.
  assert (Ht2 : tasks w2 !! c
                = Some (with_pc (Redirected (logFile rl))
                          ((with_pc (Opened (logFile rl)) ∘ with_sigs q) t)))
    by (unfold w2; cbn [tasks set_tasks redirected];
        rewrite list_lookup_alter_eq, Ht1; reflexivity).
  pose proof (listener_step_end c _ (logFile rl) w2 Ht2 eq_refl) as E3.
  match type of E3 with _ = Ok tt ?x => set (w3 := x) in * end.
  assert (Ht3 : tasks w3 !! c = Some (mkTask (t_rl t) (t_notify t) q Waiting))
    by (unfold w3; cbn [tasks set_tasks emit set_trace closed];
        rewrite list_lookup_alter_eq;
        replace (tasks (closed (logFile rl) w2)) with (tasks w2)
          by (destruct (logFile rl); reflexivity);
        rewrite Ht2; reflexivity).
  pose proof (accounted_listener c (backlog c w) c _ _ _
                (conj HK (conj HS eq_refl)) E1) as A1.
  pose proof (accounted_listener c (backlog c w) c _ _ _ A1 E2) as A2.
  destruct (accounted_listener c (backlog c w) c _ _ _ A2 E3)
    as (HK3 & _ & HB3).
  exists w3. split.
  { cbn [run step]. unfold bind. rewrite E1, E2, E3. reflexivity. }
  split.
  { unfold backlog in HB3. rewrite Ht3, Ht, Hs in HB3.
    cbn [t_rl t_sigs length] in HB3. lia. }
  split; [exact (inv_scan _ HK3 c _ Ht3)|].
  split; [exact Ht3|].
  split.
  { unfold w3, w2. wsimpl. rewrite Htr, <- !app_assoc. reflexivity. }
  split.
  { replace (ctrls w3) with (ctrls w1)
      by (unfold w3, w2; destruct (logFile rl); reflexivity).
    rewrite Hrl1. reflexivity. }
  assert (Efo : fobjs w3 = fobjs (closed (logFile rl) w2)) by reflexivity.
  rewrite !(is_open_fobjs _ _ _ Efo).
  split; [|apply is_open_closed_self].
  rewrite is_open_closed_other.
  - assert (Efo2 : fobjs w2 = fobjs w1) by reflexivity.
    rewrite (is_open_fobjs _ _ _ Efo2). exact (is_open_fresh w w1 _ Hfo).
  - intros E. pose proof (inv_file _ HK _ _ _ Hrl E). lia.
Qed.

(** C2, as the code has it.  In every run of the process, for every
    controller: rotations never overlap (each [rotate] returns before
    the next one is entered, and none is entered while another is in
    flight); the number of rotations begun is at most the number of
    times the controller's signal reached the process, and it can be
    less, for a signal that arrives while one is already waiting in the
    listener's one-slot channel is lost; a controller without listener
    never rotates.  No signal put in the channel is lost: the rotations
    begun and the signals still waiting are together exactly the signals
    that found room in the channel; every signal that waits is the
    controller's; and a listener at its [select] with a signal waiting
    runs one whole rotation in its next three slices, if the file can be
    opened (the notice, the new file opened and registered, the outputs
    redirected to it, the old file closed, in this order), and waits
    again with that signal taken. *)
Theorem rotations_are_sequential (ops : list op) (oe : string -> option string)
    (w : World) (p : ptr) (rl : LogRot) :
  run ops (init oe) = Ok tt w ->
  ctrls w !! p = Some rl ->
  sequential p (trace w)
  /\ rotations p (trace w) <= received (signal rl) (trace w)
  /\ ((forall c t, tasks w !! c = Some t -> t_rl t <> p) ->
      rotations p (trace w) = 0)
  /\ (forall c t, tasks w !! c = Some t -> t_rl t = p ->
        scan p (trace w) = Some (in_rotate (t_pc t))
        /\ rotations p (trace w) + length (t_sigs t)
           <= received (signal rl) (trace w)
        /\ length (t_sigs t) <= 1
        /\ rotations p (trace w) + length (t_sigs t)
           = accepted c ops (init oe)
        /\ Forall (fun s => s = signal rl) (t_sigs t)
        /\ (forall s q, t_pc t = Waiting -> t_sigs t = s :: q ->
            openErr w (name rl) = None ->
            exists w3,
              run [Sched c; Sched c; Sched c] w = Ok tt w3
              /\ rotations p (trace w3) = S (rotations p (trace w))
              /\ scan p (trace w3) = Some false
              /\ tasks w3 !! c = Some (mkTask p (signal rl) q Waiting)
              /\ trace w3 =
                   trace w
                   ++ [EvLog (log_out w) (MRotating (signal rl) (name rl));
                       EvRotate p;
                       EvOpenFile (name rl) open_flag open_perm
                         (Some (length (fobjs w)));
                       EvRegister (name rl) (length (fobjs w))]
                   ++ setOutput_events
                        (with_logFile (Some (length (fobjs w))) rl)
                   ++ [EvClose (logFile rl); EvRotated p]
              /\ (logFile <$> ctrls w3 !! p)
                 = Some (Some (length (fobjs w)))
              /\ is_open w3 (Some (length (fobjs w))) = true
              /\ is_open w3 (logFile rl) = false)).
Proof.
  intros Hrun Hp.
  pose proof (run_keeps ops _ _ _ (tasks_inv_init oe) Hrun) as HK.
  assert (Hacc : forall c, accounted c (accepted c ops (init oe)) w).
  { intros c. exact (accounted_run c ops 0 _ _ (accounted_init c oe) Hrun). }
  assert (HS : signals_match w) by (destruct (Hacc 0) as (_ & H & _); exact H).
  assert (Hown : forall c t, tasks w !! c = Some t -> t_rl t = p ->
            signal rl = t_notify t
            /\ scan p (trace w) = Some (in_rotate (t_pc t))
            /\ rotations p (trace w) + length (t_sigs t)
               <= received (signal rl) (trace w)).
  { intros c t Ht <-.
    destruct (inv_ctrl _ HK c t Ht) as (r & Hr & Hs).
    assert (r = rl) as -> by congruence.
    split; [exact Hs|]. split; [eapply inv_scan; eassumption|].
    rewrite Hs. eapply inv_count; eassumption. }
  assert (Hidle : (forall c t, tasks w !! c = Some t -> t_rl t <> p) ->
            scan p (trace w) = Some false /\ rotations p (trace w) = 0)
    by apply (inv_idle _ HK).
  assert (Hall : forall c t, tasks w !! c = Some t -> t_rl t = p ->
        scan p (trace w) = Some (in_rotate (t_pc t))
        /\ rotations p (trace w) + length (t_sigs t)
           <= received (signal rl) (trace w)
        /\ length (t_sigs t) <= 1
        /\ rotations p (trace w) + length (t_sigs t)
           = accepted c ops (init oe)
        /\ Forall (fun s => s = signal rl) (t_sigs t)
        /\ (forall s q, t_pc t = Waiting -> t_sigs t = s :: q ->
            openErr w (name rl) = None ->
            exists w3,
              run [Sched c; Sched c; Sched c] w = Ok tt w3
              /\ rotations p (trace w3) = S (rotations p (trace w))
              /\ scan p (trace w3) = Some false
              /\ tasks w3 !! c = Some (mkTask p (signal rl) q Waiting)
              /\ trace w3 =
                   trace w
                   ++ [EvLog (log_out w) (MRotating (signal rl) (name rl));
                       EvRotate p;
                       EvOpenFile (name rl) open_flag open_perm
                         (Some (length (fobjs w)));
                       EvRegister (name rl) (length (fobjs w))]
                   ++ setOutput_events
                        (with_logFile (Some (length (fobjs w))) rl)
                   ++ [EvClose (logFile rl); EvRotated p]
              /\ (logFile <$> ctrls w3 !! p)
                 = Some (Some (length (fobjs w)))
              /\ is_open w3 (Some (length (fobjs w))) = true
              /\ is_open w3 (logFile rl) = false)).
  { intros c t Ht E. destruct (Hown c t Ht E) as (Hsig & Hsc & Hle).
    split; [exact Hsc|]. split; [exact Hle|].
    split; [exact (inv_cap _ HK c t Ht)|].
    split.
    { destruct (Hacc c) as (_ & _ & HB). unfold backlog in HB.
      rewrite Ht, E in HB. exact HB. }
    assert (Hf : Forall (fun s => s = signal rl) (t_sigs t))
      by (rewrite Hsig; exact (HS c t Ht)).
    split; [exact Hf|].
    intros s q Hpc Hs Ho. rewrite Hs in Hf.
    apply Forall_cons in Hf as [-> _]. subst p.
    destruct (listener_serves c t q rl w HK HS Ht Hpc Hs Hp Ho)
      as (w3 & H1 & H2 & H3 & H4 & H5).
    rewrite <- Hsig in H4. exists w3.
    split; [exact H1|]. split; [exact H2|]. split; [exact H3|].
    split; [exact H4 | exact H5]. }
  split.
  { destruct (task_of_dec (tasks w) p) as [(c & t & Ht & E)|Hnone].
    - destruct (Hown c t Ht E) as (_ & Hs & _).
      unfold sequential. rewrite Hs. eauto.
    - destruct (Hidle Hnone) as [Hs _]. unfold sequential. rewrite Hs. eauto. }
  split.
  { destruct (task_of_dec (tasks w) p) as [(c & t & Ht & E)|Hnone].
    - destruct (Hown c t Ht E) as (_ & _ & Hle). lia.
    - destruct (Hidle Hnone) as [_ Hr]. lia. }
  split; [intros Hnone; apply (Hidle Hnone) | exact Hall].
Qed.

Lemma rotations_are_sequential_witness :
  (sequential 0 (trace (world_of (run burst (init no_errors))))
   /\ rotations 0 (trace (world_of (run burst (init no_errors)))) <= 3
   /\ accepted 0 burst (init no_errors) = 1)
  /\ (sequential 0 (trace (world_of (run spaced (init no_errors))))
      /\ rotations 0 (trace (world_of (run spaced (init no_errors)))) + 0
         = accepted 0 spaced (init no_errors)
      /\ accepted 0 spaced (init no_errors) = 3).
Proof.
  split.
  - assert (Hrun : run burst (init no_errors)
                   = Ok tt (world_of (run burst (init no_errors))))
      by (vm_compute; reflexivity).
    assert (Hp : ctrls (world_of (run burst (init no_errors))) !! 0
                 = Some (with_logFile (Some 4) app_rl))
      by (vm_compute; reflexivity).
    destruct (rotations_are_sequential burst no_errors _ 0 _ Hrun Hp)
      as (Hs & Hr & _).
    split; [exact Hs|].
    assert (E : received (signal (with_logFile (Some 4) app_rl))
                  (trace (world_of (run burst (init no_errors)))) = 3)
      by (vm_compute; reflexivity).
    rewrite E in Hr. split; [exact Hr | vm_compute; reflexivity].
  - assert (Hrun : run spaced (init no_errors)
                   = Ok tt (world_of (run spaced (init no_errors))))
      by (vm_compute; reflexivity).
    assert (Hp : ctrls (world_of (run spaced (init no_errors))) !! 0
                 = Some (with_logFile (Some 6) app_rl))
      by (vm_compute; reflexivity).
    assert (Ht : tasks (world_of (run spaced (init no_errors))) !! 0
                 = Some (mkTask 0 syscall.SIGHUP [] Waiting))
      by (vm_compute; reflexivity).
    destruct (rotations_are_sequential spaced no_errors _ 0 _ Hrun Hp)
      as (Hs & _ & _ & Hall).
    destruct (Hall 0 _ Ht eq_refl) as (_ & _ & _ & Hacc & _).
    split; [exact Hs|]. split; [exact Hacc | vm_compute; reflexivity].
Defined.
